(** * A conservative mark-and-sweep collector (gc.c / gc.h)

    Shallow embedding of the allocator facade ([gc_init], [gc_alloc],
    [gc_realloc], [gc_free]), of the collection cycle ([_gc_collect],
    [gc_mark], [gc_sweep]) and of the data they work on, followed by the
    properties of the specification that were checked against it.

    Conventions of the embedding.
    - Target: x86-64 Linux, LP64.  [sizeof(void* )] is 8, [size_t] is 64 bits,
      [sizeof(gc_entry)] is 64 and [sizeof(gc_state)] is 88 (gc.h, natural
      alignment), [arch_regs] holds 16 words with [rsp] at index 7.
    - Addresses are integers and [NULL] is 0.  Arithmetic on [void*] is the
      GNU byte-wise one.  Pointer arithmetic is exact (leaving the address
      space is undefined in C); the [size_t] counter wraps modulo 2^64.
    - Registry records live in a store [entries] indexed by their address;
      [prev]/[next]/[head] are addresses into that store, so aliasing and
      in-place updates are the ones of the C code.  Dereferencing an address
      that holds no record makes the operation fail ([None]).
    - The bytes that scans read come from [mem].  [mem] also stands for the
      byte image of the collector's own records when a scanned range covers
      them; it is a snapshot that marking does not rewrite.
    - Reading [mem] never fails, and [gc_mark] lowers the end of its range
      in the integers.  The embedding therefore agrees with the code on the
      runs in which every scanned range ends at or above address 8 (below
      that, [end -= sizeof(void* )] wraps in C) and every word read is
      memory of the process: on a record whose base a failed [realloc] has
      nulled, the code faults where the embedding reads [mem] at 0.  The
      general properties of [gc_mark] and of a cycle carry these conditions
      as premises ([roots_proper], [payloads_allocated]); the properties
      that speak of the content of memory also ask that no record of the
      collector lies in scanned memory ([records_apart]), because marking
      writes into records and [mem] is not rewritten.
    - [live] is the underlying allocator's table of payload blocks
      (base address to size): [malloc] adds a block, [free] removes it.
    - What [malloc]/[realloc] return, the previous content of a block handed
      out by [malloc], the register snapshot taken by the [gc_collect] macro
      and the list returned by [gc_heap_regions] are not decided by the
      program: each call receives them in an [oracle].
    - [log] is a ghost trace: one [EvCollect] per entry into [_gc_collect],
      one [EvRead] per evaluation of [*(void** )(start)] in [gc_mark].
    - Loops and the recursion of [gc_mark] are driven by a [fuel] argument;
      [None] is also the answer when the fuel runs out. *)

From Stdlib Require Import ZArith Lia Bool String Ascii.
From stdpp Require Import base option list gmap sets.

Open Scope Z_scope.

(** ** Constants of gc.h *)

Definition GC_TAG_ENTRY : string := "___GC__ENTRY___".
Definition GC_TAG_STATE : string := "___GC__STATE___".

Definition GC_ALLOC_THRESHOLD : Z := 128.

Definition GC_SCAN_STACK : Z := 1.
Definition GC_SCAN_HEAPS : Z := 2.
Definition GC_SCAN_DATA_SECTION : Z := 4.
Definition GC_SCAN_BSS_SECTION : Z := 8.
Definition GC_SCAN_REGISTERS : Z := 16.
Definition GC_SCAN_ALL_GLOBALS : Z := Z.lor GC_SCAN_DATA_SECTION GC_SCAN_BSS_SECTION.
Definition GC_SCAN_ALL_MEMORY : Z :=
  Z.lor (Z.lor GC_SCAN_STACK GC_SCAN_HEAPS) GC_SCAN_ALL_GLOBALS.
Definition GC_SCAN_EVERYTHING : Z := Z.lor GC_SCAN_ALL_MEMORY GC_SCAN_REGISTERS.
Definition GC_SCAN_ALL_MEMORY_EXCEPT_HEAPS : Z :=
  Z.land GC_SCAN_ALL_MEMORY (Z.lnot GC_SCAN_HEAPS).
Definition GC_SCAN_EVERYTHING_EXCEPT_HEAPS : Z :=
  Z.land GC_SCAN_EVERYTHING (Z.lnot GC_SCAN_HEAPS).

(** ** Target parameters *)

Definition sizeof_ptr : Z := 8.
Definition sizeof_gc_entry : Z := 64.
Definition sizeof_gc_state : Z := 88.
Definition SIZE_MAX_plus_1 : Z := 2 ^ 64.
Definition ARCH_REG_STACK_POINTER : nat := 7.

(** The bytes of a string literal, terminating NUL included: what
    [sizeof(literal)] bytes of it are. *)
Definition literal_bytes (s : string) : list Z :=
  (List.map (fun c => Z.of_nat (nat_of_ascii c)) (list_ascii_of_string s) ++ [0])%list.

(** ** Data model (gc.h) *)

Record gc_entry := mk_gc_entry {
  ptr : Z;            (* pointer to the allocated memory *)
  size : Z;           (* length of the allocation *)
  reachable : bool;   (* used by gc_collect *)
  reach_addr : Z;     (* where it was found; NULL means CPU registers *)
  next : Z;
  prev : Z
}.

Record memory_region := mk_region { start : Z; end_ : Z }.

Record gc_state := mk_gc_state {
  stack_start : Z;
  data : memory_region;
  bss : memory_region;
  head : Z;
  allocations : Z;
  threshold : Z;
  flags : Z
}.

Inductive event :=
  | EvCollect
  | EvRead (range_start range_end addr : Z).

Record machine := mk_machine {
  state : gc_state;
  entries : gmap Z gc_entry;
  mem : Z -> Z;
  live : gmap Z Z;
  log : list event
}.

Record oracle := mk_oracle {
  malloc_payload : Z;       (* result of malloc(sz) in gc_alloc *)
  malloc_entry : Z;         (* result of malloc(sizeof(gc_entry)) *)
  raw_reach_addr : Z;       (* old content of the new record's reach_addr *)
  realloc_result : Z;       (* result of realloc(entry->ptr, sz) *)
  gp_registers : list Z;    (* snapshot written by SAVE_GP_REGISTERS *)
  heap_regions : list memory_region  (* result of gc_heap_regions *)
}.

(** Platform adapters consulted by [gc_init]. *)
Record platform := mk_platform {
  gc_stack_base : Z;
  gc_data_section : memory_region;
  gc_bss_section : memory_region
}.

(** *** Field updates *)

Definition set_ptr (v : Z) (e : gc_entry) : gc_entry :=
  mk_gc_entry v (size e) (reachable e) (reach_addr e) (next e) (prev e).
Definition set_reachable (v : bool) (e : gc_entry) : gc_entry :=
  mk_gc_entry (ptr e) (size e) v (reach_addr e) (next e) (prev e).
Definition set_reach_addr (v : Z) (e : gc_entry) : gc_entry :=
  mk_gc_entry (ptr e) (size e) (reachable e) v (next e) (prev e).
Definition set_next (v : Z) (e : gc_entry) : gc_entry :=
  mk_gc_entry (ptr e) (size e) (reachable e) (reach_addr e) v (prev e).
Definition set_prev (v : Z) (e : gc_entry) : gc_entry :=
  mk_gc_entry (ptr e) (size e) (reachable e) (reach_addr e) (next e) v.

Definition set_head (v : Z) (s : gc_state) : gc_state :=
  mk_gc_state (stack_start s) (data s) (bss s) v (allocations s) (threshold s) (flags s).
Definition set_allocations (v : Z) (s : gc_state) : gc_state :=
  mk_gc_state (stack_start s) (data s) (bss s) (head s) v (threshold s) (flags s).

Definition with_state (s : gc_state) (m : machine) : machine :=
  mk_machine s (entries m) (mem m) (live m) (log m).
Definition with_entries (es : gmap Z gc_entry) (m : machine) : machine :=
  mk_machine (state m) es (mem m) (live m) (log m).
Definition with_mem (f : Z -> Z) (m : machine) : machine :=
  mk_machine (state m) (entries m) f (live m) (log m).
Definition with_live (l : gmap Z Z) (m : machine) : machine :=
  mk_machine (state m) (entries m) (mem m) l (log m).
Definition with_log (l : list event) (m : machine) : machine :=
  mk_machine (state m) (entries m) (mem m) (live m) l.

(** [p->next = v] and [p->prev = v]: fail when [p] holds no record. *)
Definition store_next (p v : Z) (m : machine) : option machine :=
  ent ← entries m !! p;
  Some (with_entries (<[p := set_next v ent]> (entries m)) m).
Definition store_prev (p v : Z) (m : machine) : option machine :=
  ent ← entries m !! p;
  Some (with_entries (<[p := set_prev v ent]> (entries m)) m).

(** ** Memory *)

Definition byte_at (f : Z -> Z) (a : Z) : Z := f a mod 256.

Fixpoint read_le (f : Z -> Z) (a : Z) (n : nat) : Z :=
  match n with
  | O => 0
  | S n' => byte_at f a + 256 * read_le f (a + 1) n'
  end.

(** [*(void** )(a)], little endian. *)
Definition read_word (f : Z -> Z) (a : Z) : Z := read_le f a 8.

(** [memset(p, c, n)]. *)
Definition memset (f : Z -> Z) (p c n : Z) : Z -> Z :=
  fun x => if (p <=? x) && (x <? p + n) then c else f x.

(** [gc_memcmp(a, b, n)] with [b] a literal of [n] bytes: true when the [n]
    bytes at [a] equal those of [b]. *)
Fixpoint gc_memcmp (f : Z -> Z) (a : Z) (b : list Z) : bool :=
  match b with
  | [] => true
  | c :: b' => if byte_at f a =? c then gc_memcmp f (a + 1) b' else false
  end.

(** ** gc_init *)

(** [raw] is the previous content of the block [malloc] handed out
    ([None]: [malloc] failed).  Every field is assigned except
    [allocations]. *)
Definition gc_init (pf : platform) (flags_ : Z) (raw : option gc_state) : option gc_state :=
  match raw with
  | None => None
  | Some r =>
      Some {| stack_start := gc_stack_base pf;
              data := gc_data_section pf;
              bss := gc_bss_section pf;
              head := 0;
              allocations := allocations r;
              threshold := GC_ALLOC_THRESHOLD;
              flags := flags_ mod 256 |}
  end.

(** ** gc_destroy *)

(** The [while] loop of gc_destroy: [tmp = itm->next; free(itm->ptr);
    free(itm); itm = tmp].  Nothing is unlinked on the way. *)
Fixpoint gc_destroy_loop (fuel : nat) (itm : Z) (m : machine) : option machine :=
  match fuel with
  | O => None
  | S fuel' =>
      if itm =? 0 then Some m
      else
        ent ← entries m !! itm;
        let tmp := next ent in
        let m := with_live (delete (ptr ent) (live m)) m in
        let m := with_entries (delete itm (entries m)) m in
        gc_destroy_loop fuel' tmp m
  end.

(** [gc_destroy(state)] with [state] not null (with a null [state] the
    function does nothing).  The final [free(state)] releases the block of
    the collector state, which is no block of [live]: in the result [state]
    is the content that block had when it was freed. *)
Definition gc_destroy (fuel : nat) (m : machine) : option machine :=
  gc_destroy_loop fuel (head (state m)) m.

(** ** gc_sweep and gc_free *)

(** The block shared word for word by [gc_sweep] and [gc_free]: relink the
    neighbours (or the head), then [free(entry->ptr); free(entry)]. *)
Definition unlink_and_release (entry : Z) (ent : gc_entry) (m : machine) : option machine :=
  m1 ← (if prev ent =? 0
        then Some (with_state (set_head (next ent) (state m)) m)
        else store_next (prev ent) (next ent) m);
  m2 ← (if next ent =? 0
        then Some m1
        else store_prev (next ent) (prev ent) m1);
  Some (with_entries (delete entry (entries m2))
          (with_live (delete (ptr ent) (live m2)) m2)).

Fixpoint gc_sweep_loop (fuel : nat) (entry : Z) (m : machine) : option machine :=
  match fuel with
  | O => None
  | S fuel' =>
      if entry =? 0 then Some m
      else
        ent ← entries m !! entry;
        let next_ := next ent in
        if negb (reachable ent)
        then m' ← unlink_and_release entry ent m; gc_sweep_loop fuel' next_ m'
        else gc_sweep_loop fuel' next_ m
  end.

Definition gc_sweep (fuel : nat) (m : machine) : option machine :=
  gc_sweep_loop fuel (head (state m)) m.

Fixpoint gc_free_loop (fuel : nat) (p : Z) (entry : Z) (m : machine) : option machine :=
  match fuel with
  | O => None
  | S fuel' =>
      if entry =? 0 then Some m
      else
        ent ← entries m !! entry;
        let next_ := next ent in
        if ptr ent =? p
        then m' ← unlink_and_release entry ent m; gc_free_loop fuel' p next_ m'
        else gc_free_loop fuel' p next_ m
  end.

Definition gc_free (fuel : nat) (m : machine) (p : Z) : option machine :=
  if p =? 0 then Some m else gc_free_loop fuel p (head (state m)) m.

(** ** gc_mark *)

(** The self-skip of lines 463-468: the cursor after the tag checks. *)
Definition skip_tags (f : Z -> Z) (start_ : Z) : Z :=
  if gc_memcmp f start_ (literal_bytes GC_TAG_STATE) then start_ + (sizeof_gc_state - 1)
  else if gc_memcmp f start_ (literal_bytes GC_TAG_ENTRY) then start_ + (sizeof_gc_entry - 1)
  else start_.

(** Ghost: record the evaluation of [*(void** )(start)] at [a]. *)
Definition log_read (rs re a : Z) (m : machine) : machine :=
  with_log (EvRead rs re a :: log m) m.

(** Lines 471 and 476: [e->reachable = true; e->reach_addr = start]. *)
Definition mark_entry (e : Z) (ent : gc_entry) (start_ : Z) (m : machine) : machine :=
  with_entries (<[e := set_reach_addr start_ (set_reachable true ent)]> (entries m)) m.

(** [gc_mark_range] is the outer [while (start <= end)] (with [end] already
    lowered by one word), [gc_mark_entries] the inner walk over the
    registry.  [rs]/[re] are the bounds the enclosing call of [gc_mark]
    received; they only label the [EvRead] events.  The end of a range is
    lowered without wrap-around and the words come from the total [mem]:
    see the conventions above for the runs on which this is the code. *)
Fixpoint gc_mark_range (fuel : nat) (m : machine) (rs re : Z)
    (start_ end__ : Z) (check_tags : bool) {struct fuel} : option machine :=
  match fuel with
  | O => None
  | S fuel' =>
      if start_ <=? end__ then
        r ← gc_mark_entries fuel' m rs re (head (state m)) start_ check_tags;
        gc_mark_range fuel' r.1 rs re (r.2 + sizeof_ptr) end__ check_tags
      else Some m
  end
with gc_mark_entries (fuel : nat) (m : machine) (rs re : Z)
    (e : Z) (start_ : Z) (check_tags : bool) {struct fuel} : option (machine * Z) :=
  match fuel with
  | O => None
  | S fuel' =>
      if e =? 0 then Some (m, start_)
      else
        ent ← entries m !! e;
        let start1 := if check_tags then skip_tags (mem m) start_ else start_ in
        let w := read_word (mem m) start1 in
        let m0 := log_read rs re start1 m in
        if (ptr ent =? w) && negb (reachable ent) then
          let m1 := mark_entry e ent start1 m0 in
          m2 ← gc_mark_range fuel' m1 (ptr ent) (ptr ent + size ent)
                 (ptr ent) (ptr ent + size ent - sizeof_ptr) true;
          ent2 ← entries m2 !! e;
          gc_mark_entries fuel' m2 rs re (next ent2) start1 check_tags
        else gc_mark_entries fuel' m0 rs re (next ent) start1 check_tags
  end.

Definition gc_mark (fuel : nat) (m : machine) (start_ end__ : Z) (check_tags : bool)
    : option machine :=
  gc_mark_range fuel m start_ end__ start_ (end__ - sizeof_ptr) check_tags.

(** ** _gc_collect *)

(** The [for] loop over the register snapshot (lines 323-332). *)
Fixpoint scan_registers (regs : list Z) (ent : gc_entry) : gc_entry :=
  match regs with
  | [] => ent
  | w :: regs' =>
      scan_registers regs' (if w =? ptr ent then set_reachable true ent else ent)
  end.

(** The body of the first loop of [_gc_collect] (lines 312-333): clear the
    mark and the root-hit, then pre-mark from the registers if enabled. *)
Definition reset_entry (s : gc_state) (regs : list Z) (ent : gc_entry) : gc_entry :=
  let ent1 := set_reach_addr 0 (set_reachable false ent) in
  if Z.land (flags s) GC_SCAN_REGISTERS =? 0 then ent1 else scan_registers regs ent1.

(** The first loop of [_gc_collect] (lines 310-337). *)
Fixpoint gc_collect_reset (fuel : nat) (regs : list Z) (entry : Z) (m : machine)
    : option machine :=
  match fuel with
  | O => None
  | S fuel' =>
      if entry =? 0 then Some m
      else
        ent ← entries m !! entry;
        let ent' := reset_entry (state m) regs ent in
        gc_collect_reset fuel' regs (next ent')
          (with_entries (<[entry := ent']> (entries m)) m)
  end.

Definition gc_current_stack_top (o : oracle) : Z :=
  nth ARCH_REG_STACK_POINTER (gp_registers o) 0.

(** The loop over [heaps[t]] (line 352). *)
Fixpoint gc_mark_heaps (fuel : nat) (heaps : list memory_region) (m : machine)
    : option machine :=
  match heaps with
  | [] => Some m
  | h :: heaps' =>
      m' ← gc_mark fuel m (start h) (end_ h) true;
      gc_mark_heaps fuel heaps' m'
  end.

Definition flag_set (m : machine) (bit : Z) : bool :=
  negb (Z.land (flags (state m)) bit =? 0).

Definition _gc_collect (fuel : nat) (m : machine) (o : oracle) : option machine :=
  let m := with_log (EvCollect :: log m) m in
  m ← gc_collect_reset fuel (gp_registers o) (head (state m)) m;
  let stack_top := gc_current_stack_top o in
  m ← (if flag_set m GC_SCAN_STACK
       then gc_mark fuel m stack_top (stack_start (state m)) false else Some m);
  m ← (if flag_set m GC_SCAN_DATA_SECTION
       then gc_mark fuel m (start (data (state m))) (end_ (data (state m))) false
       else Some m);
  m ← (if flag_set m GC_SCAN_BSS_SECTION
       then gc_mark fuel m (start (bss (state m))) (end_ (bss (state m))) false
       else Some m);
  m ← (if flag_set m GC_SCAN_HEAPS
       then gc_mark_heaps fuel (heap_regions o) m else Some m);
  gc_sweep fuel m.

(** ** gc_alloc and gc_realloc *)

Definition gc_alloc (fuel : nat) (m : machine) (sz : Z) (init : bool) (o : oracle)
    : option (machine * Z) :=
  let p := malloc_payload o in
  if p =? 0 then Some (m, 0)
  else
    let m := with_live (<[p := sz]> (live m)) m in
    let m := if init then with_mem (memset (mem m) p 0 sz) m else m in
    let new_entry := malloc_entry o in
    if new_entry =? 0 then Some (with_live (delete p (live m)) m, 0)
    else
      let ent := {| ptr := p; size := sz; reachable := false;
                    reach_addr := raw_reach_addr o;
                    next := head (state m); prev := 0 |} in
      let m := with_entries (<[new_entry := ent]> (entries m)) m in
      m ← (if head (state m) =? 0 then Some m
           else store_prev (head (state m)) new_entry m);
      let m := with_state (set_head new_entry (state m)) m in
      let m := with_state
                 (set_allocations ((allocations (state m) + 1) mod SIZE_MAX_plus_1)
                    (state m)) m in
      m ← (if (0 <? threshold (state m))
              && (allocations (state m) mod threshold (state m) =? 0)
           then _gc_collect fuel m o else Some m);
      Some (m, p).

(** [realloc(p, sz)] answering [res]: on success the block moves to [res]
    with the first [min(old size, sz)] bytes copied; on failure nothing
    changes. *)
Definition realloc_effect (p sz res : Z) (m : machine) : machine :=
  if res =? 0 then m
  else
    let old := default 0 (live m !! p) in
    let n := Z.min old sz in
    let f := mem m in
    with_mem (fun x => if (res <=? x) && (x <? res + n) then f (p + (x - res)) else f x)
      (with_live (<[res := sz]> (delete p (live m))) m).

Fixpoint gc_realloc_loop (fuel : nat) (p sz res : Z) (entry : Z) (m : machine)
    : option (machine * Z) :=
  match fuel with
  | O => None
  | S fuel' =>
      if entry =? 0 then Some (m, 0)
      else
        ent ← entries m !! entry;
        if ptr ent =? p then
          let m1 := realloc_effect (ptr ent) sz res m in
          let m2 := with_entries (<[entry := set_ptr res ent]> (entries m1)) m1 in
          Some (m2, res)
        else gc_realloc_loop fuel' p sz res (next ent) m
  end.

Definition gc_realloc (fuel : nat) (m : machine) (p sz : Z) (o : oracle)
    : option (machine * Z) :=
  if p =? 0 then gc_alloc fuel m sz false o
  else if sz =? 0 then m' ← gc_free fuel m p; Some (m', 0)
  else gc_realloc_loop fuel p sz (realloc_result o) (head (state m)) m.

(** * Vocabulary of the properties *)

(** ** The registry as a doubly-linked list *)

(** [seg es pv hd l tl]: following [next] from [hd] visits exactly the
    records at the addresses [l], in that order, and arrives at [tl]; every
    [prev] points at the record before ([pv] for the first one). *)
Fixpoint seg (es : gmap Z gc_entry) (pv hd : Z) (l : list Z) (tl : Z) : Prop :=
  match l with
  | [] => hd = tl
  | a :: l' =>
      hd = a /\ a <> 0 /\
      exists ent, es !! a = Some ent /\ prev ent = pv /\ seg es a (next ent) l' tl
  end.

(** The registry of [m] is well formed and consists of the records at [l],
    head first. *)
Definition registry (m : machine) (l : list Z) : Prop :=
  seg (entries m) 0 (head (state m)) l 0.

(** The fields of a record other than its links. *)
Definition payload_of (e : gc_entry) : Z * Z * bool * Z :=
  (ptr e, size e, reachable e, reach_addr e).

Definition payloads (m : machine) : gmap Z (Z * Z * bool * Z) :=
  payload_of <$> entries m.

(** The two removal loops are instances of one loop over a test [d]. *)
Fixpoint remove_loop (d : gc_entry -> bool) (fuel : nat) (entry : Z) (m : machine)
    : option machine :=
  match fuel with
  | O => None
  | S fuel' =>
      if entry =? 0 then Some m
      else
        ent ← entries m !! entry;
        if d ent
        then m' ← unlink_and_release entry ent m; remove_loop d fuel' (next ent) m'
        else remove_loop d fuel' (next ent) m
  end.

Definition keeps (d : gc_entry -> bool) (m : machine) (a : Z) : bool :=
  match entries m !! a with
  | Some ent => negb (d ent)
  | None => false
  end.

Definition is_marked (m : machine) (a : Z) : bool :=
  keeps (fun ent => negb (reachable ent)) m a.

Definition other_base (p : Z) (m : machine) (a : Z) : bool :=
  keeps (fun ent => ptr ent =? p) m a.

(** [entry_le e e']: [e'] is [e] with, at most, its mark set and its
    root-hit recorded; a record that is already marked is left as it is. *)
Definition entry_le (e e' : gc_entry) : Prop :=
  ptr e' = ptr e /\ size e' = size e /\ next e' = next e /\ prev e' = prev e /\
  (reachable e = true -> e' = e).

(** [marks_only m m']: [m'] differs from [m] by marks, root-hits and trace
    only. *)
Definition marks_only (m m' : machine) : Prop :=
  state m' = state m /\ mem m' = mem m /\ live m' = live m /\
  (forall a e, entries m !! a = Some e ->
     exists e', entries m' !! a = Some e' /\ entry_le e e') /\
  (forall a, entries m !! a = None -> entries m' !! a = None).

(** Addresses of the records that are not marked. *)
Definition unmarked (m : machine) : gset Z :=
  dom (filter (fun kv => reachable kv.2 = false) (entries m)).

(** A call of [gc_mark] terminates from [m]: for every range there is an
    amount of fuel from which the answer is the same [m'], reached by
    marking only. *)
Definition mark_total (m : machine) : Prop :=
  forall rs re s e ct, exists f0 m',
    (forall fuel, (f0 <= fuel)%nat -> gc_mark_range fuel m rs re s e ct = Some m') /\
    marks_only m m'.

(** ** Records no scan can reach *)

Section Quiet.

(** [B] is a set of bases, [f] the memory during the cycle. *)
Variables (B : Z -> Prop) (f : Z -> Z).

(** No word on the grid of [s .. e8] (the last position, inclusive) is in
    [B]; with self-skip on, none of these positions shows a self-tag. *)
Definition quiet (ct : bool) (s e8 : Z) : Prop :=
  forall i, 0 <= i -> s + 8 * i <= e8 ->
    (ct = true -> skip_tags f (s + 8 * i) = s + 8 * i) /\
    ~ B (read_word f (s + 8 * i)).

Definition payloads_quiet (m : machine) : Prop :=
  forall x ent, entries m !! x = Some ent -> ~ B (ptr ent) ->
    quiet true (ptr ent) (ptr ent + size ent - 8).

(** The records whose base is in [B] are the same in [m']. *)
Definition spares (m m' : machine) : Prop :=
  forall x ent, entries m !! x = Some ent -> B (ptr ent) -> entries m' !! x = Some ent.

(** No enabled root class shows a base of [B] (nor, for heap regions, a
    self-tag). *)
Definition roots_quiet (m : machine) (o : oracle) : Prop :=
  (flag_set m GC_SCAN_REGISTERS = true -> forall w, w ∈ gp_registers o -> ~ B w) /\
  (flag_set m GC_SCAN_STACK = true ->
     quiet false (gc_current_stack_top o) (stack_start (state m) - 8)) /\
  (flag_set m GC_SCAN_DATA_SECTION = true ->
     quiet false (start (data (state m))) (end_ (data (state m)) - 8)) /\
  (flag_set m GC_SCAN_BSS_SECTION = true ->
     quiet false (start (bss (state m))) (end_ (bss (state m)) - 8)) /\
  (flag_set m GC_SCAN_HEAPS = true ->
     forall h, h ∈ heap_regions o -> quiet true (start h) (end_ h - 8)).

End Quiet.

(** The range [s, e) holds the word [v] at one of its word positions. *)
Definition holds (f : Z -> Z) (v s e : Z) : Prop :=
  exists i, 0 <= i /\ s + 8 * i + 8 <= e /\ read_word f (s + 8 * i) = v.

(** A word position of [s, e) shows one of the two self-tags. *)
Definition tagged (f : Z -> Z) (s e : Z) : Prop :=
  exists i, 0 <= i /\ s + 8 * i + 8 <= e /\ skip_tags f (s + 8 * i) <> s + 8 * i.

(** No enabled root class holds [v]: not the register snapshot, not the
    stack from the current top to the base, not .data, not .bss, not a heap
    region. *)
Definition no_root_holds (m : machine) (o : oracle) (v : Z) : Prop :=
  (flag_set m GC_SCAN_REGISTERS = true -> v ∉ gp_registers o) /\
  (flag_set m GC_SCAN_STACK = true ->
     ~ holds (mem m) v (gc_current_stack_top o) (stack_start (state m))) /\
  (flag_set m GC_SCAN_DATA_SECTION = true ->
     ~ holds (mem m) v (start (data (state m))) (end_ (data (state m)))) /\
  (flag_set m GC_SCAN_BSS_SECTION = true ->
     ~ holds (mem m) v (start (bss (state m))) (end_ (bss (state m)))) /\
  (flag_set m GC_SCAN_HEAPS = true ->
     forall h, h ∈ heap_regions o -> ~ holds (mem m) v (start h) (end_ h)).

(** The property with roots as its only premise: two records whose
    payloads hold each other's base, no enabled root holding either base,
    are both gone after the cycle. *)
Definition reclaimed_when_no_root_holds : Prop :=
  forall m l o eA eB entA entB fuel m',
    registry m l -> eA ∈ l -> eB ∈ l ->
    entries m !! eA = Some entA -> entries m !! eB = Some entB ->
    holds (mem m) (ptr entB) (ptr entA) (ptr entA + size entA) ->
    holds (mem m) (ptr entA) (ptr entB) (ptr entB + size entB) ->
    no_root_holds m o (ptr entA) -> no_root_holds m o (ptr entB) ->
    _gc_collect fuel m o = Some m' ->
    entries m' !! eA = None /\ entries m' !! eB = None.

(** Every record of the machine is unmarked. *)
Definition marks_clear (m : machine) : Prop :=
  forall a ent, entries m !! a = Some ent -> reachable ent = false.

(** ** The memory a cycle may read *)

(** Every record tracks a block of the allocator: its base is not below the
    first word (a null base, which a failed [realloc] leaves, is excluded),
    its size is not negative, and the payload [ptr, ptr + size) lies inside
    the allocated block that starts at [ptr]. *)
Definition payloads_allocated (m : machine) : Prop :=
  forall a ent, entries m !! a = Some ent ->
    sizeof_ptr <= ptr ent /\ 0 <= size ent /\
    exists sz, live m !! ptr ent = Some sz /\ size ent <= sz.

(** No scanned range ends below the first word: lowering its end by one
    word, as [gc_mark] does, stays in the address space. *)
Definition roots_proper (m : machine) (o : oracle) : Prop :=
  (flag_set m GC_SCAN_STACK = true -> sizeof_ptr <= stack_start (state m)) /\
  (flag_set m GC_SCAN_DATA_SECTION = true -> sizeof_ptr <= end_ (data (state m))) /\
  (flag_set m GC_SCAN_BSS_SECTION = true -> sizeof_ptr <= end_ (bss (state m))) /\
  (flag_set m GC_SCAN_HEAPS = true ->
     forall h, h ∈ heap_regions o -> sizeof_ptr <= end_ h).

(** No record of the collector has a byte in [s, e). *)
Definition records_apart_from (m : machine) (s e : Z) : Prop :=
  forall a, is_Some (entries m !! a) -> a + sizeof_gc_entry <= s \/ e <= a.

(** No record of the collector has a byte in a payload. *)
Definition payloads_hold_no_record (m : machine) : Prop :=
  forall x ent, entries m !! x = Some ent ->
    records_apart_from m (ptr ent) (ptr ent + size ent).

(** No record of the collector has a byte in an enabled root range, in a
    scanned heap region or in a payload: the words a cycle reads are not
    the ones it writes. *)
Definition records_apart (m : machine) (o : oracle) : Prop :=
  (flag_set m GC_SCAN_STACK = true ->
     records_apart_from m (gc_current_stack_top o) (stack_start (state m))) /\
  (flag_set m GC_SCAN_DATA_SECTION = true ->
     records_apart_from m (start (data (state m))) (end_ (data (state m)))) /\
  (flag_set m GC_SCAN_BSS_SECTION = true ->
     records_apart_from m (start (bss (state m))) (end_ (bss (state m)))) /\
  (flag_set m GC_SCAN_HEAPS = true ->
     forall h, h ∈ heap_regions o -> records_apart_from m (start h) (end_ h)) /\
  payloads_hold_no_record m.

(** No payload shows a self-tag at one of its word positions. *)
Definition payloads_tag_free (m : machine) : Prop :=
  forall x ent, entries m !! x = Some ent ->
    ~ tagged (mem m) (ptr ent) (ptr ent + size ent).

(** No scanned heap region shows a self-tag at one of its word positions. *)
Definition heaps_tag_free (m : machine) (o : oracle) : Prop :=
  flag_set m GC_SCAN_HEAPS = true ->
  forall h, h ∈ heap_regions o -> ~ tagged (mem m) (start h) (end_ h).

(** [a] is a word position of [ls, le): [ls + 8 * i] with the whole word
    inside the range. *)
Definition on_grid (ls le a : Z) : Prop :=
  exists i, 0 <= i /\ a = ls + 8 * i /\ a + 8 <= le.

(** [ls, le) is a range that a cycle scans as a root: the stack from its
    current top, .data, .bss or a heap region, the corresponding flag being
    set. *)
Definition root_label (m : machine) (o : oracle) (ls le : Z) : Prop :=
  (flag_set m GC_SCAN_STACK = true /\
     ls = gc_current_stack_top o /\ le = stack_start (state m)) \/
  (flag_set m GC_SCAN_DATA_SECTION = true /\
     ls = start (data (state m)) /\ le = end_ (data (state m))) \/
  (flag_set m GC_SCAN_BSS_SECTION = true /\
     ls = start (bss (state m)) /\ le = end_ (bss (state m))) \/
  (flag_set m GC_SCAN_HEAPS = true /\
     exists h, h ∈ heap_regions o /\ ls = start h /\ le = end_ h).

(** ** Vocabulary of the further properties *)

(** Every record of [l] whose base is a word of the grid of the payload
    [p, p + sz) is marked in [m]. *)
Definition payload_followed (l : list Z) (m : machine) (p sz : Z) : Prop :=
  forall i a2 ent2, 0 <= i -> p + 8 * i + 8 <= p + sz -> a2 ∈ l ->
    entries m !! a2 = Some ent2 -> ptr ent2 = read_word (mem m) (p + 8 * i) ->
    reachable ent2 = true.

(** One optional scan of [_gc_collect]: [if (flags & bit) gc_mark(...)]. *)
Definition scan_if (b : bool) (fuel : nat) (m : machine) (s e : Z) (ct : bool)
    : option machine :=
  if b then gc_mark fuel m s e ct else Some m.

(** The machines a cycle goes through from [m]: [m1] after the reset loop,
    [m2], [m3], [m4] after the stack, .data and .bss scans, [m5] after the
    heap scans, [m'] after the sweep; [n] is an amount of fuel from which
    every step gives these answers. *)
Record collect_steps (m : machine) (l : list Z) (o : oracle) (n : nat)
    (m1 m2 m3 m4 m5 m' : machine) : Prop := {
  cs_run : forall fuel, (n <= fuel)%nat -> _gc_collect fuel m o = Some m';
  cs_reset_registry : registry m1 l;
  cs_reset_state : state m1 = state m;
  cs_reset_mem : mem m1 = mem m;
  cs_reset_live : live m1 = live m;
  cs_reset_log : log m1 = EvCollect :: log m;
  cs_reset_in : forall a ent, a ∈ l -> entries m !! a = Some ent ->
      entries m1 !! a = Some (reset_entry (state m) (gp_registers o) ent);
  cs_reset_out : forall a, a ∉ l -> entries m1 !! a = entries m !! a;
  cs_stack : forall fuel, (n <= fuel)%nat ->
      scan_if (flag_set m GC_SCAN_STACK) fuel m1
        (gc_current_stack_top o) (stack_start (state m)) false = Some m2;
  cs_data : forall fuel, (n <= fuel)%nat ->
      scan_if (flag_set m GC_SCAN_DATA_SECTION) fuel m2
        (start (data (state m))) (end_ (data (state m))) false = Some m3;
  cs_bss : forall fuel, (n <= fuel)%nat ->
      scan_if (flag_set m GC_SCAN_BSS_SECTION) fuel m3
        (start (bss (state m))) (end_ (bss (state m))) false = Some m4;
  cs_heaps : forall fuel, (n <= fuel)%nat ->
      (if flag_set m GC_SCAN_HEAPS then gc_mark_heaps fuel (heap_regions o) m4
       else Some m4) = Some m5;
  cs_m12 : marks_only m1 m2;
  cs_m23 : marks_only m2 m3;
  cs_m34 : marks_only m3 m4;
  cs_m45 : marks_only m4 m5;
  cs_sweep_registry : registry m' (filter (fun a => is_marked m5 a = true) l);
  cs_sweep_gone : forall a, a ∈ l -> is_marked m5 a = false -> entries m' !! a = None;
  cs_sweep_kept : forall a, (a ∈ l -> is_marked m5 a = true) ->
      payloads m' !! a = payloads m5 !! a;
  cs_sweep_freed : forall a ent, a ∈ l -> entries m5 !! a = Some ent ->
      reachable ent = false -> live m' !! ptr ent = None;
  cs_sweep_live : forall p,
      (forall a ent, a ∈ l -> entries m5 !! a = Some ent -> reachable ent = false ->
         ptr ent <> p) -> live m' !! p = live m5 !! p;
  cs_sweep_mem : mem m' = mem m5;
  cs_sweep_log : log m' = log m5;
  cs_sweep_state : state m' = set_head (head (state m')) (state m5)
}.

(** The register snapshot holds [v] and registers are scanned. *)
Definition register_holds (m : machine) (o : oracle) (v : Z) : Prop :=
  flag_set m GC_SCAN_REGISTERS = true /\ v ∈ gp_registers o.


(** The test of gc_alloc that starts a cycle, on the state it is
    evaluated in (the counter has been incremented):
    [state->threshold > 0 && state->allocations % state->threshold == 0]. *)
Definition collect_due (s : gc_state) : bool :=
  (0 <? threshold s) && (allocations s mod threshold s =? 0).

(** The collector state once gc_alloc has linked the record at [e]. *)
Definition state_after_alloc (e : Z) (s : gc_state) : gc_state :=
  set_allocations ((allocations s + 1) mod SIZE_MAX_plus_1) (set_head e s).

(** Every record that is unmarked in [m] and marked in [m'] has in
    [reach_addr] an address at which memory holds its base. *)
Definition found_in_memory (m m' : machine) : Prop :=
  forall a ent ent', entries m !! a = Some ent -> reachable ent = false ->
    entries m' !! a = Some ent' -> reachable ent' = true ->
    read_word (mem m) (reach_addr ent') = ptr ent'.

(** [ls, le) is the payload range of a record of [m]. *)
Definition payload_label (m : machine) (ls le : Z) : Prop :=
  exists x ent, entries m !! x = Some ent /\ ls = ptr ent /\ le = ptr ent + size ent.

(** The trace of [m'] is that of [m] with reads in front, each of which
    satisfies [P] (on the bounds of the call that made it and its
    address). *)
Definition reads_added (P : Z -> Z -> Z -> Prop) (m m' : machine) : Prop :=
  exists new, log m' = new ++ log m /\
    forall ev, ev ∈ new -> exists ls le a, ev = EvRead ls le a /\ P ls le a.

(** Every record that is unmarked in [m] and marked in [m'] has a
    [reach_addr] that satisfies [Q]. *)
Definition marked_at (Q : Z -> Prop) (m m' : machine) : Prop :=
  forall a ent ent', entries m !! a = Some ent -> reachable ent = false ->
    entries m' !! a = Some ent' -> reachable ent' = true -> Q (reach_addr ent').

(** [m] has the memory of [m0], and the payload range of each of its
    records is one of [m0]. *)
Definition payloads_of (m0 m : machine) : Prop :=
  mem m = mem m0 /\
  forall x ent, entries m !! x = Some ent ->
    payload_label m0 (ptr ent) (ptr ent + size ent).

(** A read or a mark made at [a] with the bounds [ls], [le]: [a] is a word
    position of the range, and the range is a payload of [m0] or the range
    [rs, re) itself. *)
Definition in_scan (m0 : machine) (rs re ls le a : Z) : Prop :=
  on_grid ls le a /\ (payload_label m0 ls le \/ (ls = rs /\ le = re)).

(** The same for a whole cycle: the range is a payload or a root range. *)
Definition in_cycle (m : machine) (o : oracle) (ls le a : Z) : Prop :=
  on_grid ls le a /\ (payload_label m ls le \/ root_label m o ls le).

(** * Fixtures for concrete runs *)

(** [poke_bytes a l f] is [f] with the bytes [l] written at [a];
    [poke_word a v f] writes the word [v] at [a], little endian. *)
Definition poke_bytes (a : Z) (l : list Z) (f : Z -> Z) : Z -> Z :=
  fun x =>
    if (a <=? x) && (x <? a + Z.of_nat (length l))
    then nth (Z.to_nat (x - a)) l 0 else f x.

Fixpoint le_bytes (n : nat) (v : Z) : list Z :=
  match n with
  | O => []
  | S n' => (v mod 256) :: le_bytes n' (v / 256)
  end.

Definition poke_word (a v : Z) (f : Z -> Z) : Z -> Z := poke_bytes a (le_bytes 8 v) f.

Definition zero_mem : Z -> Z := fun _ => 0.

Definition linux : platform :=
  mk_platform 1032 (mk_region 3000 3016) (mk_region 3016 3032).

(** A register snapshot holding [sp] in [rsp] and [ax] in [rax]. *)
Definition regs (ax sp : Z) : list Z := ax :: repeat 0 6 ++ sp :: repeat 0 8.

Definition snapshot : oracle := mk_oracle 0 0 0 0 (regs 0 1000) [].

(** Three records, head first: at 5128 (base 8320), 5064 (base 8256) and
    5000 (base 8192).  Collection is configured for stack and globals. *)
Definition three : machine :=
  mk_machine
    (mk_gc_state 1032 (mk_region 3000 3016) (mk_region 3016 3032)
       5128 3 0 GC_SCAN_ALL_MEMORY_EXCEPT_HEAPS)
    (<[5128 := mk_gc_entry 8320 8 false 0 5064 0]>
       (<[5064 := mk_gc_entry 8256 8 false 0 5000 5128]>
          (<[5000 := mk_gc_entry 8192 8 false 0 0 5064]> ∅)))
    zero_mem
    (<[8320 := 8]> (<[8256 := 8]> (<[8192 := 8]> ∅)))
    [].

(** [three] with its first and last records marked. *)
Definition marked_ends : machine :=
  with_entries
    (<[5128 := mk_gc_entry 8320 8 true 1008 5064 0]>
       (<[5000 := mk_gc_entry 8192 8 true 1016 0 5064]> (entries three)))
    three.

(** An oracle whose payload [malloc] answers 8192 and whose record
    [malloc] fails. *)
Definition record_fails : oracle := mk_oracle 8192 0 0 0 (repeat 0 16) [].

Definition realloc_fails : oracle := mk_oracle 0 0 0 0 (repeat 0 16) [].

(** The machine right after [gc_init]; [raw_allocations] is what the block
    returned by [malloc] held where the [allocations] field lies. *)
Definition fresh (raw_allocations : Z) (flags_ : Z) : option machine :=
  s ← gc_init linux flags_
        (Some (mk_gc_state 0 (mk_region 0 0) (mk_region 0 0) 0 raw_allocations 0 0));
  Some (mk_machine s ∅ zero_mem ∅ []).

Definition is_collect (ev : event) : bool :=
  match ev with EvCollect => true | _ => false end.

(** Number of collection cycles started so far. *)
Definition cycles (m : machine) : nat := length (List.filter is_collect (log m)).

Definition reads (m : machine) : list Z :=
  omap (fun ev => match ev with EvRead _ _ a => Some a | _ => None end) (rev (log m)).

Definition survivors (m : machine) : list (Z * bool) :=
  (fun kv => (ptr kv.2, reachable kv.2)) <$> map_to_list (entries m).

(** [gc_alloc(state, sizeof(int), true)] then
    [gc_realloc(state, ptr, sizeof(long int))], as in gc_test.c; [realloc]
    moves the block to 8224. *)
Definition realloc_run : option (Z * option gc_entry * option Z) :=
  m0 ← fresh 0 GC_SCAN_ALL_MEMORY_EXCEPT_HEAPS;
  r1 ← gc_alloc 8 m0 4 true (mk_oracle 8192 5000 0 0 (regs 0 1000) []);
  r2 ← gc_realloc 8 r1.1 r1.2 8 (mk_oracle 0 0 0 8224 (regs 0 1000) []);
  Some (r2.2, entries r2.1 !! 5000, live r2.1 !! 8224).

(** The first [gc_alloc] after [gc_init]; reports the number of cycles
    started and the counter. *)
Definition first_alloc (raw_allocations : Z) : option (nat * Z) :=
  m0 ← fresh raw_allocations GC_SCAN_ALL_MEMORY_EXCEPT_HEAPS;
  r ← gc_alloc 16 m0 4 true (mk_oracle 8192 5000 0 0 (regs 0 1000) []);
  Some (cycles r.1, allocations (state r.1)).

(** A heap range whose first 64 bytes are the image of a registry record
    (its tag first) and whose next word, at 6064, holds the tracked base
    8192. *)
Definition heap_image : Z -> Z :=
  poke_word 6064 8192 (poke_bytes 6000 (literal_bytes GC_TAG_ENTRY) zero_mem).

Definition one_record : machine :=
  mk_machine
    (mk_gc_state 1032 (mk_region 3000 3016) (mk_region 3016 3032) 5000 1 0 GC_SCAN_HEAPS)
    (<[5000 := mk_gc_entry 8192 8 false 0 0 0]> ∅)
    heap_image (<[8192 := 8]> ∅) [].

(** Two records: [5000] tracks the block at 8192, whose payload holds the
    base 8256 of the block tracked by [5064].  Stack and globals hold
    neither base. *)
Definition chain_of_two : machine :=
  mk_machine
    (mk_gc_state 1032 (mk_region 3000 3016) (mk_region 3016 3032)
       5064 2 0 GC_SCAN_EVERYTHING_EXCEPT_HEAPS)
    (<[5064 := mk_gc_entry 8256 8 false 0 5000 0]>
       (<[5000 := mk_gc_entry 8192 8 false 0 0 5064]> ∅))
    (poke_word 8192 8256 zero_mem)
    (<[8256 := 8]> (<[8192 := 8]> ∅))
    [].

(** One record, for the block at 8192, whose base sits in the stack slot
    1008. *)
Definition rooted : machine :=
  mk_machine
    (mk_gc_state 1032 (mk_region 3000 3016) (mk_region 3016 3032)
       5000 1 0 GC_SCAN_ALL_MEMORY_EXCEPT_HEAPS)
    (<[5000 := mk_gc_entry 8192 8 false 0 0 0]> ∅)
    (poke_word 1008 8192 zero_mem) (<[8192 := 8]> ∅) [].

(** The blocks 8192 and 8256 hold each other's base. *)
Definition pair_mem : Z -> Z := poke_word 8192 8256 (poke_word 8256 8192 zero_mem).

(** Three records (as in [three]); registers, stack and globals are
    scanned.  The stack slot 1008 holds the base 8320 of the third block.
    In [reached] that block holds the base 8192; in [unreferenced] it holds
    nothing. *)
Definition unreferenced : machine :=
  mk_machine
    (mk_gc_state 1032 (mk_region 3000 3016) (mk_region 3016 3032)
       5128 3 0 GC_SCAN_EVERYTHING_EXCEPT_HEAPS)
    (entries three) (poke_word 1008 8320 pair_mem) (live three) [].

Definition reached : machine :=
  with_mem (poke_word 8320 8192 (mem unreferenced)) unreferenced.


(** An oracle whose two [malloc]s answer the fresh addresses 8400 and 5200. *)
Definition both_succeed : oracle := mk_oracle 8400 5200 0 0 (regs 0 1000) [].

(** An oracle whose [realloc] answers the fresh address 8400. *)
Definition realloc_moves : oracle := mk_oracle 0 0 0 8400 (repeat 0 16) [].

(** * Properties *)

(** ** Segments of the registry *)

Section Registry.

Implicit Types (es : gmap Z gc_entry) (l : list Z) (m : machine).

Lemma gc_sweep_loop_remove fuel entry m :
  gc_sweep_loop fuel entry m = remove_loop (fun ent => negb (reachable ent)) fuel entry m.
Proof.
  revert entry m. induction fuel as [|fuel IH]; intros entry m; [done|].
  simpl. destruct (entry =? 0); [done|].
  destruct (entries m !! entry) as [ent|]; [simpl|done].
  destruct (negb (reachable ent)); [|apply IH].
  destruct (unlink_and_release entry ent m); simpl; [apply IH|done].
Qed.

Lemma gc_free_loop_remove fuel p entry m :
  gc_free_loop fuel p entry m = remove_loop (fun ent => ptr ent =? p) fuel entry m.
Proof.
  revert entry m. induction fuel as [|fuel IH]; intros entry m; [done|].
  simpl. destruct (entry =? 0); [done|].
  destruct (entries m !! entry) as [ent|]; [simpl|done].
  destruct (ptr ent =? p); [|apply IH].
  destruct (unlink_and_release entry ent m); simpl; [apply IH|done].
Qed.

Lemma seg_app es pv hd l1 l2 tl :
  seg es pv hd (l1 ++ l2) tl <->
  exists mid, seg es pv hd l1 mid /\ seg es (default pv (last l1)) mid l2 tl.
Proof.
  revert pv hd. induction l1 as [|a l1 IH]; intros pv hd; simpl.
  - split; [intros H; exists hd; done|]. by intros (mid & -> & H).
  - assert (Hl : default pv (last (a :: l1)) = default a (last l1)).
    { rewrite last_cons. by destruct (last l1). }
    rewrite Hl. split.
    + intros (-> & Ha & ent & He & Hp & Hs).
      apply IH in Hs as (mid & Hs1 & Hs2). exists mid. split; [|done].
      split; [done|]. split; [done|]. exists ent. done.
    + intros (mid & (-> & Ha & ent & He & Hp & Hs1) & Hs2).
      split; [done|]. split; [done|]. exists ent. split; [done|]. split; [done|].
      apply IH. by exists mid.
Qed.

Lemma seg_det es pv pv' hd l l' :
  seg es pv hd l 0 -> seg es pv' hd l' 0 -> l = l'.
Proof.
  revert pv pv' hd l'. induction l as [|a l IH]; intros pv pv' hd [|a' l']; simpl.
  - done.
  - intros -> (<- & Hne & _). done.
  - intros (-> & Hne & _) E. by subst.
  - intros (-> & _ & ent & He & _ & Hs) (<- & _ & ent' & He' & _ & Hs').
    rewrite He in He'. injection He' as <-. f_equal. eapply IH; eauto.
Qed.

Lemma seg_NoDup es pv hd l : seg es pv hd l 0 -> NoDup l.
Proof.
  revert pv hd. induction l as [|a l IH]; intros pv hd; simpl.
  - intros _. constructor.
  - intros (-> & Hne & ent & He & Hp & Hs). constructor; [|by eapply IH].
    intros Hin. apply list_elem_of_split in Hin as (l1 & l2 & ->).
    pose proof Hs as Hs'. apply seg_app in Hs' as (mid & _ & Hs2).
    simpl in Hs2. destruct Hs2 as (-> & _ & ent' & He' & _ & Hs2).
    rewrite He in He'. injection He' as <-.
    pose proof (seg_det _ _ _ _ _ _ Hs Hs2) as Heq.
    apply (f_equal length) in Heq. rewrite length_app in Heq. simpl in Heq. lia.
Qed.

Lemma seg_not_null es pv hd l tl : seg es pv hd l tl -> 0 ∉ l.
Proof.
  revert pv hd. induction l as [|a l IH]; intros pv hd; simpl.
  - intros _. apply not_elem_of_nil.
  - intros (-> & Hne & ent & He & Hp & Hs). apply not_elem_of_cons.
    split; [done|]. by eapply IH.
Qed.

Lemma seg_lookup es pv hd l tl a :
  seg es pv hd l tl -> a ∈ l -> is_Some (es !! a).
Proof.
  revert pv hd. induction l as [|b l IH]; intros pv hd; simpl.
  - intros _ H. by apply elem_of_nil in H.
  - intros (-> & Hne & ent & He & Hp & Hs) [->|Hin]%elem_of_cons; [by eexists|].
    by eapply IH.
Qed.

(** A segment only depends on the links of its own records. *)
Lemma seg_ext es es' pv hd l tl :
  (forall a ent, a ∈ l -> es !! a = Some ent ->
     exists ent', es' !! a = Some ent' /\ next ent' = next ent /\ prev ent' = prev ent) ->
  seg es pv hd l tl -> seg es' pv hd l tl.
Proof.
  revert pv hd. induction l as [|b l IH]; intros pv hd Hag; simpl; [done|].
  intros (-> & Hne & ent & He & Hp & Hs).
  destruct (Hag b ent) as (ent' & He' & Hn' & Hp'); [apply elem_of_cons; by left|done|].
  split; [done|]. split; [done|]. exists ent'. split; [done|]. split; [congruence|].
  rewrite Hn'. apply IH; [|done].
  intros a e0 Hin. apply Hag. apply elem_of_cons. by right.
Qed.

End Registry.

(** ** Unlinking one record *)

Section Unlink.

Implicit Types (es : gmap Z gc_entry) (l : list Z) (m : machine).

Lemma payload_of_set_next v e : payload_of (set_next v e) = payload_of e.
Proof. done. Qed.

Lemma payload_of_set_prev v e : payload_of (set_prev v e) = payload_of e.
Proof. done. Qed.

Lemma set_head_id s : set_head (head s) s = s.
Proof. by destruct s. Qed.

Lemma payloads_insert_same es a ent ent' :
  es !! a = Some ent -> payload_of ent' = payload_of ent ->
  payload_of <$> <[a := ent']> es = payload_of <$> es.
Proof.
  intros He Hp. rewrite fmap_insert. apply insert_id.
  rewrite lookup_fmap, He. simpl. by rewrite Hp.
Qed.

Local Ltac distinct := let H := fresh in intros H; subst; set_solver.

(** Unlinking the record at [e] from a well-formed registry. *)
Lemma unlink_and_release_spec m K e R ent :
  registry m (K ++ e :: R) -> entries m !! e = Some ent ->
  exists m',
    unlink_and_release e ent m = Some m' /\
    registry m' (K ++ R) /\
    next ent = hd 0 R /\
    payloads m' = delete e (payloads m) /\
    live m' = delete (ptr ent) (live m) /\
    mem m' = mem m /\ log m' = log m /\
    state m' = set_head (head (state m')) (state m).
Proof.
  intros Hreg He. pose proof (seg_NoDup _ _ _ _ Hreg) as Hnd.
  unfold registry in Hreg. apply seg_app in Hreg as (mid & HK & HR).
  simpl in HR. destruct HR as (-> & Hne & ent0 & He0 & Hpv & HR).
  rewrite He in He0. injection He0 as <-.
  apply NoDup_app in Hnd as (HndK & HKR & HndR).
  apply NoDup_cons in HndR as (HeR & HndR).
  assert (HeK : e ∉ K) by (intros Hin; apply (HKR e Hin); set_solver).
  assert (Hnx : next ent = hd 0 R).
  { destruct R as [|r R]; simpl in HR; [done|]. by destruct HR as (-> & _). }
  unfold unlink_and_release, registry, payloads.
  destruct K as [|k K _] using rev_ind.
  - (* no predecessor: the head moves *)
    simpl in Hpv. rewrite Hpv. simpl in HK. simpl.
    destruct R as [|r R].
    + simpl in HR. rewrite HR. simpl. eexists. split; [done|]. simpl.
      split; [done|]. split; [done|]. rewrite fmap_delete. done.
    + simpl in HR. destruct HR as (Hr & Hrne & entr & Her & Hpr & HR).
      rewrite Hr. apply Z.eqb_neq in Hrne as Hrne'. rewrite Hrne'.
      unfold store_prev. simpl. rewrite Her. simpl.
      eexists. split; [done|]. simpl.
      apply NoDup_cons in HndR as (HrR & HndR).
      assert (Hre : r <> e) by distinct.
      split.
      { split; [done|]. split; [done|]. exists (set_prev 0 entr).
        rewrite lookup_delete_ne by done. rewrite lookup_insert_eq.
        split; [done|]. split; [done|]. simpl.
        eapply seg_ext; [|exact HR]. intros a ea Hin Hea.
        exists ea. split; [|done].
        rewrite lookup_delete_ne, lookup_insert_ne by distinct. done. }
      split; [done|].
      rewrite fmap_delete. erewrite payloads_insert_same; [done|exact Her|done].
  - (* a predecessor [k] *)
    rewrite last_snoc in Hpv. simpl in Hpv.
    apply seg_app in HK as (midk & HK & Hk). simpl in Hk.
    destruct Hk as (Hmid & Hkne & entk & Hek & Hpk & Hnk). subst midk.
    rewrite Hpv. apply Z.eqb_neq in Hkne as Hkne'. rewrite Hkne'.
    unfold store_next. rewrite Hek. simpl.
    apply NoDup_app in HndK as (HndK & HKk & _).
    assert (Hke : k <> e) by distinct.
    assert (HkK : k ∉ K) by (intros Hin; apply (HKk _ Hin); set_solver).
    destruct R as [|r R].
    + simpl in HR. rewrite HR. simpl. eexists. split; [done|]. simpl.
      rewrite app_nil_r.
      split.
      { apply seg_app. exists k. split.
        - eapply seg_ext; [|exact HK]. intros a ea Hin Hea. exists ea. split; [|done].
          rewrite lookup_delete_ne, lookup_insert_ne by distinct. done.
        - simpl. split; [done|]. split; [done|]. exists (set_next 0 entk).
          rewrite lookup_delete_ne by done. rewrite lookup_insert_eq. done. }
      split; [done|].
      rewrite fmap_delete, set_head_id.
      erewrite payloads_insert_same; [done|exact Hek|done].
    + simpl in HR. destruct HR as (Hr & Hrne & entr & Her & Hpr & HR).
      rewrite Hr. apply Z.eqb_neq in Hrne as Hrne'. rewrite Hrne'.
      apply NoDup_cons in HndR as (HrR & HndR).
      assert (Hre : r <> e) by distinct.
      assert (Hrk : r <> k).
      { intros ->. apply (HKR k); set_solver. }
      assert (HrK : r ∉ K).
      { intros Hin. apply (HKR r); set_solver. }
      unfold store_prev. simpl. rewrite lookup_insert_ne by done. rewrite Her. simpl.
      eexists. split; [done|]. simpl.
      split.
      { apply seg_app. exists r. split.
        - apply seg_app. exists k. split.
          + eapply seg_ext; [|exact HK]. intros a ea Hin Hea. exists ea. split; [|done].
            rewrite lookup_delete_ne, !lookup_insert_ne by distinct. done.
          + simpl. split; [done|]. split; [done|]. exists (set_next r entk).
            rewrite lookup_delete_ne by done. rewrite lookup_insert_ne by done.
            rewrite lookup_insert_eq. done.
        - rewrite last_snoc. simpl. split; [done|]. split; [done|].
          exists (set_prev k entr).
          rewrite lookup_delete_ne by done. rewrite lookup_insert_eq.
          split; [done|]. split; [done|]. simpl.
          eapply seg_ext; [|exact HR]. intros a ea Hin Hea. exists ea. split; [|done].
          assert (k <> a).
          { intros ->. apply (HKR a); set_solver. }
          rewrite lookup_delete_ne, !lookup_insert_ne by distinct. done. }
      split; [done|].
      rewrite fmap_delete, set_head_id.
      erewrite payloads_insert_same; [| by rewrite lookup_insert_ne|done].
      erewrite payloads_insert_same; [done|exact Hek|done].
Qed.

End Unlink.

(** ** The removal loop of gc_sweep and gc_free *)

Section RemoveLoop.

Variable d : gc_entry -> bool.
Hypothesis d_payload : forall e e', payload_of e = payload_of e' -> d e = d e'.

Lemma payloads_lookup_None m a : payloads m !! a = None <-> entries m !! a = None.
Proof. unfold payloads. rewrite lookup_fmap. by destruct (entries m !! a). Qed.

Lemma keeps_payloads m m' a :
  payloads m' !! a = payloads m !! a -> keeps d m' a = keeps d m a.
Proof.
  unfold payloads, keeps. rewrite !lookup_fmap.
  destruct (entries m' !! a) as [e'|], (entries m !! a) as [e|]; simpl; try done.
  intros H. f_equal. apply d_payload. congruence.
Qed.

Lemma filter_ext_in (P Q : Z -> Prop) `{!forall x, Decision (P x), !forall x, Decision (Q x)}
    (l : list Z) :
  (forall x, x ∈ l -> P x <-> Q x) -> filter P l = filter Q l.
Proof.
  induction l as [|a l IH]; intros HPQ; [done|].
  assert (Hl : filter P l = filter Q l).
  { apply IH. intros x Hx. apply HPQ. apply elem_of_cons. by right. }
  assert (Ha : P a <-> Q a) by (apply HPQ; apply elem_of_cons; by left).
  rewrite !filter_cons, Hl. destruct (decide (P a)), (decide (Q a)); tauto.
Qed.

Lemma remove_loop_spec R : forall K m fuel,
  registry m (K ++ R) -> (length R < fuel)%nat ->
  exists m',
    remove_loop d fuel (hd 0 R) m = Some m' /\
    registry m' (K ++ filter (fun a => keeps d m a = true) R) /\
    (forall a, a ∈ R -> keeps d m a = false -> entries m' !! a = None) /\
    (forall a, (a ∈ R -> keeps d m a = true) -> payloads m' !! a = payloads m !! a) /\
    (forall a ent, a ∈ R -> entries m !! a = Some ent -> d ent = true ->
       live m' !! ptr ent = None) /\
    (forall p, (forall a ent, a ∈ R -> entries m !! a = Some ent -> d ent = true ->
                  ptr ent <> p) -> live m' !! p = live m !! p) /\
    (forall p, live m !! p = None -> live m' !! p = None) /\
    mem m' = mem m /\ log m' = log m /\
    state m' = set_head (head (state m')) (state m).
Proof.
  induction R as [|e R IH]; intros K m fuel Hreg Hfuel.
  - destruct fuel as [|fuel]; [simpl in Hfuel; lia|]. simpl.
    exists m. rewrite set_head_id. repeat split; try done.
    all: intros; exfalso; eapply not_elem_of_nil; eauto.
  - destruct fuel as [|fuel]; [simpl in Hfuel; lia|]. simpl in Hfuel.
    pose proof (seg_NoDup _ _ _ _ Hreg) as Hnd.
    apply NoDup_app in Hnd as (_ & _ & [HeR _]%NoDup_cons).
    pose proof Hreg as Hreg'. unfold registry in Hreg'.
    apply seg_app in Hreg' as (mid & _ & HR). simpl in HR.
    destruct HR as (-> & Hne & ent & He & Hpv & HR).
    simpl. apply Z.eqb_neq in Hne as Hne'. rewrite Hne', He. simpl.
    destruct (d ent) eqn:Hd.
    + (* the record goes *)
      destruct (unlink_and_release_spec m K e R ent Hreg He)
        as (m1 & -> & Hreg1 & Hnx & Hpay1 & Hlive1 & Hmem1 & Hlog1 & Hst1).
      simpl. rewrite Hnx.
      destruct (IH K m1 fuel Hreg1 ltac:(lia))
        as (m' & -> & Hreg2 & Hgone & Hkept & Hfreed & Hlive & Hdead & Hmem & Hlog & Hst).
      assert (Hp1 : forall a, a <> e -> payloads m1 !! a = payloads m !! a).
      { intros a Ha. rewrite Hpay1. by rewrite lookup_delete_ne. }
      assert (He1 : forall a x, a <> e -> entries m !! a = Some x ->
                exists x', entries m1 !! a = Some x' /\ payload_of x' = payload_of x).
      { intros a x Ha Hx. specialize (Hp1 a Ha). unfold payloads in Hp1.
        rewrite !lookup_fmap, Hx in Hp1. destruct (entries m1 !! a) as [x'|]; [|done].
        exists x'. split; [done|]. simpl in Hp1. congruence. }
      assert (Hk1 : forall a, a <> e -> keeps d m1 a = keeps d m a).
      { intros a Ha. apply keeps_payloads. by apply Hp1. }
      assert (Hke : keeps d m e = false).
      { unfold keeps. by rewrite He, Hd. }
      assert (HneR : forall a, a ∈ R -> a <> e) by (intros a Ha ->; done).
      exists m'. split; [done|]. split.
      { rewrite filter_cons_False by (rewrite Hke; done).
        erewrite filter_ext_in; [exact Hreg2|].
        intros x Hx. simpl. rewrite Hk1; [done|]. by apply HneR. }
      split.
      { intros a [->|Ha]%elem_of_cons Hk.
        - apply payloads_lookup_None. rewrite Hkept by done.
          rewrite Hpay1. apply lookup_delete_eq.
        - apply Hgone; [done|]. rewrite Hk1; [done|]. by apply HneR. }
      split.
      { intros a Ha. assert (a <> e).
        { intros ->. rewrite Hke in Ha. specialize (Ha ltac:(set_solver)). done. }
        rewrite Hkept, Hp1; [done|done|].
        intros HaR. rewrite Hk1 by done. apply Ha. set_solver. }
      split.
      { intros a x [->|Ha]%elem_of_cons Hx Hdx.
        - rewrite He in Hx. injection Hx as <-. apply Hdead.
          rewrite Hlive1. apply lookup_delete_eq.
        - destruct (He1 a x (HneR a Ha) Hx) as (x' & Hx' & Hpx).
          assert (ptr x = ptr x') as -> by (unfold payload_of in Hpx; congruence).
          eapply Hfreed; [done|done|]. rewrite (d_payload x' x); done. }
      split.
      { intros p Hp. rewrite Hlive.
        - rewrite Hlive1. apply lookup_delete_ne. eapply Hp; [|done|done]. set_solver.
        - intros a x' Ha Hx' Hdx'.
          pose proof (Hp1 a (HneR a Ha)) as Hpa. unfold payloads in Hpa.
          rewrite !lookup_fmap, Hx' in Hpa.
          destruct (entries m !! a) as [x|] eqn:Hx; [|done]. simpl in Hpa.
          assert (ptr x' = ptr x) as -> by (unfold payload_of in Hpa; congruence).
          eapply Hp; [|done|]; [set_solver|].
          rewrite (d_payload x x'); [done|congruence]. }
      split.
      { intros p Hp. apply Hdead. rewrite Hlive1.
        destruct (decide (ptr ent = p)) as [->|];
          [apply lookup_delete_eq|by rewrite lookup_delete_ne]. }
      split; [congruence|]. split; [congruence|].
      rewrite Hst. rewrite Hst1. done.
    + (* the record stays *)
      assert (Hnx : next ent = hd 0 R).
      { destruct R as [|r R]; simpl in HR; [done|]. by destruct HR as (-> & _). }
      rewrite Hnx.
      assert (Hreg1 : registry m ((K ++ [e]) ++ R)) by (by rewrite <- app_assoc).
      destruct (IH (K ++ [e]) m fuel Hreg1 ltac:(lia))
        as (m' & -> & Hreg2 & Hgone & Hkept & Hfreed & Hlive & Hdead & Hmem & Hlog & Hst).
      assert (Hke : keeps d m e = true).
      { unfold keeps. by rewrite He, Hd. }
      exists m'. split; [done|]. split.
      { rewrite filter_cons_True by done. by rewrite <- app_assoc in Hreg2. }
      split.
      { intros a [->|Ha]%elem_of_cons Hk; [congruence|]. by apply Hgone. }
      split.
      { intros a Ha. apply Hkept. intros HaR. apply Ha. set_solver. }
      split.
      { intros a x [->|Ha]%elem_of_cons Hx Hdx; [congruence|]. by eapply Hfreed. }
      split.
      { intros p Hp. apply Hlive. intros a x Ha. apply Hp. set_solver. }
      done.
Qed.

(** With nothing to remove the loop hands the machine back untouched. *)
Lemma remove_loop_none R : forall K m fuel,
  registry m (K ++ R) -> (length R < fuel)%nat ->
  (forall a, a ∈ R -> keeps d m a = true) ->
  remove_loop d fuel (hd 0 R) m = Some m.
Proof.
  induction R as [|e R IH]; intros K m fuel Hreg Hfuel Hall.
  - destruct fuel as [|fuel]; [simpl in Hfuel; lia|]. done.
  - destruct fuel as [|fuel]; [simpl in Hfuel; lia|]. simpl in Hfuel.
    pose proof Hreg as Hreg'. unfold registry in Hreg'.
    apply seg_app in Hreg' as (mid & _ & HR). simpl in HR.
    destruct HR as (-> & Hne & ent & He & Hpv & HR).
    simpl. apply Z.eqb_neq in Hne as Hne'. rewrite Hne', He. simpl.
    assert (Hke : keeps d m e = true) by (apply Hall; set_solver).
    unfold keeps in Hke. rewrite He in Hke. apply negb_true_iff in Hke. rewrite Hke.
    assert (Hnx : next ent = hd 0 R).
    { destruct R as [|r R]; simpl in HR; [done|]. by destruct HR as (-> & _). }
    rewrite Hnx. apply (IH (K ++ [e])); [by rewrite <- app_assoc|lia|].
    intros a Ha. apply Hall. set_solver.
Qed.

End RemoveLoop.

(** ** The fixtures are well formed *)

Lemma three_registry : registry three [5128; 5064; 5000].
Proof.
  unfold registry. simpl.
  repeat (split; [done|]; split; [done|]; eexists; split; [reflexivity|]; split; [done|]; simpl).
  done.
Qed.

(** The records of [three], which [unreferenced], [reached] and [three_due]
    share, and the premises on memory that these fixtures meet. *)
Lemma three_records x ent :
  entries three !! x = Some ent ->
  (x = 5128 /\ ent = mk_gc_entry 8320 8 false 0 5064 0) \/
  (x = 5064 /\ ent = mk_gc_entry 8256 8 false 0 5000 5128) \/
  (x = 5000 /\ ent = mk_gc_entry 8192 8 false 0 0 5064).
Proof.
  intros Hx.
  change (entries three) with
    (<[5128 := mk_gc_entry 8320 8 false 0 5064 0]>
       (<[5064 := mk_gc_entry 8256 8 false 0 5000 5128]>
          (<[5000 := mk_gc_entry 8192 8 false 0 0 5064]> (∅ : gmap Z gc_entry)))) in Hx.
  destruct (decide (x = 5128)) as [->|N1].
  { rewrite lookup_insert_eq in Hx. injection Hx as <-. by left. }
  rewrite lookup_insert_ne in Hx by done.
  destruct (decide (x = 5064)) as [->|N2].
  { rewrite lookup_insert_eq in Hx. injection Hx as <-. right. by left. }
  rewrite lookup_insert_ne in Hx by done.
  destruct (decide (x = 5000)) as [->|N3].
  { rewrite lookup_insert_eq in Hx. injection Hx as <-. right. by right. }
  rewrite lookup_insert_ne in Hx by done. done.
Qed.

Lemma three_payloads_allocated (m : machine) :
  entries m = entries three -> live m = live three -> payloads_allocated m.
Proof.
  intros He Hl a ent Ha. rewrite He in Ha. rewrite Hl.
  destruct (three_records a ent Ha) as [(-> & ->) | [(-> & ->) | (-> & ->)]]; simpl;
    (split; [unfold sizeof_ptr; lia|]); (split; [lia|]); exists 8; (split; [reflexivity|lia]).
Qed.

Lemma three_records_apart_from (m : machine) (s e : Z) :
  entries m = entries three -> e <= 5000 \/ 5192 <= s -> records_apart_from m s e.
Proof.
  intros He Hse a [ent Ha]. rewrite He in Ha. unfold sizeof_gc_entry.
  destruct (three_records a ent Ha) as [(-> & ->) | [(-> & ->) | (-> & ->)]]; lia.
Qed.

Lemma three_payloads_hold_no_record (m : machine) :
  entries m = entries three -> payloads_hold_no_record m.
Proof.
  intros He x ent Hx. apply three_records_apart_from; [done|]. rewrite He in Hx.
  destruct (three_records x ent Hx) as [(-> & ->) | [(-> & ->) | (-> & ->)]]; simpl; lia.
Qed.

(** Every fixture has the ranges of [linux] and is collected with an
    oracle that reports no heap region. *)
Lemma linux_roots_proper (m : machine) (o : oracle) :
  stack_start (state m) = 1032 -> end_ (data (state m)) = 3016 ->
  end_ (bss (state m)) = 3032 -> heap_regions o = [] -> roots_proper m o.
Proof.
  intros H1 H2 H3 H4. unfold roots_proper, sizeof_ptr. rewrite H1, H2, H3, H4.
  split; [intros _; lia|]. split; [intros _; lia|]. split; [intros _; lia|].
  intros _ h Hh. by apply elem_of_nil in Hh.
Qed.

Lemma rooted_registry : registry rooted [5000].
Proof.
  unfold registry. simpl. split; [done|]. split; [done|]. eexists. split; [reflexivity|]. done.
Qed.

Lemma rooted_records x ent :
  entries rooted !! x = Some ent -> x = 5000 /\ ent = mk_gc_entry 8192 8 false 0 0 0.
Proof.
  intros Hx.
  change (entries rooted) with
    (<[5000 := mk_gc_entry 8192 8 false 0 0 0]> (∅ : gmap Z gc_entry)) in Hx.
  destruct (decide (x = 5000)) as [->|N].
  - rewrite lookup_insert_eq in Hx. by injection Hx as <-.
  - rewrite lookup_insert_ne in Hx by done. done.
Qed.

Lemma rooted_payloads_allocated : payloads_allocated rooted.
Proof.
  intros a ent Ha. destruct (rooted_records a ent Ha) as (-> & ->). simpl.
  split; [unfold sizeof_ptr; lia|]. split; [lia|]. exists 8. split; [reflexivity|lia].
Qed.

(** ** gc_free *)

Module Free.

(** C10. [gc_free] on a well-formed registry, with a non-null [p]: the
    traversal visits every record, unlinks and frees each one whose base
    is [p] (it does not stop at the first), and what is left is again a
    well-formed doubly-linked list made of the other records in their old
    order, with their content other than the links unchanged; blocks other
    than [p] stay allocated.  When no record has base [p] the machine is
    unchanged. *)
Theorem gc_free_unlinks_every_match (m : machine) (l : list Z) (p : Z) (fuel : nat) :
  p <> 0 -> registry m l -> (length l < fuel)%nat ->
  exists m',
    gc_free fuel m p = Some m' /\
    registry m' (filter (fun a => other_base p m a = true) l) /\
    (forall a ent, a ∈ l -> entries m !! a = Some ent -> ptr ent = p ->
       entries m' !! a = None /\ live m' !! p = None) /\
    (forall a ent, a ∈ l -> entries m !! a = Some ent -> ptr ent <> p ->
       exists ent', entries m' !! a = Some ent' /\ payload_of ent' = payload_of ent) /\
    (forall q, q <> p -> live m' !! q = live m !! q) /\
    ((forall a ent, a ∈ l -> entries m !! a = Some ent -> ptr ent <> p) -> m' = m).
Proof.
  intros Hp Hreg Hfuel. unfold gc_free. apply Z.eqb_neq in Hp as Hp'. rewrite Hp'.
  rewrite gc_free_loop_remove.
  assert (Hd : forall e e', payload_of e = payload_of e' ->
            (ptr e =? p) = (ptr e' =? p)).
  { intros e e' H. unfold payload_of in H. by injection H as -> _ _ _. }
  assert (Hhd : head (state m) = hd 0 l).
  { destruct l; simpl in Hreg; [done|]. by destruct Hreg as (-> & _). }
  rewrite Hhd.
  destruct (remove_loop_spec _ Hd l [] m fuel Hreg Hfuel)
    as (m' & Hrun & Hreg' & Hgone & Hkept & Hfreed & Hlive & _ & _).
  exists m'. split; [done|]. split; [done|]. split.
  { intros a ent Ha He Hpa. split.
    - apply Hgone; [done|]. unfold keeps. rewrite He.
      apply negb_false_iff. by apply Z.eqb_eq.
    - rewrite <- Hpa. eapply Hfreed; [done|done|]. by apply Z.eqb_eq. }
  split.
  { intros a ent Ha He Hpa.
    assert (Hk : payloads m' !! a = payloads m !! a).
    { apply Hkept. intros _. unfold keeps. rewrite He.
      apply negb_true_iff. by apply Z.eqb_neq. }
    unfold payloads in Hk. rewrite !lookup_fmap, He in Hk.
    destruct (entries m' !! a) as [ent'|]; [|done].
    exists ent'. split; [done|]. simpl in Hk. congruence. }
  split.
  { intros q Hq. apply Hlive. intros a ent Ha He Hpa%Z.eqb_eq. congruence. }
  intros Hnone.
  rewrite (remove_loop_none _ Hd l [] m fuel Hreg Hfuel) in Hrun; [congruence|].
  intros a Ha. destruct (seg_lookup _ _ _ _ _ a Hreg Ha) as [ent He].
  unfold keeps. rewrite He. apply negb_true_iff. apply Z.eqb_neq. by eapply Hnone.
Qed.

Lemma gc_free_unlinks_every_match_witness :
  exists m',
    gc_free 4 three 8256 = Some m' /\
    registry m' (filter (fun a => other_base 8256 three a = true) [5128; 5064; 5000]) /\
    (forall a ent, a ∈ [5128; 5064; 5000] -> entries three !! a = Some ent ->
       ptr ent = 8256 -> entries m' !! a = None /\ live m' !! 8256 = None) /\
    (forall a ent, a ∈ [5128; 5064; 5000] -> entries three !! a = Some ent ->
       ptr ent <> 8256 ->
       exists ent', entries m' !! a = Some ent' /\ payload_of ent' = payload_of ent) /\
    (forall q, q <> 8256 -> live m' !! q = live three !! q) /\
    ((forall a ent, a ∈ [5128; 5064; 5000] -> entries three !! a = Some ent ->
        ptr ent <> 8256) -> m' = three).
Proof.
  apply (gc_free_unlinks_every_match three [5128; 5064; 5000] 8256 4).
  - lia.
  - exact three_registry.
  - simpl. lia.
Defined.

End Free.

(** ** gc_alloc: the failure paths *)

Module Alloc.

(** C7. When either [malloc] of [gc_alloc] fails, [gc_alloc] returns null
    and leaves the collector state (allocation counter included), the
    registry and the trace as they were.  If it was the payload [malloc]
    that failed, the machine is untouched; if the payload was obtained and
    the record [malloc] failed, the payload has been handed back to the
    allocator and memory differs at most inside that released block. *)
Theorem gc_alloc_failure_leaves_no_trace
    (fuel : nat) (m : machine) (sz : Z) (init : bool) (o : oracle) :
  malloc_payload o = 0 \/ malloc_entry o = 0 ->
  exists m',
    gc_alloc fuel m sz init o = Some (m', 0) /\
    state m' = state m /\ entries m' = entries m /\ log m' = log m /\
    (malloc_payload o = 0 -> m' = m) /\
    (malloc_payload o <> 0 ->
       live m' = delete (malloc_payload o) (live m) /\
       forall x, ~ (malloc_payload o <= x < malloc_payload o + sz) -> mem m' x = mem m x).
Proof.
  intros Hfail. unfold gc_alloc.
  destruct (malloc_payload o =? 0) eqn:Hp.
  - apply Z.eqb_eq in Hp. exists m. repeat split; try done.
  - apply Z.eqb_neq in Hp. destruct Hfail as [?|He]; [done|]. rewrite He. simpl.
    eexists. split; [done|].
    destruct init; simpl; (repeat split; try done).
    + by rewrite delete_insert_eq.
    + intros x Hx. unfold memset.
      destruct ((malloc_payload o <=? x) && (x <? malloc_payload o + sz)) eqn:E; [|done].
      apply andb_true_iff in E as [?%Z.leb_le ?%Z.ltb_lt]. lia.
    + by rewrite delete_insert_eq.
Qed.

Lemma gc_alloc_failure_leaves_no_trace_witness :
  exists m',
    gc_alloc 8 three 16 true record_fails = Some (m', 0) /\
    state m' = state three /\ entries m' = entries three /\
    log m' = log three /\
    (malloc_payload record_fails = 0 -> m' = three) /\
    (malloc_payload record_fails <> 0 ->
       live m' = delete (malloc_payload record_fails) (live three) /\
       forall x, ~ (malloc_payload record_fails <= x < malloc_payload record_fails + 16) ->
                 mem m' x = mem three x).
Proof.
  apply (gc_alloc_failure_leaves_no_trace 8 three 16 true record_fails).
  right. reflexivity.
Defined.

End Alloc.

(** ** gc_realloc *)

Module Realloc.

(** The search loop of [gc_realloc] stops at the first record whose base is
    [p]; it overwrites that record's [ptr] with what [realloc] answered and
    touches no other field of it. *)
Lemma gc_realloc_loop_first_match (p sz res : Z) (e : Z) (ent : gc_entry) (R : list Z) :
  forall (K K0 : list Z) (m : machine) (fuel : nat),
  registry m (K0 ++ K ++ e :: R) ->
  (forall a x, a ∈ K -> entries m !! a = Some x -> ptr x <> p) ->
  entries m !! e = Some ent -> ptr ent = p ->
  (length K < fuel)%nat ->
  gc_realloc_loop fuel p sz res (hd 0 (K ++ e :: R)) m =
    Some (with_entries (<[e := set_ptr res ent]> (entries m))
            (realloc_effect p sz res m), res).
Proof.
  induction K as [|k K IH]; intros K0 m fuel Hreg Hnone He Hp Hfuel.
  - destruct fuel as [|fuel]; [simpl in Hfuel; lia|]. simpl.
    assert (e <> 0).
    { intros ->. apply (seg_not_null _ _ _ _ _ Hreg). set_solver. }
    assert (E : (e =? 0) = false) by (by apply Z.eqb_neq). rewrite E, He. simpl.
    assert (E' : (ptr ent =? p) = true) by (by apply Z.eqb_eq). rewrite E'.
    rewrite Hp. unfold realloc_effect. by destruct (res =? 0).
  - destruct fuel as [|fuel]; [simpl in Hfuel; lia|]. simpl in Hfuel.
    pose proof Hreg as Hreg'. unfold registry in Hreg'.
    apply seg_app in Hreg' as (mid & _ & HR). simpl in HR.
    destruct HR as (-> & Hne & x & Hx & Hpv & HR).
    simpl. apply Z.eqb_neq in Hne as Hne'. rewrite Hne', Hx. simpl.
    assert (E : (ptr x =? p) = false).
    { apply Z.eqb_neq. eapply Hnone; [|done]. set_solver. }
    rewrite E.
    assert (Hnx : next x = hd 0 (K ++ e :: R)).
    { destruct K as [|k' K]; simpl in HR; by destruct HR as (-> & _). }
    rewrite Hnx. apply (IH (K0 ++ [k])); try done.
    + by rewrite <- app_assoc.
    + intros a y Ha. apply Hnone. set_solver.
    + lia.
Qed.

(** C9. A failing [realloc] (null result) on a tracked address with a
    positive new size: [gc_realloc] writes the null result into the record's
    [ptr] and returns null.  The record stays in the registry, which keeps
    its shape, with base null and its old size; so the registry is not what
    it was before the call.  The allocator's table of blocks is unchanged
    (the old block is still allocated). *)
Theorem gc_realloc_failure_nulls_the_base
    (fuel : nat) (m : machine) (p k : Z) (o : oracle)
    (K R : list Z) (e : Z) (ent : gc_entry) :
  registry m (K ++ e :: R) ->
  (forall a x, a ∈ K -> entries m !! a = Some x -> ptr x <> p) ->
  entries m !! e = Some ent -> ptr ent = p ->
  p <> 0 -> 0 < k -> realloc_result o = 0 ->
  (length K < fuel)%nat ->
  exists m',
    gc_realloc fuel m p k o = Some (m', 0) /\
    registry m' (K ++ e :: R) /\
    entries m' !! e = Some (set_ptr 0 ent) /\
    ptr (set_ptr 0 ent) = 0 /\ size (set_ptr 0 ent) = size ent /\
    entries m' <> entries m /\
    (forall a, a <> e -> entries m' !! a = entries m !! a) /\
    state m' = state m /\ live m' = live m.
Proof.
  intros Hreg Hnone He Hp Hp0 Hk Hres Hfuel. unfold gc_realloc.
  apply Z.eqb_neq in Hp0 as Hp0'. rewrite Hp0'.
  assert (Hk' : (k =? 0) = false) by (apply Z.eqb_neq; lia). rewrite Hk'.
  assert (Hhd : head (state m) = hd 0 (K ++ e :: R)).
  { unfold registry in Hreg. destruct (K ++ e :: R); simpl in Hreg; [done|].
    by destruct Hreg as (-> & _). }
  rewrite Hhd, Hres.
  rewrite (gc_realloc_loop_first_match p k 0 e ent R K [] m fuel); try done.
  eexists. split; [done|]. simpl. unfold realloc_effect. simpl.
  split.
  { unfold registry. simpl. eapply seg_ext; [|exact Hreg].
    intros a x Ha Hx. destruct (decide (a = e)) as [->|Hae].
    - rewrite lookup_insert_eq. rewrite He in Hx. injection Hx as <-. by eexists.
    - rewrite lookup_insert_ne by done. by exists x. }
  split; [by rewrite lookup_insert_eq|].
  split; [done|]. split; [done|]. split.
  { intros Heq. apply (f_equal (fun es => es !! e)) in Heq.
    rewrite lookup_insert_eq, He in Heq. injection Heq as Heq.
    apply (f_equal ptr) in Heq. simpl in Heq. congruence. }
  split; [|done]. intros a Ha. by rewrite lookup_insert_ne.
Qed.

Lemma gc_realloc_failure_nulls_the_base_witness :
  exists m',
    gc_realloc 4 three 8256 64 realloc_fails = Some (m', 0) /\
    registry m' ([5128] ++ 5064 :: [5000]) /\
    entries m' !! 5064 = Some (set_ptr 0 (mk_gc_entry 8256 8 false 0 5000 5128)) /\
    ptr (set_ptr 0 (mk_gc_entry 8256 8 false 0 5000 5128)) = 0 /\
    size (set_ptr 0 (mk_gc_entry 8256 8 false 0 5000 5128)) = 8 /\
    entries m' <> entries three /\
    (forall a, a <> 5064 -> entries m' !! a = entries three !! a) /\
    state m' = state three /\ live m' = live three.
Proof.
  apply (gc_realloc_failure_nulls_the_base 4 three 8256 64 realloc_fails
           [5128] [5000] 5064 (mk_gc_entry 8256 8 false 0 5000 5128)).
  - exact three_registry.
  - intros a x Ha Hx. apply list_elem_of_singleton in Ha. subst a.
    vm_compute in Hx. injection Hx as <-. simpl. lia.
  - reflexivity.
  - reflexivity.
  - lia.
  - lia.
  - reflexivity.
  - simpl. lia.
Defined.

End Realloc.

(** ** Concrete runs *)

Module Runs.

(** *** gc_realloc and the [size] field *)

(** C2. The run above returns the new address 8224 and the record's [ptr]
    follows it, but the record's [size] is still 4, the size given to
    [gc_alloc], while the block is 8 bytes long: [gc_realloc] never assigns
    [entry->size]. *)
Theorem gc_realloc_leaves_size_stale :
  realloc_run = Some (8224, Some (mk_gc_entry 8224 4 false 0 0 0), Some 8).
Proof. vm_compute. reflexivity. Qed.

(** *** The allocation counter after gc_init *)

(** C3. [gc_init] leaves [allocations] as [malloc] delivered it.  When the
    block held 127 there, the very first successful [gc_alloc] brings the
    counter to 128 and starts a cycle, 127 allocations early; only when the
    block held 0 does the first allocation start none. *)
Theorem first_allocation_can_start_a_cycle :
  first_alloc 127 = Some (1%nat, 128) /\ first_alloc 0 = Some (0%nat, 1).
Proof. split; vm_compute; reflexivity. Qed.

(** *** Self-skip *)

(** C4. Scanning the heap range [6000, 6128) with self-skip: on the tag at
    6000 the cursor moves to 6063, that is by [sizeof(gc_entry) - 1] = 63
    bytes and not by the record size less one word (56).  The first word is
    read at 6063, straddling the end of the record, and every later read is
    off the word grid by 7; the word at 6064 is never read, so the record of
    base 8192 stays unmarked.  Without self-skip the same range is read on
    the grid and the base is found. *)
Theorem self_skip_advances_by_size_less_one_byte :
  (r ← gc_mark_entries 10 one_record 6000 6128 5000 6000 true; Some r.2) = Some 6063 /\
  (m ← gc_mark 40 one_record 6000 6128 true; Some (reads m, is_marked m 5000)) =
    Some ([6063; 6071; 6079; 6087; 6095; 6103; 6111; 6119], false) /\
  6063 mod sizeof_ptr = 7 /\
  (m ← gc_mark 40 one_record 6000 6128 false; Some (is_marked m 5000)) = Some true.
Proof. repeat split; vm_compute; reflexivity. Qed.

(** C8. Scanning with self-skip a heap range that ends with a registry
    record, here [6000, 6064): after the tag at 6000 the only word read is
    at 6063.  That is neither of the form [6000 + 8 i] nor at most
    [6064 - 8]; seven of the eight bytes read lie beyond the end of the
    range.  The cursor is not compared with [end] between the skip and the
    read. *)
Theorem self_skip_reads_past_the_range :
  (m ← gc_mark 40 one_record 6000 6064 true; Some (log m)) =
    Some [EvRead 6000 6064 6063] /\
  6064 - sizeof_ptr < 6063 /\ 6064 < 6063 + sizeof_ptr /\
  (6063 - 6000) mod sizeof_ptr <> 0.
Proof. repeat split; vm_compute; congruence. Qed.

(** *** Register pre-mark *)

(** C1. With the base 8192 held in a register only ([rax]), the cycle
    pre-marks its record but never scans its payload: the block 8256, which
    that payload references, is swept and released.  With the same base
    held in a stack slot instead, [gc_mark] scans the payload and both
    blocks survive. *)
Theorem register_held_payload_is_not_scanned :
  read_word (mem chain_of_two) 8192 = 8256 /\
  (m ← _gc_collect 40 chain_of_two (mk_oracle 0 0 0 0 (regs 8192 1000) []);
   Some (survivors m, live m !! 8256, reads m)) =
    Some ([(8192, true)], None,
          [1000; 1000; 1008; 1008; 1016; 1016; 1024; 1024;
           3000; 3000; 3008; 3008; 3016; 3016; 3024; 3024]) /\
  (m ← _gc_collect 40 (with_mem (poke_word 1008 8192 (mem chain_of_two)) chain_of_two)
         (mk_oracle 0 0 0 0 (regs 0 1000) []);
   Some (survivors m, live m !! 8256)) =
    Some ([(8256, true); (8192, true)], Some 8).
Proof. repeat split; vm_compute; reflexivity. Qed.

End Runs.

(** ** The reset loop of _gc_collect and gc_sweep *)

Section Reset.

Lemma scan_registers_spec regs ent :
  scan_registers regs ent =
    if existsb (fun w => w =? ptr ent) regs then set_reachable true ent else ent.
Proof.
  revert ent. induction regs as [|w regs IH]; intros ent; simpl; [done|].
  rewrite IH. destruct (w =? ptr ent); simpl; [|done].
  by destruct (existsb _ regs).
Qed.

Lemma reset_entry_fields s regs ent :
  ptr (reset_entry s regs ent) = ptr ent /\
  size (reset_entry s regs ent) = size ent /\
  next (reset_entry s regs ent) = next ent /\
  prev (reset_entry s regs ent) = prev ent.
Proof.
  unfold reset_entry. rewrite scan_registers_spec.
  destruct (Z.land (flags s) GC_SCAN_REGISTERS =? 0); [done|].
  simpl. by destruct (existsb _ regs).
Qed.

Lemma reset_entry_reachable s regs ent :
  reachable (reset_entry s regs ent) =
    negb (Z.land (flags s) GC_SCAN_REGISTERS =? 0)
    && existsb (fun w => w =? ptr ent) regs.
Proof.
  unfold reset_entry. rewrite scan_registers_spec.
  destruct (Z.land (flags s) GC_SCAN_REGISTERS =? 0); [done|].
  simpl. by destruct (existsb _ regs).
Qed.

Lemma gc_collect_reset_spec regs R : forall K m fuel,
  registry m (K ++ R) -> (length R < fuel)%nat ->
  exists m',
    gc_collect_reset fuel regs (hd 0 R) m = Some m' /\
    registry m' (K ++ R) /\
    state m' = state m /\ mem m' = mem m /\ live m' = live m /\ log m' = log m /\
    (forall a ent, a ∈ R -> entries m !! a = Some ent ->
       entries m' !! a = Some (reset_entry (state m) regs ent)) /\
    (forall a, a ∉ R -> entries m' !! a = entries m !! a).
Proof.
  induction R as [|e R IH]; intros K m fuel Hreg Hfuel.
  - destruct fuel as [|fuel]; [simpl in Hfuel; lia|]. simpl.
    exists m. repeat split; try done.
    intros a ent Ha. by apply elem_of_nil in Ha.
  - destruct fuel as [|fuel]; [simpl in Hfuel; lia|]. simpl in Hfuel.
    pose proof (seg_NoDup _ _ _ _ Hreg) as Hnd.
    apply NoDup_app in Hnd as (_ & _ & [HeR _]%NoDup_cons).
    pose proof Hreg as Hreg'. unfold registry in Hreg'.
    apply seg_app in Hreg' as (mid & _ & HR). simpl in HR.
    destruct HR as (-> & Hne & ent & He & Hpv & HR).
    simpl. apply Z.eqb_neq in Hne as Hne'. rewrite Hne', He. simpl.
    destruct (reset_entry_fields (state m) regs ent) as (Hptr & Hsz & Hnx & Hpr).
    assert (Hnext : next ent = hd 0 R).
    { destruct R as [|r R]; simpl in HR; [done|]. by destruct HR as (-> & _). }
    rewrite Hnx, Hnext.
    set (m1 := with_entries (<[e := reset_entry (state m) regs ent]> (entries m)) m).
    assert (Hreg1 : registry m1 ((K ++ [e]) ++ R)).
    { rewrite <- app_assoc. unfold registry. simpl. eapply seg_ext; [|exact Hreg].
      intros a x Ha Hx. destruct (decide (a = e)) as [->|Hae].
      - rewrite lookup_insert_eq. rewrite He in Hx. injection Hx as <-. by eexists.
      - rewrite lookup_insert_ne by done. by exists x. }
    destruct (IH (K ++ [e]) m1 fuel Hreg1 ltac:(lia))
      as (m' & -> & Hreg2 & Hst & Hmem & Hlive & Hlog & Hin & Hout).
    exists m'. split; [done|]. split; [by rewrite <- app_assoc in Hreg2|].
    repeat split; try done.
    + intros a x [->|Ha]%elem_of_cons Hx.
      * rewrite Hout by done. simpl. rewrite lookup_insert_eq.
        rewrite He in Hx. by injection Hx as <-.
      * apply Hin; [done|]. simpl. rewrite lookup_insert_ne; [done|].
        intros ->. done.
    + intros a Ha. rewrite Hout by set_solver. simpl.
      rewrite lookup_insert_ne; [done|]. intros ->. set_solver.
Qed.

End Reset.

Module Sweep.

(** C5 as stated fails: after a complete cycle the surviving record is
    still marked, so marks are not all false once [_gc_collect] has
    returned. *)
Lemma marks_outlive_the_cycle :
  ~ (forall m', _gc_collect 40 rooted (mk_oracle 0 0 0 0 (regs 0 1000) []) = Some m' ->
       marks_clear m').
Proof.
  intros H.
  assert (Hrun :
    (m' ← _gc_collect 40 rooted (mk_oracle 0 0 0 0 (regs 0 1000) []);
     Some (entries m' !! 5000)) = Some (Some (mk_gc_entry 8192 8 true 1008 0 0))).
  { vm_compute. reflexivity. }
  destruct (_gc_collect 40 rooted _) as [m'|]; [|done].
  simpl in Hrun. injection Hrun as He.
  specialize (H m' eq_refl 5000 _ He). done.
Qed.

(** C5 (amended). [gc_sweep] on a well-formed registry removes exactly the
    unmarked records and does not touch the mark of those it keeps: every
    record left in the registry is still marked when the cycle is over.
    The marks are cleared by the first loop of the next [_gc_collect],
    before any range is scanned: it leaves the registry's shape alone and
    gives every record the flag "base found in the register snapshot, and
    the registers flag is set", hence false for all when that flag is off. *)
Theorem gc_sweep_keeps_marks_until_next_reset (m : machine) (l : list Z) (fuel : nat) :
  registry m l -> (length l < fuel)%nat ->
  exists m',
    gc_sweep fuel m = Some m' /\
    registry m' (filter (fun a => is_marked m a = true) l) /\
    (forall a, a ∈ l -> is_marked m a = false -> entries m' !! a = None) /\
    (forall a, a ∈ l -> is_marked m a = true ->
       exists ent', entries m' !! a = Some ent' /\ reachable ent' = true) /\
    (forall regs_, exists m'',
       gc_collect_reset fuel regs_ (head (state m')) m' = Some m'' /\
       registry m'' (filter (fun a => is_marked m a = true) l) /\
       forall a ent', entries m' !! a = Some ent' -> is_marked m a = true -> a ∈ l ->
         exists ent'', entries m'' !! a = Some ent'' /\
           reachable ent'' =
             negb (Z.land (flags (state m')) GC_SCAN_REGISTERS =? 0)
             && existsb (fun w => w =? ptr ent') regs_).
Proof.
  intros Hreg Hfuel. unfold gc_sweep. rewrite gc_sweep_loop_remove.
  assert (Hd : forall e e', payload_of e = payload_of e' ->
            negb (reachable e) = negb (reachable e')).
  { intros e e' H. unfold payload_of in H. by injection H as _ _ -> _. }
  assert (Hhd : head (state m) = hd 0 l).
  { destruct l; simpl in Hreg; [done|]. by destruct Hreg as (-> & _). }
  rewrite Hhd.
  destruct (remove_loop_spec _ Hd l [] m fuel Hreg Hfuel)
    as (m' & Hrun & Hreg' & Hgone & Hkept & _).
  simpl in Hreg'.
  change (registry m' (filter (fun a => is_marked m a = true) l)) in Hreg'.
  exists m'. split; [done|]. split; [done|]. split; [exact Hgone|]. split.
  { intros a Ha Hm.
    assert (Hk : payloads m' !! a = payloads m !! a) by (by apply Hkept).
    unfold is_marked, keeps in Hm. unfold payloads in Hk. rewrite !lookup_fmap in Hk.
    destruct (entries m !! a) as [ent|]; [|done].
    destruct (entries m' !! a) as [ent'|]; [|done].
    exists ent'. split; [done|]. simpl in Hk. unfold payload_of in Hk.
    rewrite negb_involutive in Hm. congruence. }
  intros regs_.
  assert (Hlen : (length (filter (fun a => is_marked m a = true) l) < fuel)%nat).
  { pose proof (length_filter (fun a => is_marked m a = true) l). lia. }
  assert (Hsub : forall a, a ∈ l -> is_marked m a = true ->
            a ∈ filter (fun a => is_marked m a = true) l).
  { intros a Ha Hm. apply list_elem_of_filter. done. }
  set (l' := filter (fun a => is_marked m a = true) l) in *.
  clearbody l'.
  assert (Hhd' : head (state m') = hd 0 l').
  { unfold registry in Hreg'. destruct l'; simpl in Hreg'; [done|].
    by destruct Hreg' as (-> & _). }
  destruct (gc_collect_reset_spec regs_ l' [] m' fuel Hreg' Hlen)
    as (m'' & Hrun2 & Hreg2 & _ & _ & _ & _ & Hin & _).
  exists m''. rewrite Hhd'. split; [done|]. split; [done|].
  intros a ent' He' Hm Ha. exists (reset_entry (state m') regs_ ent').
  split.
  - apply Hin; [|done]. by apply Hsub.
  - apply reset_entry_reachable.
Qed.

Lemma marked_ends_registry : registry marked_ends [5128; 5064; 5000].
Proof.
  unfold registry. simpl.
  repeat (split; [done|]; split; [done|]; eexists; split; [reflexivity|]; split; [done|]; simpl).
  done.
Qed.

Lemma gc_sweep_keeps_marks_until_next_reset_witness :
  exists m',
    gc_sweep 4 marked_ends = Some m' /\
    registry m' (filter (fun a => is_marked marked_ends a = true) [5128; 5064; 5000]) /\
    (forall a, a ∈ [5128; 5064; 5000] -> is_marked marked_ends a = false ->
       entries m' !! a = None) /\
    (forall a, a ∈ [5128; 5064; 5000] -> is_marked marked_ends a = true ->
       exists ent', entries m' !! a = Some ent' /\ reachable ent' = true) /\
    (forall regs_, exists m'',
       gc_collect_reset 4 regs_ (head (state m')) m' = Some m'' /\
       registry m'' (filter (fun a => is_marked marked_ends a = true) [5128; 5064; 5000]) /\
       forall a ent', entries m' !! a = Some ent' -> is_marked marked_ends a = true ->
         a ∈ [5128; 5064; 5000] ->
         exists ent'', entries m'' !! a = Some ent'' /\
           reachable ent'' =
             negb (Z.land (flags (state m')) GC_SCAN_REGISTERS =? 0)
             && existsb (fun w => w =? ptr ent') regs_).
Proof.
  apply (gc_sweep_keeps_marks_until_next_reset marked_ends [5128; 5064; 5000] 4).
  - exact marked_ends_registry.
  - simpl. lia.
Defined.

End Sweep.

(** ** gc_mark: termination and what it may change *)

Section MarkTermination.

Lemma gc_mark_range_S fuel m rs re s e ct :
  gc_mark_range (S fuel) m rs re s e ct =
    if s <=? e then
      r ← gc_mark_entries fuel m rs re (head (state m)) s ct;
      gc_mark_range fuel r.1 rs re (r.2 + sizeof_ptr) e ct
    else Some m.
Proof. reflexivity. Qed.

Lemma gc_mark_entries_null fuel m rs re s ct :
  gc_mark_entries (S fuel) m rs re 0 s ct = Some (m, s).
Proof. reflexivity. Qed.

Lemma gc_mark_entries_S fuel m rs re a s (ct : bool) ent s1 :
  a <> 0 -> entries m !! a = Some ent ->
  s1 = (if ct then skip_tags (mem m) s else s) ->
  gc_mark_entries (S fuel) m rs re a s ct =
    if (ptr ent =? read_word (mem m) s1) && negb (reachable ent) then
      m2 ← gc_mark_range fuel (mark_entry a ent s1 (log_read rs re s1 m))
             (ptr ent) (ptr ent + size ent)
             (ptr ent) (ptr ent + size ent - sizeof_ptr) true;
      ent2 ← entries m2 !! a;
      gc_mark_entries fuel m2 rs re (next ent2) s1 ct
    else gc_mark_entries fuel (log_read rs re s1 m) rs re (next ent) s1 ct.
Proof.
  intros Ha He ->. apply Z.eqb_neq in Ha. simpl. rewrite Ha, He. reflexivity.
Qed.

Lemma elem_of_unmarked m a :
  a ∈ unmarked m <-> exists e, entries m !! a = Some e /\ reachable e = false.
Proof.
  unfold unmarked. rewrite elem_of_dom. split.
  - intros [e He]. apply map_lookup_filter_Some in He as [He Hr]. by exists e.
  - intros (e & He & Hr). exists e. by apply map_lookup_filter_Some.
Qed.

Lemma entry_le_refl e : entry_le e e.
Proof. by repeat split. Qed.

Lemma entry_le_trans e1 e2 e3 : entry_le e1 e2 -> entry_le e2 e3 -> entry_le e1 e3.
Proof.
  intros (? & ? & ? & ? & H12) (? & ? & ? & ? & H23).
  repeat split; try congruence.
  intros Hr. specialize (H12 Hr). subst e2. by apply H23.
Qed.

Lemma marks_only_refl m : marks_only m m.
Proof.
  repeat split; try done. intros a e He. exists e. split; [done|apply entry_le_refl].
Qed.

Lemma marks_only_trans m1 m2 m3 :
  marks_only m1 m2 -> marks_only m2 m3 -> marks_only m1 m3.
Proof.
  intros (? & ? & ? & H12 & N12) (? & ? & ? & H23 & N23).
  repeat split; try congruence.
  - intros a e He. destruct (H12 a e He) as (e2 & He2 & Hle2).
    destruct (H23 a e2 He2) as (e3 & He3 & Hle3).
    exists e3. split; [done|]. by eapply entry_le_trans.
  - intros a Ha. by apply N23, N12.
Qed.

Lemma marks_only_log_read m rs re a : marks_only m (log_read rs re a m).
Proof.
  repeat split; try done. intros x e He. exists e. split; [done|apply entry_le_refl].
Qed.

Lemma marks_only_registry m m' l : marks_only m m' -> registry m l -> registry m' l.
Proof.
  intros (Hst & _ & _ & Hle & _) Hreg. unfold registry in *. rewrite Hst.
  eapply seg_ext; [|exact Hreg]. intros a e _ He.
  destruct (Hle a e He) as (e' & He' & _ & _ & Hn & Hp & _). by exists e'.
Qed.

Lemma marks_only_unmarked m m' : marks_only m m' -> unmarked m' ⊆ unmarked m.
Proof.
  intros (_ & _ & _ & Hle & Hnone) a Ha.
  apply elem_of_unmarked in Ha as (e' & He' & Hr'). apply elem_of_unmarked.
  destruct (entries m !! a) as [e|] eqn:He.
  - exists e. split; [done|]. destruct (Hle a e He) as (e2 & He2 & _ & _ & _ & _ & Heq).
    rewrite He' in He2. injection He2 as <-.
    destruct (reachable e) eqn:Hr; [|done]. rewrite (Heq eq_refl) in Hr'. congruence.
  - rewrite (Hnone a He) in He'. done.
Qed.

(** Marking the unmarked record at [a]. *)
Lemma marks_only_mark m a ent v :
  entries m !! a = Some ent -> reachable ent = false ->
  marks_only m (mark_entry a ent v m) /\
  (stdpp.base.size (unmarked (mark_entry a ent v m)) < stdpp.base.size (unmarked m))%nat.
Proof.
  intros He Hr. split.
  - repeat split; try done.
    + intros x e Hx. destruct (decide (x = a)) as [->|Hxa].
      * exists (set_reach_addr v (set_reachable true ent)). simpl.
        rewrite lookup_insert_eq. split; [done|].
        rewrite He in Hx. injection Hx as <-. repeat split; try done. congruence.
      * exists e. simpl. rewrite lookup_insert_ne by done. split; [done|apply entry_le_refl].
    + intros x Hx. simpl. rewrite lookup_insert_ne; [done|]. intros ->. congruence.
  - apply subset_size. split.
    + intros x Hx. apply elem_of_unmarked in Hx as (e & Hx & Hrx). apply elem_of_unmarked.
      simpl in Hx. destruct (decide (x = a)) as [->|Hxa].
      * rewrite lookup_insert_eq in Hx. injection Hx as <-. done.
      * rewrite lookup_insert_ne in Hx by done. by exists e.
    + intros Hsub. assert (Ha : a ∈ unmarked (mark_entry a ent v m)).
      { apply Hsub. apply elem_of_unmarked. by exists ent. }
      apply elem_of_unmarked in Ha as (e & Hx & Hrx). simpl in Hx.
      rewrite lookup_insert_eq in Hx. injection Hx as <-. done.
Qed.

(** Whatever the memory holds, a self-skip moves the cursor by 63 or 87
    bytes, hence off the word grid by 7. *)
Lemma skip_tags_misaligns f s :
  skip_tags f s <> s -> (skip_tags f s - s) mod sizeof_ptr = 7.
Proof.
  unfold skip_tags, sizeof_gc_state, sizeof_gc_entry, sizeof_ptr.
  destruct (gc_memcmp f s _).
  - intros _. by replace (s + (88 - 1) - s) with 87 by lia.
  - destruct (gc_memcmp f s _); [|done].
    intros _. by replace (s + (64 - 1) - s) with 63 by lia.
Qed.

Lemma skip_tags_ge f s : s <= skip_tags f s.
Proof.
  unfold skip_tags, sizeof_gc_state, sizeof_gc_entry.
  destruct (gc_memcmp f s _); [lia|]. destruct (gc_memcmp f s _); lia.
Qed.

(** Without self-skip the inner walk hands the cursor back where it
    received it: the outer loop stays on the word grid of its range. *)
Lemma gc_mark_entries_no_skip fuel : forall m rs re a s r,
  gc_mark_entries fuel m rs re a s false = Some r -> r.2 = s.
Proof.
  induction fuel as [|fuel IH]; intros m rs re a s r Hrun; [done|].
  destruct (decide (a = 0)) as [->|Ha].
  { rewrite gc_mark_entries_null in Hrun. by injection Hrun as <-. }
  destruct (entries m !! a) as [ent|] eqn:He.
  2:{ simpl in Hrun. apply Z.eqb_neq in Ha. rewrite Ha, He in Hrun. done. }
  rewrite (gc_mark_entries_S fuel m rs re a s false ent s Ha He eq_refl) in Hrun.
  destruct ((ptr ent =? read_word (mem m) s) && negb (reachable ent)).
  - destruct (gc_mark_range fuel _ _ _ _ _ true) as [m2|]; [|done]. simpl in Hrun.
    destruct (entries m2 !! a) as [ent2|]; [|done]. simpl in Hrun.
    by apply IH in Hrun.
  - by apply IH in Hrun.
Qed.

Section Step.

Variables (l : list Z) (k : nat).
Hypothesis rec_total : forall m,
  registry m l -> (stdpp.base.size (unmarked m) < k)%nat -> mark_total m.

Lemma gc_mark_entries_total rs re ct R : forall K m s,
  l = K ++ R -> registry m l -> (stdpp.base.size (unmarked m) <= k)%nat ->
  exists f0 m' s',
    (forall fuel, (f0 <= fuel)%nat ->
       gc_mark_entries fuel m rs re (hd 0 R) s ct = Some (m', s')) /\
    marks_only m m' /\ s <= s'.
Proof.
  induction R as [|a R IH]; intros K m s Hl Hreg Hk.
  - exists 1%nat, m, s. split; [|split; [apply marks_only_refl|lia]].
    intros [|fuel] Hf; [lia|]. done.
  - pose proof Hreg as Hreg'. unfold registry in Hreg'. rewrite Hl in Hreg'.
    apply seg_app in Hreg' as (mid & _ & HR). simpl in HR.
    destruct HR as (-> & Hne & ent & He & Hpv & HR).
    assert (Hnx : next ent = hd 0 R).
    { destruct R as [|r R]; simpl in HR; [done|]. by destruct HR as (-> & _). }
    assert (Hl' : l = (K ++ [a]) ++ R) by (by rewrite <- app_assoc).
    remember (if ct then skip_tags (mem m) s else s) as s1 eqn:Es1.
    assert (Hs1 : s <= s1).
    { rewrite Es1. destruct ct; [apply skip_tags_ge|lia]. }
    pose proof (marks_only_log_read m rs re s1) as Hm0.
    destruct ((ptr ent =? read_word (mem m) s1) && negb (reachable ent)) eqn:Hc.
    + pose proof Hc as Hc'. apply andb_true_iff in Hc' as [_ Hr].
      apply negb_true_iff in Hr.
      destruct (marks_only_mark (log_read rs re s1 m) a ent s1 He Hr) as [Hm1 Hlt].
      remember (mark_entry a ent s1 (log_read rs re s1 m)) as m1 eqn:Em1.
      assert (Hm01 : marks_only m m1) by (eapply marks_only_trans; [exact Hm0|exact Hm1]).
      assert (Hreg1 : registry m1 l) by (by eapply marks_only_registry).
      assert (Hk1 : (stdpp.base.size (unmarked m1) < k)%nat).
      { assert (unmarked (log_read rs re s1 m) = unmarked m) as E by done.
        rewrite E in Hlt. lia. }
      destruct (rec_total m1 Hreg1 Hk1 (ptr ent) (ptr ent + size ent)
                  (ptr ent) (ptr ent + size ent - sizeof_ptr) true)
        as (f1 & m2 & Hrun1 & Hm12).
      pose proof Hm12 as (_ & _ & _ & Hle2 & _).
      destruct (Hle2 a (set_reach_addr s1 (set_reachable true ent)))
        as (ent2 & He2 & _ & _ & Hn2 & _).
      { rewrite Em1. simpl. by rewrite lookup_insert_eq. }
      simpl in Hn2.
      assert (Hreg2 : registry m2 l) by (by eapply marks_only_registry).
      assert (Hk2 : (stdpp.base.size (unmarked m2) <= k)%nat).
      { pose proof (subseteq_size _ _ (marks_only_unmarked _ _ Hm12)). lia. }
      destruct (IH (K ++ [a]) m2 s1 Hl' Hreg2 Hk2) as (f2 & m3 & s' & Hrun2 & Hm23 & Hs').
      exists (S (max f1 f2)), m3, s'. split; [|split].
      * intros [|fuel] Hf; [lia|]. cbn [hd].
        rewrite (gc_mark_entries_S fuel m rs re a s ct ent s1) by done.
        rewrite Hc, <- Em1. rewrite Hrun1 by lia. simpl. rewrite He2. simpl.
        rewrite Hn2, Hnx. apply Hrun2. lia.
      * eapply marks_only_trans; [exact Hm01|]. eapply marks_only_trans; [exact Hm12|exact Hm23].
      * lia.
    + assert (Hreg0 : registry (log_read rs re s1 m) l) by done.
      assert (Hk0 : (stdpp.base.size (unmarked (log_read rs re s1 m)) <= k)%nat) by done.
      destruct (IH (K ++ [a]) _ s1 Hl' Hreg0 Hk0) as (f2 & m3 & s' & Hrun2 & Hm23 & Hs').
      exists (S f2), m3, s'. split; [|split].
      * intros [|fuel] Hf; [lia|]. cbn [hd].
        rewrite (gc_mark_entries_S fuel m rs re a s ct ent s1) by done.
        rewrite Hc, Hnx. apply Hrun2. lia.
      * eapply marks_only_trans; [exact Hm0|exact Hm23].
      * lia.
Qed.

Lemma gc_mark_range_total rs re ct e n : forall m s,
  (Z.to_nat (e - s + 1) <= n)%nat ->
  registry m l -> (stdpp.base.size (unmarked m) <= k)%nat ->
  exists f0 m',
    (forall fuel, (f0 <= fuel)%nat -> gc_mark_range fuel m rs re s e ct = Some m') /\
    marks_only m m'.
Proof.
  induction n as [|n IH]; intros m s Hn Hreg Hk.
  - exists 1%nat, m. split; [|apply marks_only_refl].
    intros [|fuel] Hf; [lia|]. rewrite gc_mark_range_S.
    assert (E : (s <=? e) = false) by (apply Z.leb_gt; lia). by rewrite E.
  - destruct (s <=? e) eqn:E.
    + apply Z.leb_le in E as E'.
      assert (Hhd : head (state m) = hd 0 l).
      { unfold registry in Hreg. destruct l; simpl in Hreg; [done|].
        by destruct Hreg as (-> & _). }
      destruct (gc_mark_entries_total rs re ct l [] m s eq_refl Hreg Hk)
        as (f1 & m1 & s1 & Hrun1 & Hm1 & Hs1).
      assert (Hreg1 : registry m1 l) by (by eapply marks_only_registry).
      assert (Hk1 : (stdpp.base.size (unmarked m1) <= k)%nat).
      { pose proof (subseteq_size _ _ (marks_only_unmarked _ _ Hm1)). lia. }
      destruct (IH m1 (s1 + sizeof_ptr)) as (f2 & m2 & Hrun2 & Hm2); [|done|done|].
      { unfold sizeof_ptr. lia. }
      exists (S (max f1 f2)), m2. split; [|eapply marks_only_trans; [exact Hm1|exact Hm2]].
      intros [|fuel] Hf; [lia|]. rewrite gc_mark_range_S, E, Hhd.
      rewrite Hrun1 by lia. simpl. apply Hrun2. lia.
    + exists 1%nat, m. split; [|apply marks_only_refl].
      intros [|fuel] Hf; [lia|]. by rewrite gc_mark_range_S, E.
Qed.

End Step.

Lemma mark_total_below k : forall l m,
  registry m l -> (stdpp.base.size (unmarked m) < k)%nat -> mark_total m.
Proof.
  induction k as [|k IH]; intros l m Hreg Hk; [lia|].
  intros rs re s e ct.
  apply (gc_mark_range_total l k (IH l) rs re ct e (Z.to_nat (e - s + 1))); [lia|done|lia].
Qed.

(** [gc_mark] terminates on every well-formed registry, whatever the
    memory holds: a marked record is never marked again. *)
Lemma gc_mark_terminates m l s e ct :
  registry m l ->
  exists f0 m',
    (forall fuel, (f0 <= fuel)%nat -> gc_mark fuel m s e ct = Some m') /\
    marks_only m m'.
Proof.
  intros Hreg. unfold gc_mark.
  apply (mark_total_below (S (stdpp.base.size (unmarked m))) l m Hreg). lia.
Qed.

End MarkTermination.

(** More fuel does not change the answer of the list loops. *)
Lemma remove_loop_mono d fuel : forall entry m m' fuel',
  remove_loop d fuel entry m = Some m' -> (fuel <= fuel')%nat ->
  remove_loop d fuel' entry m = Some m'.
Proof.
  induction fuel as [|fuel IH]; intros entry m m' fuel' Hrun Hle; [done|].
  destruct fuel' as [|fuel']; [lia|]. simpl in *.
  destruct (entry =? 0); [done|].
  destruct (entries m !! entry) as [ent|]; simpl in *; [|done].
  destruct (d ent).
  - destruct (unlink_and_release entry ent m); simpl in *; [|done].
    apply (IH _ _ _ _ Hrun). lia.
  - apply (IH _ _ _ _ Hrun). lia.
Qed.

Lemma gc_collect_reset_mono regs fuel : forall entry m m' fuel',
  gc_collect_reset fuel regs entry m = Some m' -> (fuel <= fuel')%nat ->
  gc_collect_reset fuel' regs entry m = Some m'.
Proof.
  induction fuel as [|fuel IH]; intros entry m m' fuel' Hrun Hle; [done|].
  destruct fuel' as [|fuel']; [lia|]. simpl in *.
  destruct (entry =? 0); [done|].
  destruct (entries m !! entry) as [ent|]; simpl in *; [|done].
  apply (IH _ _ _ _ Hrun). lia.
Qed.

(** ** Records no scan can reach *)

Section Protected.

(** [B] is a set of bases, [f] the memory during the cycle. *)
Variables (B : Z -> Prop) (f : Z -> Z).

Lemma spares_refl m : spares B m m.
Proof. by intros x ent. Qed.

Lemma spares_trans m1 m2 m3 : spares B m1 m2 -> spares B m2 m3 -> spares B m1 m3.
Proof. intros H12 H23 x ent He Hb. apply H23; [|done]. by apply H12. Qed.

Lemma payloads_quiet_marks_only m m' :
  marks_only m m' -> payloads_quiet B f m -> payloads_quiet B f m'.
Proof.
  intros (_ & _ & _ & Hle & Hnone) Hq x ent' He' Hb.
  destruct (entries m !! x) as [ent|] eqn:He.
  - destruct (Hle x ent He) as (e2 & He2 & Hp & Hs & _).
    rewrite He' in He2. injection He2 as <-. rewrite Hp, Hs.
    apply (Hq x ent He). by rewrite <- Hp.
  - rewrite (Hnone x He) in He'. done.
Qed.

Lemma quiet_next ct s e8 : quiet B f ct s e8 -> quiet B f ct (s + sizeof_ptr) e8.
Proof.
  intros Hq i Hi Hle. unfold sizeof_ptr in *.
  replace (s + 8 + 8 * i) with (s + 8 * (i + 1)) in * by lia.
  apply Hq; lia.
Qed.

Lemma quiet_here ct s e8 :
  quiet B f ct s e8 -> s <= e8 ->
  (ct = true -> skip_tags f s = s) /\ ~ B (read_word f s).
Proof.
  intros Hq Hle. specialize (Hq 0 ltac:(lia)).
  replace (s + 8 * 0) with s in Hq by lia. apply Hq. lia.
Qed.

(** Scanning quiet B f ranges marks no record of [B] and only scans quiet
    payloads in turn. *)
Lemma gc_mark_spares fuel :
  (forall m rs re s e ct m',
     gc_mark_range fuel m rs re s e ct = Some m' ->
     mem m = f -> payloads_quiet B f m -> quiet B f ct s e ->
     marks_only m m' /\ spares B m m') /\
  (forall m rs re a s ct r,
     gc_mark_entries fuel m rs re a s ct = Some r ->
     mem m = f -> payloads_quiet B f m ->
     (ct = true -> skip_tags f s = s) -> ~ B (read_word f s) ->
     marks_only m r.1 /\ spares B m r.1 /\ r.2 = s).
Proof.
  induction fuel as [|fuel [IHr IHe]]; [split; intros; done|]. split.
  - intros m rs re s e ct m' Hrun Hmem Hpq Hq.
    rewrite gc_mark_range_S in Hrun. destruct (s <=? e) eqn:E.
    + apply Z.leb_le in E.
      destruct (gc_mark_entries fuel m rs re (head (state m)) s ct) as [r|] eqn:Er;
        [|done].
      simpl in Hrun. destruct (quiet_here ct s e Hq E) as [Htag Hw].
      destruct (IHe _ _ _ _ _ _ _ Er Hmem Hpq Htag Hw) as (Hm1 & Hs1 & Hr2).
      rewrite Hr2 in Hrun.
      pose proof Hm1 as (_ & Hmem1 & _).
      destruct (IHr _ _ _ _ _ _ _ Hrun) as (Hm2 & Hs2).
      * congruence.
      * by eapply payloads_quiet_marks_only.
      * by apply quiet_next.
      * split; [eapply marks_only_trans; [exact Hm1|exact Hm2]|].
        eapply spares_trans; [exact Hs1|exact Hs2].
    + injection Hrun as <-. split; [apply marks_only_refl|apply spares_refl].
  - intros m rs re a s ct r Hrun Hmem Hpq Htag Hw.
    destruct (decide (a = 0)) as [->|Ha].
    { rewrite gc_mark_entries_null in Hrun. injection Hrun as <-.
      split; [apply marks_only_refl|]. split; [apply spares_refl|done]. }
    destruct (entries m !! a) as [ent|] eqn:He.
    2:{ simpl in Hrun. apply Z.eqb_neq in Ha. rewrite Ha, He in Hrun. done. }
    assert (Es : s = (if ct then skip_tags (mem m) s else s)).
    { destruct ct; [|done]. rewrite Hmem. symmetry. by apply Htag. }
    rewrite (gc_mark_entries_S fuel m rs re a s ct ent s Ha He Es) in Hrun.
    pose proof (marks_only_log_read m rs re s) as Hm0.
    destruct ((ptr ent =? read_word (mem m) s) && negb (reachable ent)) eqn:Hc.
    + apply andb_true_iff in Hc as [Hp%Z.eqb_eq Hr%negb_true_iff].
      assert (Hnb : ~ B (ptr ent)) by (rewrite Hp, Hmem; done).
      destruct (marks_only_mark (log_read rs re s m) a ent s He Hr) as [Hm1 _].
      remember (mark_entry a ent s (log_read rs re s m)) as m1 eqn:Em1.
      assert (Hm01 : marks_only m m1) by (eapply marks_only_trans; [exact Hm0|exact Hm1]).
      assert (Hs01 : spares B m m1).
      { intros x entx Hx Hbx. rewrite Em1. simpl. rewrite lookup_insert_ne; [done|].
        intros ->. rewrite He in Hx. injection Hx as <-. done. }
      destruct (gc_mark_range fuel m1 _ _ _ _ true) as [m2|] eqn:Er; [|done].
      simpl in Hrun.
      destruct (IHr _ _ _ _ _ _ _ Er) as (Hm12 & Hs12).
      * rewrite Em1. done.
      * by eapply payloads_quiet_marks_only.
      * unfold sizeof_ptr. by apply (Hpq a ent).
      * destruct (entries m2 !! a) as [ent2|]; [|done]. simpl in Hrun.
        assert (Hm02 : marks_only m m2) by (eapply marks_only_trans; [exact Hm01|exact Hm12]).
        pose proof Hm02 as (_ & Hmem2 & _).
        destruct (IHe _ _ _ _ _ _ _ Hrun) as (Hm23 & Hs23 & Hr2); try done.
        -- congruence.
        -- by eapply payloads_quiet_marks_only.
        -- split; [eapply marks_only_trans; [exact Hm02|exact Hm23]|].
           split; [|done].
           eapply spares_trans; [exact Hs01|]. eapply spares_trans; [exact Hs12|exact Hs23].
    + by destruct (IHe _ _ _ _ _ _ _ Hrun) as (Hm23 & Hs23 & Hr2).
Qed.

(** One scan of a quiet B f range, from a well-formed registry with quiet
    payloads. *)
Lemma gc_mark_quiet m l s e ct :
  registry m l -> mem m = f -> payloads_quiet B f m -> quiet B f ct s (e - 8) ->
  exists f0 m',
    (forall fuel, (f0 <= fuel)%nat -> gc_mark fuel m s e ct = Some m') /\
    marks_only m m' /\ spares B m m'.
Proof.
  intros Hreg Hmem Hpq Hq.
  destruct (gc_mark_terminates m l s e ct Hreg) as (f0 & m' & Hrun & Hm).
  exists f0, m'. split; [done|]. split; [done|].
  pose proof (Hrun f0 ltac:(lia)) as Hrun0. unfold gc_mark in Hrun0.
  by destruct (proj1 (gc_mark_spares f0) _ _ _ _ _ _ _ Hrun0 Hmem Hpq Hq).
Qed.

Lemma gc_mark_heaps_quiet heaps : forall m l,
  registry m l -> mem m = f -> payloads_quiet B f m ->
  (forall h, h ∈ heaps -> quiet B f true (start h) (end_ h - 8)) ->
  exists f0 m',
    (forall fuel, (f0 <= fuel)%nat -> gc_mark_heaps fuel heaps m = Some m') /\
    marks_only m m' /\ spares B m m'.
Proof.
  induction heaps as [|h heaps IH]; intros m l Hreg Hmem Hpq Hq.
  - exists 0%nat, m. split; [done|]. split; [apply marks_only_refl|apply spares_refl].
  - destruct (gc_mark_quiet m l (start h) (end_ h) true Hreg Hmem Hpq)
      as (f1 & m1 & Hrun1 & Hm1 & Hs1); [apply Hq; set_solver|].
    pose proof Hm1 as (_ & Hmem1 & _).
    destruct (IH m1 l) as (f2 & m2 & Hrun2 & Hm2 & Hs2).
    + by eapply marks_only_registry.
    + congruence.
    + by eapply payloads_quiet_marks_only.
    + intros h' Hh'. apply Hq. set_solver.
    + exists (max f1 f2), m2. split; [|split].
      * intros fuel Hf. simpl. rewrite Hrun1 by lia. simpl. apply Hrun2. lia.
      * eapply marks_only_trans; [exact Hm1|exact Hm2].
      * eapply spares_trans; [exact Hs1|exact Hs2].
Qed.

Lemma gc_mark_quiet_if (b : bool) m l s e ct :
  registry m l -> mem m = f -> payloads_quiet B f m ->
  (b = true -> quiet B f ct s (e - 8)) ->
  exists f0 m',
    (forall fuel, (f0 <= fuel)%nat ->
       (if b then gc_mark fuel m s e ct else Some m) = Some m') /\
    marks_only m m' /\ spares B m m'.
Proof.
  intros Hreg Hmem Hpq Hq. destruct b.
  - apply (gc_mark_quiet m l); auto.
  - exists 0%nat, m. split; [done|]. split; [apply marks_only_refl|apply spares_refl].
Qed.

Lemma gc_mark_heaps_quiet_if (b : bool) heaps m l :
  registry m l -> mem m = f -> payloads_quiet B f m ->
  (b = true -> forall h, h ∈ heaps -> quiet B f true (start h) (end_ h - 8)) ->
  exists f0 m',
    (forall fuel, (f0 <= fuel)%nat ->
       (if b then gc_mark_heaps fuel heaps m else Some m) = Some m') /\
    marks_only m m' /\ spares B m m'.
Proof.
  intros Hreg Hmem Hpq Hq. destruct b.
  - apply (gc_mark_heaps_quiet heaps m l); auto.
  - exists 0%nat, m. split; [done|]. split; [apply marks_only_refl|apply spares_refl].
Qed.

(** A cycle reclaims every record whose base is in [B] when no root and no
    payload of a record outside [B] shows such a base. *)
Lemma gc_collect_reclaims m l o :
  registry m l -> mem m = f -> roots_quiet B f m o -> payloads_quiet B f m ->
  exists n m' l',
    (forall fuel, (n <= fuel)%nat -> _gc_collect fuel m o = Some m') /\
    registry m' l' /\
    forall x ent, x ∈ l -> entries m !! x = Some ent -> B (ptr ent) ->
      entries m' !! x = None /\ live m' !! ptr ent = None /\ x ∉ l'.
Proof.
  intros Hreg Hmem (Hregs & Hstack & Hdata & Hbss & Hheaps) Hpq.
  set (ma := with_log (EvCollect :: log m) m).
  assert (Hrega : registry ma l) by done.
  assert (Hhd : forall m0, registry m0 l -> head (state m0) = hd 0 l).
  { intros m0 H0. unfold registry in H0. destruct l; simpl in H0; [done|].
    by destruct H0 as (-> & _). }
  (* the reset loop *)
  destruct (gc_collect_reset_spec (gp_registers o) l [] ma (S (length l)) Hrega ltac:(lia))
    as (m1 & Hrun1 & Hreg1 & Hst1 & Hmem1 & Hlive1 & _ & Hin1 & Hout1).
  simpl in Hreg1.
  assert (Hfl : forall bit, flag_set m1 bit = flag_set m bit).
  { intros bit. unfold flag_set. by rewrite Hst1. }
  assert (Hpq1 : payloads_quiet B f m1).
  { intros x ent1 He1 Hb. destruct (decide (x ∈ l)) as [Hx|Hx].
    - destruct (seg_lookup _ _ _ _ _ x Hreg Hx) as [ent He].
      rewrite (Hin1 x ent Hx He) in He1. injection He1 as Heq. subst ent1.
      destruct (reset_entry_fields (state m) (gp_registers o) ent) as (Hp & Hs & _).
      rewrite Hp, Hs. apply (Hpq x ent He). by rewrite <- Hp.
    - rewrite (Hout1 x Hx) in He1. by apply (Hpq x ent1). }
  assert (Hmem1' : mem m1 = f) by (rewrite Hmem1; done).
  (* the scans *)
  destruct (gc_mark_quiet_if (flag_set m1 GC_SCAN_STACK) m1 l
              (gc_current_stack_top o) (stack_start (state m1)) false Hreg1 Hmem1' Hpq1)
    as (f2 & m2 & Hrun2 & Hm2 & Hs2).
  { rewrite Hfl, Hst1. exact Hstack. }
  pose proof Hm2 as (Hst2 & Hmem2 & _).
  assert (Hreg2 : registry m2 l) by (by eapply marks_only_registry).
  assert (Hpq2 : payloads_quiet B f m2) by (by eapply payloads_quiet_marks_only).
  destruct (gc_mark_quiet_if (flag_set m2 GC_SCAN_DATA_SECTION) m2 l
              (start (data (state m2))) (end_ (data (state m2))) false Hreg2
              ltac:(congruence) Hpq2)
    as (f3 & m3 & Hrun3 & Hm3 & Hs3).
  { unfold flag_set. rewrite Hst2, Hst1. exact Hdata. }
  pose proof Hm3 as (Hst3 & Hmem3 & _).
  assert (Hreg3 : registry m3 l) by (by eapply marks_only_registry).
  assert (Hpq3 : payloads_quiet B f m3) by (by eapply payloads_quiet_marks_only).
  destruct (gc_mark_quiet_if (flag_set m3 GC_SCAN_BSS_SECTION) m3 l
              (start (bss (state m3))) (end_ (bss (state m3))) false Hreg3
              ltac:(congruence) Hpq3)
    as (f4 & m4 & Hrun4 & Hm4 & Hs4).
  { unfold flag_set. rewrite Hst3, Hst2, Hst1. exact Hbss. }
  pose proof Hm4 as (Hst4 & Hmem4 & _).
  assert (Hreg4 : registry m4 l) by (by eapply marks_only_registry).
  assert (Hpq4 : payloads_quiet B f m4) by (by eapply payloads_quiet_marks_only).
  destruct (gc_mark_heaps_quiet_if (flag_set m4 GC_SCAN_HEAPS) (heap_regions o) m4 l
              Hreg4 ltac:(congruence) Hpq4)
    as (f5 & m5 & Hrun5 & Hm5 & Hs5).
  { unfold flag_set. rewrite Hst4, Hst3, Hst2, Hst1. exact Hheaps. }
  pose proof Hm5 as (Hst5 & Hmem5 & Hlive5 & _).
  assert (Hreg5 : registry m5 l) by (by eapply marks_only_registry).
  (* the sweep *)
  assert (Hd : forall e e', payload_of e = payload_of e' ->
            negb (reachable e) = negb (reachable e')).
  { intros e e' H. unfold payload_of in H. by injection H as _ _ -> _. }
  destruct (remove_loop_spec _ Hd l [] m5 (S (length l)) Hreg5 ltac:(lia))
    as (m' & Hrun6 & Hreg' & Hgone & _ & Hfreed & _).
  simpl in Hreg'.
  exists (max (S (length l)) (max f2 (max f3 (max f4 f5)))), m',
    (filter (fun a => keeps (fun e => negb (reachable e)) m5 a = true) l).
  split; [|split; [exact Hreg'|]].
  - intros fuel Hf. unfold _gc_collect. fold ma. rewrite (Hhd ma Hrega).
    rewrite (gc_collect_reset_mono _ _ _ _ _ fuel Hrun1) by lia. simpl.
    rewrite Hrun2 by lia. simpl. rewrite Hrun3 by lia. simpl.
    rewrite Hrun4 by lia. simpl. rewrite Hrun5 by lia. simpl.
    unfold gc_sweep. rewrite gc_sweep_loop_remove, (Hhd m5 Hreg5).
    apply (remove_loop_mono _ _ _ _ _ fuel Hrun6). lia.
  - intros x ent Hx He Hb.
    pose proof (Hin1 x ent Hx He) as He1.
    destruct (reset_entry_fields (state m) (gp_registers o) ent) as (Hp & _).
    assert (Hr : reachable (reset_entry (state m) (gp_registers o) ent) = false).
    { rewrite reset_entry_reachable.
      destruct (Z.land (flags (state m)) GC_SCAN_REGISTERS =? 0) eqn:E; [done|]. simpl.
      destruct (existsb _ (gp_registers o)) eqn:Ex; [|done].
      apply existsb_exists in Ex as (w & Hw & Heq). apply Z.eqb_eq in Heq. exfalso.
      apply (Hregs ltac:(unfold flag_set; simpl; by rewrite E) w).
      - by apply list_elem_of_In.
      - by rewrite Heq. }
    assert (He5 : entries m5 !! x = Some (reset_entry (state m) (gp_registers o) ent)).
    { apply Hs5; [|by rewrite Hp]. apply Hs4; [|by rewrite Hp].
      apply Hs3; [|by rewrite Hp]. apply Hs2; [|by rewrite Hp]. done. }
    assert (Hk : keeps (fun e => negb (reachable e)) m5 x = false).
    { unfold keeps. rewrite He5, Hr. done. }
    split; [by apply Hgone|]. split.
    + rewrite <- Hp. eapply Hfreed; [exact Hx|exact He5|]. by rewrite Hr.
    + intros Hin. apply list_elem_of_filter in Hin as [Hin _]. congruence.
Qed.

End Protected.

(** ** Cyclic garbage *)

Module Cycle.

Local Ltac no_hold :=
  let i := fresh "i" in let Hi := fresh in let Hle := fresh in let Heq := fresh in
  intros (i & Hi & Hle & Heq);
  match type of Hle with
  | ?s + 8 * _ + 8 <= ?e =>
      let s' := eval vm_compute in s in
      let e' := eval vm_compute in e in
      change s with s' in Hle, Heq; change e with e' in Hle
  end;
  assert (i = 0 \/ i = 1 \/ i = 2 \/ i = 3) as [-> | [-> | [-> | ->]]] by lia;
  vm_compute in Heq; discriminate.

Local Ltac no_root :=
  repeat split; intros _;
  [ apply (bool_decide_unpack _); vm_compute; exact I
  | no_hold | no_hold | no_hold
  | intros h Hh; by apply elem_of_nil in Hh ].

Lemma unreferenced_registry : registry unreferenced [5128; 5064; 5000].
Proof. exact three_registry. Qed.

Lemma reached_registry : registry reached [5128; 5064; 5000].
Proof. exact three_registry. Qed.

Lemma reached_roots_8192 : no_root_holds reached snapshot 8192.
Proof. no_root. Qed.

Lemma reached_roots_8256 : no_root_holds reached snapshot 8256.
Proof. no_root. Qed.

Lemma reached_cycle :
  holds (mem reached) 8256 8192 (8192 + 8) /\ holds (mem reached) 8192 8256 (8256 + 8).
Proof.
  split; exists 0; (split; [lia|]); (split; [lia|]); vm_compute; reflexivity.
Qed.

Lemma reached_survivors :
  (m' ← _gc_collect 60 reached snapshot; Some (entries m' !! 5000, entries m' !! 5064)) =
    Some (Some (mk_gc_entry 8192 8 true 8320 0 5064),
          Some (mk_gc_entry 8256 8 true 8192 5000 5128)).
Proof. vm_compute. reflexivity. Qed.

(** C6 as stated fails: with a third, rooted record whose payload holds
    the base 8192, the two records survive although no root holds either
    base. *)
Lemma cycle_reached_through_a_third_record : ~ reclaimed_when_no_root_holds.
Proof.
  intros H. pose proof reached_survivors as Hkept.
  destruct (_gc_collect 60 reached snapshot) as [m'|] eqn:E; [|discriminate Hkept].
  cbn [mbind option_bind] in Hkept. injection Hkept as Hkept _.
  destruct reached_cycle as [Hab Hba].
  destruct (H reached [5128; 5064; 5000] snapshot 5000 5064
              (mk_gc_entry 8192 8 false 0 0 5064) (mk_gc_entry 8256 8 false 0 5000 5128)
              60%nat m' reached_registry) as [Hgone _].
  - apply elem_of_cons. right. apply elem_of_cons. right. apply elem_of_cons. by left.
  - apply elem_of_cons. right. apply elem_of_cons. by left.
  - reflexivity.
  - reflexivity.
  - exact Hab.
  - exact Hba.
  - exact reached_roots_8192.
  - exact reached_roots_8256.
  - exact E.
  - rewrite Hgone in Hkept. discriminate Hkept.
Qed.

Lemma quiet_of_holds (f : Z -> Z) (a b : Z) (ct : bool) (s e : Z) :
  ~ holds f a s e -> ~ holds f b s e -> (ct = true -> ~ tagged f s e) ->
  quiet (fun v => v = a \/ v = b) f ct s (e - 8).
Proof.
  intros Ha Hb Ht i Hi Hle. split.
  - intros Hct. destruct (decide (skip_tags f (s + 8 * i) = s + 8 * i)) as [|Hne]; [done|].
    exfalso. apply (Ht Hct). exists i. repeat split; [done|lia|done].
  - intros [Heq|Heq]; [apply Ha|apply Hb]; exists i; repeat split; try done; lia.
Qed.

(** C6 (amended). Two tracked records whose payloads hold each other's
    base are both unlinked and released by a single cycle, and the cycle
    terminates (from some amount of fuel on, [_gc_collect] returns one and
    the same machine), provided that neither base is held by an enabled
    root, nor by the payload of any other record, and that no word
    position of a heap region or of another record's payload shows a
    self-tag.  What is left is a well-formed registry without the two
    records.  Premises on memory: the payload of every record lies in an
    allocated block whose base is not null ([payloads_allocated]), and no
    scanned range ends below the first word ([roots_proper]). *)
Theorem unreferenced_cycle_is_reclaimed
    (m : machine) (l : list Z) (o : oracle) (eA eB : Z) (entA entB : gc_entry) :
  registry m l -> payloads_allocated m -> roots_proper m o -> eA ∈ l -> eB ∈ l ->
  entries m !! eA = Some entA -> entries m !! eB = Some entB ->
  holds (mem m) (ptr entB) (ptr entA) (ptr entA + size entA) ->
  holds (mem m) (ptr entA) (ptr entB) (ptr entB + size entB) ->
  no_root_holds m o (ptr entA) -> no_root_holds m o (ptr entB) ->
  (flag_set m GC_SCAN_HEAPS = true ->
     forall h, h ∈ heap_regions o -> ~ tagged (mem m) (start h) (end_ h)) ->
  (forall x ent, entries m !! x = Some ent ->
     ptr ent <> ptr entA -> ptr ent <> ptr entB ->
     ~ holds (mem m) (ptr entA) (ptr ent) (ptr ent + size ent) /\
     ~ holds (mem m) (ptr entB) (ptr ent) (ptr ent + size ent) /\
     ~ tagged (mem m) (ptr ent) (ptr ent + size ent)) ->
  exists n m' l',
    (forall fuel, (n <= fuel)%nat -> _gc_collect fuel m o = Some m') /\
    registry m' l' /\ (eA ∉ l') /\ (eB ∉ l') /\
    entries m' !! eA = None /\ entries m' !! eB = None /\
    live m' !! ptr entA = None /\ live m' !! ptr entB = None.
Proof.
  intros Hreg _ _ HA HB HeA HeB _ _ (RA1 & RA2 & RA3 & RA4 & RA5)
    (RB1 & RB2 & RB3 & RB4 & RB5) Htag Hothers.
  destruct (gc_collect_reclaims (fun v => v = ptr entA \/ v = ptr entB) (mem m) m l o Hreg eq_refl)
    as (n & m' & l' & Hrun & Hreg' & Hgone).
  - split; [|split; [|split; [|split]]].
    + intros Hf w Hw [-> | ->]; [by apply RA1|by apply RB1].
    + intros Hf. apply quiet_of_holds; auto. done.
    + intros Hf. apply quiet_of_holds; auto. done.
    + intros Hf. apply quiet_of_holds; auto. done.
    + intros Hf h Hh. apply quiet_of_holds; auto.
  - intros x ent Hx Hnb.
    destruct (Hothers x ent Hx) as (H1 & H2 & H3); [tauto|tauto|].
    replace (ptr ent + size ent - 8) with ((ptr ent + size ent) - 8) by lia.
    apply quiet_of_holds; auto.
  - exists n, m', l'. split; [done|]. split; [done|].
    destruct (Hgone eA entA HA HeA) as (G1 & G2 & G3); [by left|].
    destruct (Hgone eB entB HB HeB) as (G4 & G5 & G6); [by right|].
    done.
Qed.

Lemma unreferenced_roots_8192 : no_root_holds unreferenced snapshot 8192.
Proof. no_root. Qed.

Lemma unreferenced_roots_8256 : no_root_holds unreferenced snapshot 8256.
Proof. no_root. Qed.

Lemma unreferenced_cycle :
  holds (mem unreferenced) 8256 8192 (8192 + 8) /\
  holds (mem unreferenced) 8192 8256 (8256 + 8).
Proof.
  split; exists 0; (split; [lia|]); (split; [lia|]); vm_compute; reflexivity.
Qed.

Lemma unreferenced_others x ent :
  entries unreferenced !! x = Some ent -> ptr ent <> 8192 -> ptr ent <> 8256 ->
  ~ holds (mem unreferenced) 8192 (ptr ent) (ptr ent + size ent) /\
  ~ holds (mem unreferenced) 8256 (ptr ent) (ptr ent + size ent) /\
  ~ tagged (mem unreferenced) (ptr ent) (ptr ent + size ent).
Proof.
  intros Hx Ha Hb.
  change (entries unreferenced) with
    (<[5128 := mk_gc_entry 8320 8 false 0 5064 0]>
       (<[5064 := mk_gc_entry 8256 8 false 0 5000 5128]>
          (<[5000 := mk_gc_entry 8192 8 false 0 0 5064]> (∅ : gmap Z gc_entry)))) in Hx.
  destruct (decide (x = 5128)) as [->|N1].
  - rewrite lookup_insert_eq in Hx. injection Hx as <-. simpl.
    repeat split; intros (i & Hi & Hle & Heq);
      assert (i = 0) as -> by lia; vm_compute in Heq; congruence.
  - rewrite lookup_insert_ne in Hx by done.
    destruct (decide (x = 5064)) as [->|N2].
    { rewrite lookup_insert_eq in Hx. injection Hx as <-. done. }
    rewrite lookup_insert_ne in Hx by done.
    destruct (decide (x = 5000)) as [->|N3].
    { rewrite lookup_insert_eq in Hx. injection Hx as <-. done. }
    rewrite lookup_insert_ne in Hx by done. done.
Qed.

Lemma unreferenced_cycle_is_reclaimed_witness :
  exists n m' l',
    (forall fuel, (n <= fuel)%nat -> _gc_collect fuel unreferenced snapshot = Some m') /\
    registry m' l' /\ (5000 ∉ l') /\ (5064 ∉ l') /\
    entries m' !! 5000 = None /\ entries m' !! 5064 = None /\
    live m' !! 8192 = None /\ live m' !! 8256 = None.
Proof.
  apply (unreferenced_cycle_is_reclaimed unreferenced [5128; 5064; 5000] snapshot
           5000 5064 (mk_gc_entry 8192 8 false 0 0 5064)
           (mk_gc_entry 8256 8 false 0 5000 5128)).
  - exact unreferenced_registry.
  - by apply three_payloads_allocated.
  - by apply linux_roots_proper.
  - apply elem_of_cons. right. apply elem_of_cons. right. apply elem_of_cons. by left.
  - apply elem_of_cons. right. apply elem_of_cons. by left.
  - reflexivity.
  - reflexivity.
  - exact (proj1 unreferenced_cycle).
  - exact (proj2 unreferenced_cycle).
  - exact unreferenced_roots_8192.
  - exact unreferenced_roots_8256.
  - intros _ h Hh. by apply elem_of_nil in Hh.
  - exact unreferenced_others.
Defined.

End Cycle.


(** * Further properties of the code *)

(** ** gc_mark: what a finished call has and has not done *)

Section MarkFrame.

Lemma cycles_log_read rs re a m : cycles (log_read rs re a m) = cycles m.
Proof. done. Qed.

(** Whenever a call returns, it has changed marks, root-hits and the trace
    only, it has started no cycle, and the inner walk has not moved the
    cursor backwards. *)
Lemma gc_mark_frame fuel :
  (forall m rs re s e ct m',
     gc_mark_range fuel m rs re s e ct = Some m' ->
     marks_only m m' /\ cycles m' = cycles m) /\
  (forall m rs re a s ct r,
     gc_mark_entries fuel m rs re a s ct = Some r ->
     marks_only m r.1 /\ cycles r.1 = cycles m /\
     (ct = false \/ skip_tags (mem m) s = s -> r.2 = s)).
Proof.
  induction fuel as [|fuel [IHr IHe]]; [split; intros; done|]. split.
  - intros m rs re s e ct m' Hrun.
    rewrite gc_mark_range_S in Hrun. destruct (s <=? e).
    + destruct (gc_mark_entries fuel m rs re (head (state m)) s ct) as [r|] eqn:Er;
        [|done].
      simpl in Hrun. destruct (IHe _ _ _ _ _ _ _ Er) as (Hm1 & Hc1 & _).
      destruct (IHr _ _ _ _ _ _ _ Hrun) as (Hm2 & Hc2).
      split; [eapply marks_only_trans; [exact Hm1|exact Hm2]|congruence].
    + injection Hrun as <-. split; [apply marks_only_refl|done].
  - intros m rs re a s ct r Hrun.
    destruct (decide (a = 0)) as [->|Ha].
    { rewrite gc_mark_entries_null in Hrun. injection Hrun as <-.
      split; [apply marks_only_refl|done]. }
    destruct (entries m !! a) as [ent|] eqn:He.
    2:{ simpl in Hrun. apply Z.eqb_neq in Ha. rewrite Ha, He in Hrun. done. }
    remember (if ct then skip_tags (mem m) s else s) as s1 eqn:Es1.
    rewrite (gc_mark_entries_S fuel m rs re a s ct ent s1 Ha He Es1) in Hrun.
    assert (Hcur : ct = false \/ skip_tags (mem m) s = s -> s1 = s).
    { rewrite Es1. intros [->|Hs]; [done|]. by destruct ct. }
    pose proof (marks_only_log_read m rs re s1) as Hm0.
    destruct ((ptr ent =? read_word (mem m) s1) && negb (reachable ent)) eqn:Hc.
    + apply andb_true_iff in Hc as [_ Hr%negb_true_iff].
      destruct (marks_only_mark (log_read rs re s1 m) a ent s1 He Hr) as [Hm1 _].
      destruct (gc_mark_range fuel _ _ _ _ _ true) as [m2|] eqn:Er; [|done].
      simpl in Hrun. destruct (IHr _ _ _ _ _ _ _ Er) as (Hm12 & Hc12).
      destruct (entries m2 !! a) as [ent2|]; [|done]. simpl in Hrun.
      destruct (IHe _ _ _ _ _ _ _ Hrun) as (Hm23 & Hc23 & Hcur23).
      pose proof Hm12 as (_ & Hmem12 & _).
      split; [|split].
      * eapply marks_only_trans; [exact Hm0|]. eapply marks_only_trans; [exact Hm1|].
        eapply marks_only_trans; [exact Hm12|exact Hm23].
      * rewrite Hc23, Hc12. done.
      * intros Hs. pose proof (Hcur Hs) as ->. apply Hcur23.
        destruct Hs as [->|Hs]; [by left|right]. rewrite Hmem12. exact Hs.
    + destruct (IHe _ _ _ _ _ _ _ Hrun) as (Hm23 & Hc23 & Hcur23).
      split; [|split].
      * eapply marks_only_trans; [exact Hm0|exact Hm23].
      * rewrite Hc23. done.
      * intros Hs. pose proof (Hcur Hs) as ->. apply Hcur23.
        destruct Hs as [->|Hs]; [by left|by right].
Qed.

End MarkFrame.

(** ** gc_mark: a base seen on the grid marks its record *)

Section MarkFinds.

Variable l : list Z.

Lemma is_marked_true m a :
  is_marked m a = true <-> exists ent, entries m !! a = Some ent /\ reachable ent = true.
Proof.
  unfold is_marked, keeps. destruct (entries m !! a) as [ent|].
  - rewrite negb_involutive. split; [intros H; by exists ent|].
    by intros (e & [= <-] & H).
  - split; [done|]. by intros (e & H & _).
Qed.

Lemma marks_only_is_marked m m' a :
  marks_only m m' -> is_marked m a = true -> is_marked m' a = true.
Proof.
  intros (_ & _ & _ & Hle & _) (ent & He & Hr)%is_marked_true.
  apply is_marked_true. destruct (Hle a ent He) as (e' & He' & _ & _ & _ & _ & Heq).
  exists e'. split; [done|]. by rewrite (Heq Hr).
Qed.

Lemma marks_only_lookup m m' a ent :
  marks_only m m' -> entries m !! a = Some ent ->
  exists ent', entries m' !! a = Some ent' /\ ptr ent' = ptr ent /\ size ent' = size ent.
Proof.
  intros (_ & _ & _ & Hle & _) He.
  destruct (Hle a ent He) as (e' & He' & Hp & Hs & _). by exists e'.
Qed.

(** One inner walk at the cursor [s]: every record it visits whose base is
    the word at [s] is marked when the walk is over. *)
Lemma gc_mark_entries_finds rs re ct R : forall K m fuel s r,
  l = K ++ R -> registry m l ->
  gc_mark_entries fuel m rs re (hd 0 R) s ct = Some r ->
  (ct = false \/ skip_tags (mem m) s = s) ->
  forall a ent, a ∈ R -> entries m !! a = Some ent ->
    ptr ent = read_word (mem m) s -> is_marked r.1 a = true.
Proof.
  induction R as [|a0 R IH]; intros K m fuel s r Hl Hreg Hrun Hcur a ent Ha He Hp.
  { by apply elem_of_nil in Ha. }
  destruct fuel as [|fuel]; [done|].
  pose proof Hreg as Hreg'. unfold registry in Hreg'. rewrite Hl in Hreg'.
  apply seg_app in Hreg' as (mid & _ & HR). simpl in HR.
  destruct HR as (-> & Hne & ent0 & He0 & Hpv & HR).
  assert (Hnx : next ent0 = hd 0 R).
  { destruct R as [|r0 R]; simpl in HR; [done|]. by destruct HR as (-> & _). }
  assert (Hl' : l = (K ++ [a0]) ++ R) by (by rewrite <- app_assoc).
  assert (Es : s = (if ct then skip_tags (mem m) s else s)).
  { destruct Hcur as [->|Hs]; [done|]. by destruct ct. }
  cbn [hd] in Hrun.
  rewrite (gc_mark_entries_S fuel m rs re a0 s ct ent0 s Hne He0 Es) in Hrun.
  pose proof (marks_only_log_read m rs re s) as Hm0.
  destruct ((ptr ent0 =? read_word (mem m) s) && negb (reachable ent0)) eqn:Hc.
  - apply andb_true_iff in Hc as [_ Hr%negb_true_iff].
    destruct (marks_only_mark (log_read rs re s m) a0 ent0 s He0 Hr) as [Hm1 _].
    destruct (gc_mark_range fuel _ _ _ _ _ true) as [m2|] eqn:Er; [|done].
    simpl in Hrun. destruct (proj1 (gc_mark_frame fuel) _ _ _ _ _ _ _ Er) as (Hm12 & _).
    destruct (entries m2 !! a0) as [ent2|] eqn:He2; [|done]. simpl in Hrun.
    assert (Hm02 : marks_only m m2).
    { eapply marks_only_trans; [exact Hm0|]. eapply marks_only_trans; [exact Hm1|exact Hm12]. }
    pose proof Hm02 as (_ & Hmem2 & _ & Hle2 & _).
    assert (Hn2 : next ent2 = hd 0 R).
    { destruct (Hle2 a0 ent0 He0) as (e' & He' & _ & _ & Hn & _).
      rewrite He2 in He'. injection He' as <-. congruence. }
    rewrite Hn2 in Hrun.
    destruct (proj2 (gc_mark_frame fuel) _ _ _ _ _ _ _ Hrun) as (Hm23 & _).
    apply elem_of_cons in Ha as [->|Ha].
    + apply (marks_only_is_marked m2); [done|].
      apply (marks_only_is_marked (mark_entry a0 ent0 s (log_read rs re s m))); [done|].
      apply is_marked_true. eexists. split; [simpl; apply lookup_insert_eq|done].
    + destruct (marks_only_lookup m m2 a ent Hm02 He) as (ent' & He' & Hp' & _).
      apply (IH (K ++ [a0]) m2 fuel s r Hl') with (ent := ent'); try done.
      * by eapply marks_only_registry.
      * destruct Hcur as [?|?]; [by left|right; by rewrite Hmem2].
      * rewrite Hp', Hmem2. done.
  - rewrite Hnx in Hrun.
    destruct (proj2 (gc_mark_frame fuel) _ _ _ _ _ _ _ Hrun) as (Hm23 & _).
    apply elem_of_cons in Ha as [->|Ha].
    + apply (marks_only_is_marked (log_read rs re s m)); [done|].
      apply is_marked_true. exists ent0. split; [done|].
      rewrite He0 in He. injection He as <-.
      apply andb_false_iff in Hc as [Hc|Hc].
      * apply Z.eqb_neq in Hc. done.
      * by apply negb_false_iff in Hc.
    + apply (IH (K ++ [a0]) (log_read rs re s m) fuel s r Hl') with (ent := ent); try done.
Qed.

(** One scan of a range whose cursor stays on the grid (no self-skip, or no
    self-tag on the grid): every record of the registry whose base is a word
    of the grid is marked when the scan is over. *)
Lemma gc_mark_range_finds rs re ct e fuel : forall m s m',
  registry m l ->
  gc_mark_range fuel m rs re s e ct = Some m' ->
  (ct = true -> forall i, 0 <= i -> s + 8 * i <= e ->
     skip_tags (mem m) (s + 8 * i) = s + 8 * i) ->
  forall i a ent, 0 <= i -> s + 8 * i <= e -> a ∈ l -> entries m !! a = Some ent ->
    ptr ent = read_word (mem m) (s + 8 * i) -> is_marked m' a = true.
Proof.
  induction fuel as [|fuel IH]; intros m s m' Hreg Hrun Htag i a ent Hi Hle Ha He Hp; [done|].
  rewrite gc_mark_range_S in Hrun.
  assert (E : (s <=? e) = true) by (apply Z.leb_le; lia). rewrite E in Hrun.
  destruct (gc_mark_entries fuel m rs re (head (state m)) s ct) as [r|] eqn:Er; [|done].
  simpl in Hrun.
  assert (Hhd : head (state m) = hd 0 l).
  { unfold registry in Hreg. destruct l; simpl in Hreg; [done|].
    by destruct Hreg as (-> & _). }
  rewrite Hhd in Er.
  assert (Hcur : ct = false \/ skip_tags (mem m) s = s).
  { destruct ct; [right|by left]. specialize (Htag eq_refl 0 ltac:(lia)).
    replace (s + 8 * 0) with s in Htag by lia. apply Htag. lia. }
  destruct (proj2 (gc_mark_frame fuel) _ _ _ _ _ _ _ Er) as (Hm1 & _ & Hr2).
  rewrite (Hr2 Hcur) in Hrun.
  destruct (proj1 (gc_mark_frame fuel) _ _ _ _ _ _ _ Hrun) as (Hm2 & _).
  pose proof Hm1 as (_ & Hmem1 & _).
  destruct (decide (i = 0)) as [->|Hi0].
  - apply (marks_only_is_marked r.1); [done|].
    replace (s + 8 * 0) with s in Hp by lia.
    by apply (gc_mark_entries_finds rs re ct l [] m fuel s r eq_refl Hreg Er Hcur a ent).
  - destruct (marks_only_lookup m r.1 a ent Hm1 He) as (ent' & He' & Hp' & _).
    apply (IH r.1 (s + sizeof_ptr) m') with (i := i - 1) (ent := ent'); try done.
    + by eapply marks_only_registry.
    + intros Hct j Hj Hjle. rewrite Hmem1. unfold sizeof_ptr in *.
      replace (s + 8 + 8 * j) with (s + 8 * (j + 1)) in * by lia.
      apply Htag; [done|lia|done].
    + lia.
    + unfold sizeof_ptr. lia.
    + rewrite Hp', Hmem1, Hp. f_equal. unfold sizeof_ptr. lia.
Qed.

End MarkFinds.

(** ** gc_mark: the payload of every newly marked record is followed *)

Section MarkTransitive.

Variable l : list Z.

Lemma marks_only_lookup_rev m m' a ent' :
  marks_only m m' -> entries m' !! a = Some ent' ->
  exists ent, entries m !! a = Some ent /\ ptr ent' = ptr ent /\ size ent' = size ent /\
              (reachable ent = true -> reachable ent' = true).
Proof.
  intros (_ & _ & _ & Hle & Hnone) He'.
  destruct (entries m !! a) as [ent|] eqn:He.
  - destruct (Hle a ent He) as (e2 & He2 & Hp & Hs & _ & _ & Heq).
    rewrite He' in He2. injection He2 as <-. exists ent.
    repeat split; try done. intros Hr. by rewrite (Heq Hr).
  - rewrite (Hnone a He) in He'. done.
Qed.

Lemma payload_followed_marks_only m m' p sz :
  marks_only m m' -> payload_followed l m p sz -> payload_followed l m' p sz.
Proof.
  intros Hm Hf i a2 ent2' Hi Hle Ha He' Hp.
  destruct (marks_only_lookup_rev m m' a2 ent2' Hm He') as (ent2 & He & Hp2 & _ & Hr).
  apply Hr. apply (Hf i a2 ent2 Hi Hle Ha He).
  destruct Hm as (_ & Hmem & _). rewrite <- Hp2, Hp, Hmem. done.
Qed.

Lemma not_tagged_grid f p sz :
  ~ tagged f p (p + sz) ->
  forall i, 0 <= i -> p + 8 * i <= p + sz - sizeof_ptr ->
    skip_tags f (p + 8 * i) = p + 8 * i.
Proof.
  intros Ht i Hi Hle. unfold sizeof_ptr in Hle.
  destruct (decide (skip_tags f (p + 8 * i) = p + 8 * i)) as [|Hne]; [done|].
  exfalso. apply Ht. exists i. repeat split; [done|lia|done].
Qed.

(** A record that a call of [gc_mark] marks has had its payload scanned
    before the call returns: if that payload shows no self-tag, every
    record whose base is one of its words is marked too. *)
Lemma gc_mark_transitive fuel :
  (forall m rs re s e ct m',
     registry m l -> gc_mark_range fuel m rs re s e ct = Some m' ->
     forall e1 ent1, entries m !! e1 = Some ent1 -> reachable ent1 = false ->
       is_marked m' e1 = true ->
       ~ tagged (mem m) (ptr ent1) (ptr ent1 + size ent1) ->
       payload_followed l m' (ptr ent1) (size ent1)) /\
  (forall m rs re a s ct r,
     registry m l -> gc_mark_entries fuel m rs re a s ct = Some r ->
     forall e1 ent1, entries m !! e1 = Some ent1 -> reachable ent1 = false ->
       is_marked r.1 e1 = true ->
       ~ tagged (mem m) (ptr ent1) (ptr ent1 + size ent1) ->
       payload_followed l r.1 (ptr ent1) (size ent1)).
Proof.
  induction fuel as [|fuel [IHr IHe]]; [split; intros; done|]. split.
  - intros m rs re s e ct m' Hreg Hrun e1 ent1 He1 Hr1 Hmk Htag.
    rewrite gc_mark_range_S in Hrun. destruct (s <=? e).
    2:{ injection Hrun as <-. apply is_marked_true in Hmk as (x & Hx & Hrx). congruence. }
    destruct (gc_mark_entries fuel m rs re (head (state m)) s ct) as [r|] eqn:Er; [|done].
    simpl in Hrun.
    destruct (proj2 (gc_mark_frame fuel) _ _ _ _ _ _ _ Er) as (Hm1 & _).
    destruct (proj1 (gc_mark_frame fuel) _ _ _ _ _ _ _ Hrun) as (Hm2 & _).
    destruct (is_marked r.1 e1) eqn:Hmid.
    + apply (payload_followed_marks_only r.1); [done|].
      by apply (IHe _ _ _ _ _ _ _ Hreg Er e1 ent1).
    + destruct (marks_only_lookup m r.1 e1 ent1 Hm1 He1) as (ent1' & He1' & Hp & Hs).
      pose proof Hm1 as (_ & Hmem1 & _).
      rewrite <- Hp, <- Hs.
      apply (IHr _ _ _ _ _ _ _ (marks_only_registry _ _ _ Hm1 Hreg) Hrun e1 ent1'); try done.
      * destruct (reachable ent1') eqn:E; [|done].
        assert (is_marked r.1 e1 = true) by (apply is_marked_true; by exists ent1').
        congruence.
      * by rewrite Hp, Hs, Hmem1.
  - intros m rs re a s ct r Hreg Hrun e1 ent1 He1 Hr1 Hmk Htag.
    destruct (decide (a = 0)) as [->|Ha].
    { rewrite gc_mark_entries_null in Hrun. injection Hrun as <-.
      apply is_marked_true in Hmk as (x & Hx & Hrx). simpl in Hx. congruence. }
    destruct (entries m !! a) as [ent|] eqn:He.
    2:{ simpl in Hrun. apply Z.eqb_neq in Ha. rewrite Ha, He in Hrun. done. }
    remember (if ct then skip_tags (mem m) s else s) as s1 eqn:Es1.
    rewrite (gc_mark_entries_S fuel m rs re a s ct ent s1 Ha He Es1) in Hrun.
    pose proof (marks_only_log_read m rs re s1) as Hm0.
    destruct ((ptr ent =? read_word (mem m) s1) && negb (reachable ent)) eqn:Hc.
    + apply andb_true_iff in Hc as [_ Hr%negb_true_iff].
      destruct (marks_only_mark (log_read rs re s1 m) a ent s1 He Hr) as [Hm1 _].
      remember (mark_entry a ent s1 (log_read rs re s1 m)) as m1 eqn:Em1.
      assert (Hm01 : marks_only m m1) by (eapply marks_only_trans; [exact Hm0|exact Hm1]).
      assert (Hreg1 : registry m1 l) by (by eapply marks_only_registry).
      assert (Hmem1 : mem m1 = mem m) by (by rewrite Em1).
      destruct (gc_mark_range fuel m1 _ _ _ _ true) as [m2|] eqn:Er; [|done].
      simpl in Hrun. destruct (proj1 (gc_mark_frame fuel) _ _ _ _ _ _ _ Er) as (Hm12 & _).
      destruct (entries m2 !! a) as [ent2|] eqn:He2; [|done]. simpl in Hrun.
      destruct (proj2 (gc_mark_frame fuel) _ _ _ _ _ _ _ Hrun) as (Hm23 & _).
      assert (Hreg2 : registry m2 l) by (by eapply marks_only_registry).
      pose proof Hm12 as (_ & Hmem12 & _).
      destruct (decide (e1 = a)) as [->|Hne].
      * rewrite He in He1. injection He1 as <-.
        apply (payload_followed_marks_only m2); [done|].
        intros i a2 ent2' Hi Hle Ha2 He2' Hp2.
        destruct (marks_only_lookup_rev m1 m2 a2 ent2' Hm12 He2')
          as (x & Hx & Hpx & _ & _).
        assert (Hmk2 : is_marked m2 a2 = true).
        { apply (gc_mark_range_finds l (ptr ent) (ptr ent + size ent) true
                   (ptr ent + size ent - sizeof_ptr) fuel m1 (ptr ent) m2 Hreg1 Er)
            with (i := i) (ent := x); try done.
          - intros _. rewrite Hmem1. by apply not_tagged_grid.
          - unfold sizeof_ptr. lia.
          - rewrite <- Hpx, Hp2, Hmem12. done. }
        apply is_marked_true in Hmk2 as (y & Hy & Hry). congruence.
      * assert (He1' : entries m1 !! e1 = Some ent1).
        { rewrite Em1. simpl. by rewrite lookup_insert_ne. }
        destruct (is_marked m2 e1) eqn:Hmid.
        -- apply (payload_followed_marks_only m2); [done|].
           apply (IHr _ _ _ _ _ _ _ Hreg1 Er e1 ent1); try done. by rewrite Hmem1.
        -- destruct (marks_only_lookup m1 m2 e1 ent1 Hm12 He1') as (x & Hx & Hp & Hs).
           rewrite <- Hp, <- Hs.
           apply (IHe _ _ _ _ _ _ _ Hreg2 Hrun e1 x); try done.
           ++ destruct (reachable x) eqn:E; [|done].
              assert (is_marked m2 e1 = true) by (apply is_marked_true; by exists x).
              congruence.
           ++ by rewrite Hp, Hs, Hmem12, Hmem1.
    + apply (IHe _ _ _ _ _ _ _ (marks_only_registry _ _ _ Hm0 Hreg) Hrun e1 ent1); done.
Qed.

End MarkTransitive.

(** ** _gc_collect: the cycle, step by step *)

Section CollectSteps.

Lemma scan_if_total (b : bool) m l s e ct :
  registry m l ->
  exists f0 m',
    (forall fuel, (f0 <= fuel)%nat -> scan_if b fuel m s e ct = Some m') /\
    marks_only m m'.
Proof.
  intros Hreg. destruct b.
  - apply (gc_mark_terminates m l s e ct Hreg).
  - exists 0%nat, m. split; [done|apply marks_only_refl].
Qed.

Lemma gc_mark_heaps_total heaps : forall m l,
  registry m l ->
  exists f0 m',
    (forall fuel, (f0 <= fuel)%nat -> gc_mark_heaps fuel heaps m = Some m') /\
    marks_only m m'.
Proof.
  induction heaps as [|h heaps IH]; intros m l Hreg.
  - exists 0%nat, m. split; [done|apply marks_only_refl].
  - destruct (gc_mark_terminates m l (start h) (end_ h) true Hreg)
      as (f1 & m1 & Hrun1 & Hm1).
    destruct (IH m1 l (marks_only_registry _ _ _ Hm1 Hreg)) as (f2 & m2 & Hrun2 & Hm2).
    exists (max f1 f2), m2. split; [|eapply marks_only_trans; [exact Hm1|exact Hm2]].
    intros fuel Hf. simpl. rewrite Hrun1 by lia. simpl. apply Hrun2. lia.
Qed.

(** From a well-formed registry a cycle always runs to its end. *)
Lemma gc_collect_steps m l o :
  registry m l ->
  exists n m1 m2 m3 m4 m5 m', collect_steps m l o n m1 m2 m3 m4 m5 m'.
Proof.
  intros Hreg.
  set (ma := with_log (EvCollect :: log m) m).
  assert (Hrega : registry ma l) by done.
  assert (Hhd : forall m0, registry m0 l -> head (state m0) = hd 0 l).
  { intros m0 H0. unfold registry in H0. destruct l; simpl in H0; [done|].
    by destruct H0 as (-> & _). }
  destruct (gc_collect_reset_spec (gp_registers o) l [] ma (S (length l)) Hrega ltac:(lia))
    as (m1 & Hrun1 & Hreg1 & Hst1 & Hmem1 & Hlive1 & Hlog1 & Hin1 & Hout1).
  simpl in Hreg1.
  destruct (scan_if_total (flag_set m GC_SCAN_STACK) m1 l
              (gc_current_stack_top o) (stack_start (state m)) false Hreg1)
    as (f2 & m2 & Hrun2 & Hm2).
  assert (Hreg2 : registry m2 l) by (by eapply marks_only_registry).
  destruct (scan_if_total (flag_set m GC_SCAN_DATA_SECTION) m2 l
              (start (data (state m))) (end_ (data (state m))) false Hreg2)
    as (f3 & m3 & Hrun3 & Hm3).
  assert (Hreg3 : registry m3 l) by (by eapply marks_only_registry).
  destruct (scan_if_total (flag_set m GC_SCAN_BSS_SECTION) m3 l
              (start (bss (state m))) (end_ (bss (state m))) false Hreg3)
    as (f4 & m4 & Hrun4 & Hm4).
  assert (Hreg4 : registry m4 l) by (by eapply marks_only_registry).
  assert (Hheaps : exists f5 m5,
            (forall fuel, (f5 <= fuel)%nat ->
               (if flag_set m GC_SCAN_HEAPS then gc_mark_heaps fuel (heap_regions o) m4
                else Some m4) = Some m5) /\ marks_only m4 m5).
  { destruct (flag_set m GC_SCAN_HEAPS).
    - apply (gc_mark_heaps_total (heap_regions o) m4 l Hreg4).
    - exists 0%nat, m4. split; [done|apply marks_only_refl]. }
  destruct Hheaps as (f5 & m5 & Hrun5 & Hm5).
  assert (Hreg5 : registry m5 l) by (by eapply marks_only_registry).
  assert (Hd : forall e e', payload_of e = payload_of e' ->
            negb (reachable e) = negb (reachable e')).
  { intros e e' H. unfold payload_of in H. by injection H as _ _ -> _. }
  destruct (remove_loop_spec _ Hd l [] m5 (S (length l)) Hreg5 ltac:(lia))
    as (m' & Hrun6 & Hreg' & Hgone & Hkept & Hfreed & Hlive & _ & Hmem' & Hlog' & Hst').
  simpl in Hreg'.
  pose proof Hm2 as (Hst2 & _). pose proof Hm3 as (Hst3 & _).
  pose proof Hm4 as (Hst4 & _).
  exists (max (S (length l)) (max f2 (max f3 (max f4 f5)))), m1, m2, m3, m4, m5, m'.
  split; try done.
  - intros fuel Hf. unfold _gc_collect. fold ma. rewrite (Hhd ma Hrega).
    rewrite (gc_collect_reset_mono _ _ _ _ _ fuel Hrun1) by lia. simpl.
    unfold flag_set in *. rewrite Hst1. simpl.
    specialize (Hrun2 fuel ltac:(lia)). unfold scan_if in Hrun2. rewrite Hrun2. simpl.
    rewrite Hst2, Hst1. simpl.
    specialize (Hrun3 fuel ltac:(lia)). unfold scan_if in Hrun3. rewrite Hrun3. simpl.
    rewrite Hst3, Hst2, Hst1. simpl.
    specialize (Hrun4 fuel ltac:(lia)). unfold scan_if in Hrun4. rewrite Hrun4. simpl.
    rewrite Hst4, Hst3, Hst2, Hst1. simpl.
    rewrite Hrun5 by lia. simpl.
    unfold gc_sweep. rewrite gc_sweep_loop_remove, (Hhd m5 Hreg5).
    apply (remove_loop_mono _ _ _ _ _ fuel Hrun6). lia.
  - intros fuel Hf. apply Hrun2. lia.
  - intros fuel Hf. apply Hrun3. lia.
  - intros fuel Hf. apply Hrun4. lia.
  - intros fuel Hf. apply Hrun5. lia.
  - intros a ent Ha He Hr. eapply Hfreed; [done|done|]. by rewrite Hr.
  - intros p0 Hp. apply Hlive. intros a ent Ha He Hr%negb_true_iff. by eapply Hp.
Qed.

End CollectSteps.

Section CollectFacts.

Context {m : machine} {l : list Z} {o : oracle} {n : nat} {m1 m2 m3 m4 m5 m' : machine}.
Hypothesis steps : collect_steps m l o n m1 m2 m3 m4 m5 m'.

Lemma steps_m15 : marks_only m1 m5.
Proof.
  eapply marks_only_trans; [exact (cs_m12 _ _ _ _ _ _ _ _ _ _ steps)|].
  eapply marks_only_trans; [exact (cs_m23 _ _ _ _ _ _ _ _ _ _ steps)|].
  eapply marks_only_trans; [exact (cs_m34 _ _ _ _ _ _ _ _ _ _ steps)|].
  exact (cs_m45 _ _ _ _ _ _ _ _ _ _ steps).
Qed.


Lemma steps_mem5 : mem m5 = mem m.
Proof.
  destruct steps_m15 as (_ & Hmem & _).
  rewrite Hmem. exact (cs_reset_mem _ _ _ _ _ _ _ _ _ _ steps).
Qed.










Lemma steps_m14 : marks_only m1 m4.
Proof.
  eapply marks_only_trans; [exact (cs_m12 _ _ _ _ _ _ _ _ _ _ steps)|].
  eapply marks_only_trans; [exact (cs_m23 _ _ _ _ _ _ _ _ _ _ steps)|].
  exact (cs_m34 _ _ _ _ _ _ _ _ _ _ steps).
Qed.

Lemma steps_m13 : marks_only m1 m3.
Proof.
  eapply marks_only_trans; [exact (cs_m12 _ _ _ _ _ _ _ _ _ _ steps)|].
  exact (cs_m23 _ _ _ _ _ _ _ _ _ _ steps).
Qed.



End CollectFacts.

Section ScanFinds.

Variable l : list Z.



End ScanFinds.

Section CollectRoots.

Context {m : machine} {l : list Z} {o : oracle} {n : nat} {m1 m2 m3 m4 m5 m' : machine}.
Hypothesis steps : collect_steps m l o n m1 m2 m3 m4 m5 m'.








End CollectRoots.

Module Collect.











(** X4. Garbage of any shape goes in one cycle.  Let [B] be a set of
    bases such that no scanned register holds one of them, no word
    position of an enabled root range holds one of them, and no word
    position of the payload of a record whose base is outside [B] holds one
    of them (and these payloads and the scanned heap regions show no
    self-tag).  Then the cycle terminates and every record whose base is in
    [B] is unlinked, deleted and its block freed, whatever the records of
    [B] hold themselves.  Premises on memory: every record tracks an
    allocated block whose base is not null ([payloads_allocated]) and no
    scanned range ends below the first word ([roots_proper]). *)
Theorem unreferenced_set_is_reclaimed
    (B : Z -> Prop) (m : machine) (l : list Z) (o : oracle) :
  registry m l -> payloads_allocated m -> roots_proper m o ->
  roots_quiet B (mem m) m o -> payloads_quiet B (mem m) m ->
  exists n m' l',
    (forall fuel, (n <= fuel)%nat -> _gc_collect fuel m o = Some m') /\
    registry m' l' /\
    forall x ent, x ∈ l -> entries m !! x = Some ent -> B (ptr ent) ->
      entries m' !! x = None /\ live m' !! ptr ent = None /\ (x ∉ l').
Proof.
  intros Hreg _ _ Hroots Hpay.
  exact (gc_collect_reclaims B (mem m) m l o Hreg eq_refl Hroots Hpay).
Qed.

Lemma three_roots_quiet : roots_quiet (fun v => v = 8320) (mem three) three snapshot.
Proof.
  split; [|split; [|split; [|split]]].
  - intros Hf. vm_compute in Hf. discriminate Hf.
  - intros _ i Hi Hle. split; [done|]. intros Heq.
    change (1000 + 8 * i <= 1032 - 8) in Hle.
    assert (i = 0 \/ i = 1 \/ i = 2 \/ i = 3) as [-> | [-> | [-> | ->]]]
      by (clear Heq; lia);
      vm_compute in Heq; discriminate Heq.
  - intros _ i Hi Hle. split; [done|]. intros Heq.
    change (3000 + 8 * i <= 3016 - 8) in Hle.
    assert (i = 0 \/ i = 1) as [-> | ->] by (clear Heq; lia);
      vm_compute in Heq; discriminate Heq.
  - intros _ i Hi Hle. split; [done|]. intros Heq.
    change (3016 + 8 * i <= 3032 - 8) in Hle.
    assert (i = 0 \/ i = 1) as [-> | ->] by (clear Heq; lia);
      vm_compute in Heq; discriminate Heq.
  - intros Hf. vm_compute in Hf. discriminate Hf.
Qed.

Lemma three_payloads_quiet : payloads_quiet (fun v => v = 8320) (mem three) three.
Proof.
  intros x ent Hx Hb i Hi Hle.
  assert (Hsz : size ent = 8 /\ (ptr ent = 8192 \/ ptr ent = 8256 \/ ptr ent = 8320)).
  { change (entries three) with
      (<[5128 := mk_gc_entry 8320 8 false 0 5064 0]>
         (<[5064 := mk_gc_entry 8256 8 false 0 5000 5128]>
            (<[5000 := mk_gc_entry 8192 8 false 0 0 5064]> (∅ : gmap Z gc_entry)))) in Hx.
    destruct (decide (x = 5128)) as [->|N1].
    { rewrite lookup_insert_eq in Hx. injection Hx as <-. simpl. tauto. }
    rewrite lookup_insert_ne in Hx by done.
    destruct (decide (x = 5064)) as [->|N2].
    { rewrite lookup_insert_eq in Hx. injection Hx as <-. simpl. tauto. }
    rewrite lookup_insert_ne in Hx by done.
    destruct (decide (x = 5000)) as [->|N3].
    { rewrite lookup_insert_eq in Hx. injection Hx as <-. simpl. tauto. }
    rewrite lookup_insert_ne in Hx by done. done. }
  destruct Hsz as (Hs & Hp). rewrite Hs in Hle. assert (i = 0) as -> by lia.
  destruct Hp as [-> | [-> | ->]]; [| |done];
    (split; [intros _; vm_compute; reflexivity|intros Heq; vm_compute in Heq; discriminate Heq]).
Qed.

Lemma unreferenced_set_is_reclaimed_witness :
  exists n m' l',
    (forall fuel, (n <= fuel)%nat -> _gc_collect fuel three snapshot = Some m') /\
    registry m' l' /\
    forall x ent, x ∈ [5128; 5064; 5000] -> entries three !! x = Some ent ->
      ptr ent = 8320 ->
      entries m' !! x = None /\ live m' !! ptr ent = None /\ (x ∉ l').
Proof.
  apply (unreferenced_set_is_reclaimed (fun v => v = 8320) three [5128; 5064; 5000] snapshot).
  - exact three_registry.
  - by apply three_payloads_allocated.
  - by apply linux_roots_proper.
  - exact three_roots_quiet.
  - exact three_payloads_quiet.
Defined.

End Collect.

(** ** gc_destroy *)

Section DestroyLoop.

Lemma gc_destroy_loop_spec R : forall pv hd m fuel,
  seg (entries m) pv hd R 0 -> (length R < fuel)%nat ->
  exists m',
    gc_destroy_loop fuel hd m = Some m' /\
    (forall a, a ∈ R -> entries m' !! a = None) /\
    (forall a, a ∉ R -> entries m' !! a = entries m !! a) /\
    (forall a ent, a ∈ R -> entries m !! a = Some ent -> live m' !! ptr ent = None) /\
    (forall p, (forall a ent, a ∈ R -> entries m !! a = Some ent -> ptr ent <> p) ->
       live m' !! p = live m !! p) /\
    (forall p, live m !! p = None -> live m' !! p = None) /\
    mem m' = mem m /\ log m' = log m /\ state m' = state m.
Proof.
  induction R as [|e R IH]; intros pv hd m fuel Hseg Hfuel.
  - simpl in Hseg. subst hd. destruct fuel as [|fuel]; [simpl in Hfuel; lia|].
    exists m. simpl. repeat split; try done.
    + intros a Ha. by apply elem_of_nil in Ha.
    + intros a ent Ha. by apply elem_of_nil in Ha.
  - destruct fuel as [|fuel]; [simpl in Hfuel; lia|]. simpl in Hfuel.
    pose proof (seg_NoDup _ _ _ _ Hseg) as Hnd. apply NoDup_cons in Hnd as (HeR & HndR).
    simpl in Hseg. destruct Hseg as (-> & Hne & ent & He & Hpv & Hseg).
    simpl. apply Z.eqb_neq in Hne as Hne'. rewrite Hne', He. simpl.
    set (m1 := with_entries (delete e (entries (with_live (delete (ptr ent) (live m)) m)))
                 (with_live (delete (ptr ent) (live m)) m)).
    assert (Hseg1 : seg (entries m1) e (next ent) R 0).
    { eapply seg_ext; [|exact Hseg]. intros a x Ha Hx. exists x. split; [|done].
      simpl. rewrite lookup_delete_ne; [done|]. intros ->. done. }
    destruct (IH e (next ent) m1 fuel Hseg1 ltac:(lia))
      as (m' & Hrun & Hgone & Hout & Hfreed & Hlive & Hdead & Hmem & Hlog & Hst).
    exists m'. split; [exact Hrun|].
    split.
    { intros a [-> | Ha]%elem_of_cons; [|by apply Hgone].
      rewrite (Hout e HeR). simpl. apply lookup_delete_eq. }
    split.
    { intros a Ha. apply not_elem_of_cons in Ha as (Hae & Ha).
      rewrite (Hout a Ha). simpl. by rewrite lookup_delete_ne. }
    split.
    { intros a x [-> | Ha]%elem_of_cons Hx.
      - rewrite He in Hx. injection Hx as <-. apply Hdead. simpl. apply lookup_delete_eq.
      - apply (Hfreed a x Ha). simpl. rewrite lookup_delete_ne; [done|]. intros ->. done. }
    split.
    { intros p Hp. rewrite Hlive.
      - simpl. rewrite lookup_delete_ne; [done|]. apply (Hp e ent); [|done].
        apply elem_of_cons. by left.
      - intros a x Ha Hx. simpl in Hx.
        rewrite lookup_delete_ne in Hx by (intros ->; done).
        apply (Hp a x); [|done]. apply elem_of_cons. by right. }
    split.
    { intros p Hp. apply Hdead. simpl. destruct (decide (ptr ent = p)) as [->|Hne2].
      - apply lookup_delete_eq.
      - by rewrite lookup_delete_ne. }
    done.
Qed.

End DestroyLoop.

Module Destroy.

(** X5. [gc_destroy] on a well-formed registry terminates and releases
    every record of the registry and the block of every record, marked or
    not; records outside the registry, blocks that are the base of no
    record, the memory and the trace are untouched.  If every allocated
    block was the base of a record, no block is left allocated; if the
    registry held every record, no record is left. *)
Theorem gc_destroy_releases_everything (m : machine) (l : list Z) (fuel : nat) :
  registry m l -> (length l < fuel)%nat ->
  exists m',
    gc_destroy fuel m = Some m' /\
    (forall a, a ∈ l -> entries m' !! a = None) /\
    (forall a, a ∉ l -> entries m' !! a = entries m !! a) /\
    (forall a ent, a ∈ l -> entries m !! a = Some ent -> live m' !! ptr ent = None) /\
    (forall p, (forall a ent, a ∈ l -> entries m !! a = Some ent -> ptr ent <> p) ->
       live m' !! p = live m !! p) /\
    mem m' = mem m /\ log m' = log m /\
    ((forall p, is_Some (live m !! p) ->
        exists a ent, a ∈ l /\ entries m !! a = Some ent /\ ptr ent = p) -> live m' = ∅) /\
    ((forall a, is_Some (entries m !! a) -> a ∈ l) -> entries m' = ∅).
Proof.
  intros Hreg Hfuel. unfold gc_destroy.
  destruct (gc_destroy_loop_spec l 0 (head (state m)) m fuel Hreg Hfuel)
    as (m' & Hrun & Hgone & Hout & Hfreed & Hlive & Hdead & Hmem & Hlog & Hst).
  exists m'. split; [exact Hrun|]. split; [exact Hgone|]. split; [exact Hout|].
  split; [exact Hfreed|]. split; [exact Hlive|]. split; [exact Hmem|]. split; [exact Hlog|].
  split.
  - intros Hall. apply map_eq. intros p. rewrite lookup_empty.
    destruct (live m !! p) as [sz|] eqn:E; [|by apply Hdead].
    destruct (Hall p) as (a & ent & Ha & He & <-); [by rewrite E|].
    by apply (Hfreed a ent).
  - intros Hall. apply map_eq. intros a. rewrite lookup_empty.
    destruct (decide (a ∈ l)) as [Ha|Ha]; [by apply Hgone|].
    rewrite (Hout a Ha). destruct (entries m !! a) as [x|] eqn:E; [|done].
    exfalso. apply Ha. apply Hall. by rewrite E.
Qed.

Lemma gc_destroy_releases_everything_witness :
  exists m',
    gc_destroy 4 marked_ends = Some m' /\
    (forall a, a ∈ [5128; 5064; 5000] -> entries m' !! a = None) /\
    (forall a, a ∉ [5128; 5064; 5000] -> entries m' !! a = entries marked_ends !! a) /\
    (forall a ent, a ∈ [5128; 5064; 5000] -> entries marked_ends !! a = Some ent ->
       live m' !! ptr ent = None) /\
    (forall p, (forall a ent, a ∈ [5128; 5064; 5000] -> entries marked_ends !! a = Some ent ->
                  ptr ent <> p) ->
       live m' !! p = live marked_ends !! p) /\
    mem m' = mem marked_ends /\ log m' = log marked_ends /\
    ((forall p, is_Some (live marked_ends !! p) ->
        exists a ent, a ∈ [5128; 5064; 5000] /\ entries marked_ends !! a = Some ent /\
                      ptr ent = p) -> live m' = ∅) /\
    ((forall a, is_Some (entries marked_ends !! a) -> a ∈ [5128; 5064; 5000]) ->
       entries m' = ∅).
Proof.
  apply (gc_destroy_releases_everything marked_ends [5128; 5064; 5000] 4).
  - unfold registry. simpl.
    repeat (split; [done|]; split; [done|]; eexists; split; [reflexivity|]; split; [done|]; simpl).
    done.
  - simpl. lia.
Defined.

End Destroy.

(** ** gc_alloc: the success path *)

Section AllocLink.

Variables (m : machine) (l : list Z) (sz : Z) (init : bool) (o : oracle).

Hypothesis Hreg : registry m l.
Hypothesis Hp : malloc_payload o <> 0.
Hypothesis Hnew : malloc_entry o <> 0.
Hypothesis Hfresh : entries m !! malloc_entry o = None.

Lemma registry_head : head (state m) = hd 0 l.
Proof.
  unfold registry in Hreg. destruct l; simpl in Hreg; [done|]. by destruct Hreg as (-> & _).
Qed.

Lemma fresh_not_in : malloc_entry o ∉ l.
Proof.
  intros Hin. destruct (seg_lookup _ _ _ _ _ _ Hreg Hin) as [x Hx]. congruence.
Qed.

(** Up to the test of the threshold, a successful gc_alloc has put the new
    record in front of the registry; of the old records only the first one
    is written to (its [prev]). *)
Lemma gc_alloc_link :
  exists mi,
    (forall fuel, gc_alloc fuel m sz init o =
       m' ← (if collect_due (state mi) then _gc_collect fuel mi o else Some mi);
       Some (m', malloc_payload o)) /\
    registry mi (malloc_entry o :: l) /\
    entries mi !! malloc_entry o =
      Some (mk_gc_entry (malloc_payload o) sz false (raw_reach_addr o) (hd 0 l) 0) /\
    (forall a, a <> malloc_entry o -> a ∉ take 1 l -> entries mi !! a = entries m !! a) /\
    (forall a, a ∈ take 1 l ->
       entries mi !! a = set_prev (malloc_entry o) <$> entries m !! a) /\
    live mi = <[malloc_payload o := sz]> (live m) /\
    mem mi = (if init then memset (mem m) (malloc_payload o) 0 sz else mem m) /\
    log mi = log m /\
    state mi = state_after_alloc (malloc_entry o) (state m).
Proof.
  pose proof registry_head as Hhd. pose proof fresh_not_in as Hnin.
  apply Z.eqb_neq in Hp as Hp'. apply Z.eqb_neq in Hnew as Hnew'.
  set (ent := mk_gc_entry (malloc_payload o) sz false (raw_reach_addr o) (hd 0 l) 0).
  set (f := if init then memset (mem m) (malloc_payload o) 0 sz else mem m).
  destruct l as [|h l0] eqn:El.
  - (* empty registry *)
    simpl in Hhd.
    exists (mk_machine (state_after_alloc (malloc_entry o) (state m))
              (<[malloc_entry o := ent]> (entries m)) f
              (<[malloc_payload o := sz]> (live m)) (log m)).
    split.
    { intros fuel. unfold gc_alloc. rewrite Hp', Hnew'.
      destruct init; simpl; rewrite Hhd; simpl; reflexivity. }
    split.
    { unfold registry. simpl. split; [done|]. split; [done|]. exists ent.
      rewrite lookup_insert_eq. done. }
    split; [simpl; by rewrite lookup_insert_eq|].
    split; [intros a Ha _; simpl; by rewrite lookup_insert_ne|].
    split; [intros a Ha; by apply elem_of_nil in Ha|].
    done.
  - (* the old first record gets its prev *)
    simpl in Hhd. unfold registry in Hreg.
    pose proof (seg_NoDup _ _ _ _ Hreg) as Hnd. apply NoDup_cons in Hnd as (Hh0 & Hnd0).
    simpl in Hreg. destruct Hreg as (_ & Hh & eh & Heh & Hpv & Hseg).
    assert (Hhn : h <> malloc_entry o) by (intros ->; congruence).
    apply Z.eqb_neq in Hh as Hh'.
    exists (mk_machine (state_after_alloc (malloc_entry o) (state m))
              (<[h := set_prev (malloc_entry o) eh]> (<[malloc_entry o := ent]> (entries m))) f
              (<[malloc_payload o := sz]> (live m)) (log m)).
    split.
    { intros fuel. unfold gc_alloc. rewrite Hp', Hnew'.
      destruct init; simpl; rewrite Hhd, Hh'; unfold store_prev; simpl;
        rewrite lookup_insert_ne by done; rewrite Heh; simpl; reflexivity. }
    split.
    { unfold registry. simpl. split; [done|]. split; [done|]. exists ent.
      split; [rewrite lookup_insert_ne by done; by rewrite lookup_insert_eq|].
      split; [done|]. simpl. split; [done|]. split; [done|].
      exists (set_prev (malloc_entry o) eh). split; [by rewrite lookup_insert_eq|].
      split; [done|]. simpl.
      eapply seg_ext; [|exact Hseg]. intros a x Ha Hx. exists x. split; [|done].
      rewrite !lookup_insert_ne; [done| |].
      - intros <-. apply Hnin. apply elem_of_cons. by right.
      - intros <-. done. }
    split; [simpl; rewrite lookup_insert_ne by done; by rewrite lookup_insert_eq|].
    split.
    { intros a Ha Hat. simpl. simpl in Hat. apply not_elem_of_cons in Hat as (Hah & _).
      by rewrite !lookup_insert_ne. }
    split.
    { intros a Ha. simpl in Ha. apply list_elem_of_singleton in Ha. subst a.
      simpl. by rewrite lookup_insert_eq, Heh. }
    done.
Qed.

End AllocLink.

Module AllocOk.

(** X6. A successful gc_alloc that starts no cycle: the call returns the
    payload address whatever the fuel, the new record (base, size,
    unmarked, no [prev]) is the new head of a well-formed registry in front
    of the old records, the old first record has been given the new record
    as [prev] and no other record is written to, the payload is allocated
    with the requested size, memory changes only by the zeroing of the
    payload when [init] is set, and the counter is one more, modulo 2^64. *)
Theorem gc_alloc_links_at_head
    (fuel : nat) (m : machine) (l : list Z) (sz : Z) (init : bool) (o : oracle) :
  registry m l -> malloc_payload o <> 0 -> malloc_entry o <> 0 ->
  entries m !! malloc_entry o = None ->
  collect_due (state_after_alloc (malloc_entry o) (state m)) = false ->
  exists m',
    gc_alloc fuel m sz init o = Some (m', malloc_payload o) /\
    registry m' (malloc_entry o :: l) /\
    entries m' !! malloc_entry o =
      Some (mk_gc_entry (malloc_payload o) sz false (raw_reach_addr o) (hd 0 l) 0) /\
    (forall a, a <> malloc_entry o -> a ∉ take 1 l -> entries m' !! a = entries m !! a) /\
    (forall a, a ∈ take 1 l ->
       entries m' !! a = set_prev (malloc_entry o) <$> entries m !! a) /\
    live m' = <[malloc_payload o := sz]> (live m) /\
    mem m' = (if init then memset (mem m) (malloc_payload o) 0 sz else mem m) /\
    log m' = log m /\
    state m' = state_after_alloc (malloc_entry o) (state m).
Proof.
  intros Hreg Hp Hnew Hfresh Hdue.
  destruct (gc_alloc_link m l sz init o Hreg Hp Hnew Hfresh)
    as (mi & Hrun & Hregi & Hent & Hout & Hfirst & Hlive & Hmem & Hlog & Hst).
  exists mi. split; [|done].
  rewrite Hrun, Hst, Hdue. reflexivity.
Qed.

Lemma gc_alloc_links_at_head_witness :
  exists m',
    gc_alloc 0 three 16 true both_succeed = Some (m', malloc_payload both_succeed) /\
    registry m' (malloc_entry both_succeed :: [5128; 5064; 5000]) /\
    entries m' !! malloc_entry both_succeed =
      Some (mk_gc_entry (malloc_payload both_succeed) 16 false (raw_reach_addr both_succeed)
              (hd 0 [5128; 5064; 5000]) 0) /\
    (forall a, a <> malloc_entry both_succeed -> a ∉ take 1 [5128; 5064; 5000] ->
       entries m' !! a = entries three !! a) /\
    (forall a, a ∈ take 1 [5128; 5064; 5000] ->
       entries m' !! a = set_prev (malloc_entry both_succeed) <$> entries three !! a) /\
    live m' = <[malloc_payload both_succeed := 16]> (live three) /\
    mem m' = (if true then memset (mem three) (malloc_payload both_succeed) 0 16
              else mem three) /\
    log m' = log three /\
    state m' = state_after_alloc (malloc_entry both_succeed) (state three).
Proof.
  apply (gc_alloc_links_at_head 0 three [5128; 5064; 5000] 16 true both_succeed).
  - exact three_registry.
  - vm_compute. discriminate.
  - vm_compute. discriminate.
  - reflexivity.
  - reflexivity.
Defined.



End AllocOk.

(** ** gc_free and gc_realloc: what a second call and an unknown address do *)

Section ApiLoops.

Lemma ptr_test_payload (p : Z) (e e' : gc_entry) :
  payload_of e = payload_of e' -> (ptr e =? p) = (ptr e' =? p).
Proof. intros H. unfold payload_of in H. by injection H as -> _ _ _. Qed.

(** Once [gc_free] has run for [p], no record has base [p]: a further
    traversal for [p] leaves the machine as it is. *)
Lemma gc_free_loop_settled (p : Z) (m : machine) (l : list Z) (fuel : nat) :
  registry m l -> (length l < fuel)%nat ->
  exists m',
    gc_free_loop fuel p (head (state m)) m = Some m' /\
    gc_free_loop fuel p (head (state m')) m' = Some m' /\
    registry m' (filter (fun a => other_base p m a = true) l).
Proof.
  intros Hreg Hfuel. rewrite !gc_free_loop_remove.
  rewrite (registry_head m l Hreg).
  destruct (remove_loop_spec _ (ptr_test_payload p) l [] m fuel Hreg Hfuel)
    as (m' & Hrun & Hreg' & Hgone & Hkept & _).
  simpl in Hreg'. exists m'. split; [exact Hrun|]. split; [|exact Hreg'].
  rewrite gc_free_loop_remove, (registry_head m' _ Hreg').
  apply (remove_loop_none _ (ptr_test_payload p) _ [] m' fuel Hreg').
  - eapply Nat.le_lt_trans; [apply length_filter|exact Hfuel].
  - intros a [Hk Ha]%list_elem_of_filter.
    rewrite (keeps_payloads _ (ptr_test_payload p) m m' a); [exact Hk|].
    apply Hkept. intros _. exact Hk.
Qed.

(** The search of [gc_realloc] over a registry without a record of base
    [p] arrives at the end: it returns null and has changed nothing. *)
Lemma gc_realloc_loop_no_match (p sz res : Z) (R : list Z) :
  forall (K : list Z) (m : machine) (fuel : nat),
  registry m (K ++ R) ->
  (forall a x, a ∈ R -> entries m !! a = Some x -> ptr x <> p) ->
  (length R < fuel)%nat ->
  gc_realloc_loop fuel p sz res (hd 0 R) m = Some (m, 0).
Proof.
  induction R as [|e R IH]; intros K m fuel Hreg Hnone Hfuel.
  - destruct fuel as [|fuel]; [simpl in Hfuel; lia|]. done.
  - destruct fuel as [|fuel]; [simpl in Hfuel; lia|]. simpl in Hfuel.
    pose proof Hreg as Hreg'. unfold registry in Hreg'.
    apply seg_app in Hreg' as (mid & _ & HR). simpl in HR.
    destruct HR as (-> & Hne & x & Hx & Hpv & HR).
    simpl. apply Z.eqb_neq in Hne as Hne'. rewrite Hne', Hx. simpl.
    assert (E : (ptr x =? p) = false).
    { apply Z.eqb_neq. eapply Hnone; [|done]. apply elem_of_cons. by left. }
    rewrite E.
    assert (Hnx : next x = hd 0 R).
    { destruct R as [|r R]; simpl in HR; [done|]. by destruct HR as (-> & _). }
    rewrite Hnx. apply (IH (K ++ [e])).
    + by rewrite <- app_assoc.
    + intros a y Ha. apply Hnone. apply elem_of_cons. by right.
    + lia.
Qed.

End ApiLoops.

Module Api.

(** X8. [gc_free] is idempotent: on a well-formed registry a second call
    with the same address finds no record to release and returns the
    machine the first call produced, whose registry is well formed. *)
Theorem gc_free_twice_is_gc_free_once (m : machine) (l : list Z) (p : Z) (fuel : nat) :
  registry m l -> (length l < fuel)%nat ->
  exists m' l',
    gc_free fuel m p = Some m' /\ gc_free fuel m' p = Some m' /\
    registry m' l' /\ sublist l' l.
Proof.
  intros Hreg Hfuel. unfold gc_free. destruct (p =? 0) eqn:Ep.
  - exists m, l. done.
  - destruct (gc_free_loop_settled p m l fuel Hreg Hfuel) as (m' & H1 & H2 & H3).
    exists m', (filter (fun a => other_base p m a = true) l).
    split; [done|]. split; [done|]. split; [done|]. apply sublist_filter.
Qed.

Lemma gc_free_twice_is_gc_free_once_witness :
  exists m' l',
    gc_free 4 three 8256 = Some m' /\ gc_free 4 m' 8256 = Some m' /\
    registry m' l' /\ sublist l' [5128; 5064; 5000].
Proof.
  apply (gc_free_twice_is_gc_free_once three [5128; 5064; 5000] 8256 4).
  - exact three_registry.
  - simpl. lia.
Defined.

(** X9. [gc_realloc] of a non-null address that is the base of no record,
    with a non-zero size: [realloc] is not called, the call returns null
    and the machine is unchanged. *)
Theorem gc_realloc_of_untracked_address
    (fuel : nat) (m : machine) (l : list Z) (p k : Z) (o : oracle) :
  registry m l -> p <> 0 -> k <> 0 ->
  (forall a x, a ∈ l -> entries m !! a = Some x -> ptr x <> p) ->
  (length l < fuel)%nat ->
  gc_realloc fuel m p k o = Some (m, 0).
Proof.
  intros Hreg Hp Hk Hnone Hfuel. unfold gc_realloc.
  apply Z.eqb_neq in Hp as ->. apply Z.eqb_neq in Hk as ->.
  rewrite (registry_head m l Hreg).
  exact (gc_realloc_loop_no_match p k (realloc_result o) l [] m fuel Hreg Hnone Hfuel).
Qed.

Lemma three_bases a x :
  a ∈ [5128; 5064; 5000] -> entries three !! a = Some x ->
  ptr x = 8320 \/ ptr x = 8256 \/ ptr x = 8192.
Proof.
  intros Ha Hx.
  repeat (apply elem_of_cons in Ha as [-> | Ha];
          [vm_compute in Hx; injection Hx as <-; simpl; tauto|]).
  by apply elem_of_nil in Ha.
Qed.

Lemma gc_realloc_of_untracked_address_witness :
  gc_realloc 4 three 9000 64 both_succeed = Some (three, 0).
Proof.
  apply (gc_realloc_of_untracked_address 4 three [5128; 5064; 5000] 9000 64 both_succeed).
  - exact three_registry.
  - lia.
  - lia.
  - intros a x Ha Hx. destruct (three_bases a x Ha Hx) as [-> | [-> | ->]]; lia.
  - simpl. lia.
Defined.

(** X10. [gc_realloc] of a tracked address with a positive size, when
    [realloc] succeeds: the call returns the address [realloc] answered;
    the first record whose base was [p] now has that address as its base
    and every other field as before, its [size] included; no other record
    is written to, so the registry keeps its shape; the old block is
    released, the new one is allocated with the requested size and holds
    the first bytes of the old one, up to the smaller of the two sizes. *)
Theorem gc_realloc_moves_the_block
    (fuel : nat) (m : machine) (p k : Z) (o : oracle)
    (K R : list Z) (e : Z) (ent : gc_entry) :
  registry m (K ++ e :: R) ->
  (forall a x, a ∈ K -> entries m !! a = Some x -> ptr x <> p) ->
  entries m !! e = Some ent -> ptr ent = p ->
  p <> 0 -> k <> 0 -> realloc_result o <> 0 ->
  (length K < fuel)%nat ->
  exists m',
    gc_realloc fuel m p k o = Some (m', realloc_result o) /\
    registry m' (K ++ e :: R) /\
    entries m' !! e =
      Some (mk_gc_entry (realloc_result o) (size ent) (reachable ent) (reach_addr ent)
              (next ent) (prev ent)) /\
    (forall a, a <> e -> entries m' !! a = entries m !! a) /\
    state m' = state m /\ log m' = log m /\
    live m' = <[realloc_result o := k]> (delete p (live m)) /\
    (forall j, 0 <= j < Z.min (default 0 (live m !! p)) k ->
       mem m' (realloc_result o + j) = mem m (p + j)) /\
    (forall x, ~ (realloc_result o <= x < realloc_result o + Z.min (default 0 (live m !! p)) k) ->
       mem m' x = mem m x).
Proof.
  intros Hreg Hnone He Hp Hp0 Hk Hres Hfuel. unfold gc_realloc.
  apply Z.eqb_neq in Hp0 as ->. apply Z.eqb_neq in Hk as ->.
  rewrite (registry_head m _ Hreg).
  rewrite (Realloc.gc_realloc_loop_first_match p k (realloc_result o) e ent R K [] m fuel);
    try done.
  eexists. split; [done|]. unfold realloc_effect.
  apply Z.eqb_neq in Hres as ->. simpl.
  split.
  { unfold registry. simpl. eapply seg_ext; [|exact Hreg].
    intros a x Ha Hx. destruct (decide (a = e)) as [->|Hae].
    - rewrite lookup_insert_eq. rewrite He in Hx. injection Hx as <-. by eexists.
    - rewrite lookup_insert_ne by done. by exists x. }
  split; [by rewrite lookup_insert_eq|].
  split; [intros a Ha; by rewrite lookup_insert_ne|].
  split; [done|]. split; [done|]. split; [done|]. split.
  - intros j Hj.
    assert (E : (realloc_result o <=? realloc_result o + j)
                && (realloc_result o + j <?
                    realloc_result o + Z.min (default 0 (live m !! p)) k) = true).
    { apply andb_true_iff. split; [apply Z.leb_le|apply Z.ltb_lt]; lia. }
    rewrite E. f_equal. lia.
  - intros x Hx.
    destruct ((realloc_result o <=? x)
              && (x <? realloc_result o + Z.min (default 0 (live m !! p)) k)) eqn:E; [|done].
    apply andb_true_iff in E as [?%Z.leb_le ?%Z.ltb_lt]. lia.
Qed.

Lemma gc_realloc_moves_the_block_witness :
  exists m',
    gc_realloc 4 three 8256 64 realloc_moves = Some (m', realloc_result realloc_moves) /\
    registry m' ([5128] ++ 5064 :: [5000]) /\
    entries m' !! 5064 =
      Some (mk_gc_entry (realloc_result realloc_moves)
              (size (mk_gc_entry 8256 8 false 0 5000 5128))
              (reachable (mk_gc_entry 8256 8 false 0 5000 5128))
              (reach_addr (mk_gc_entry 8256 8 false 0 5000 5128))
              (next (mk_gc_entry 8256 8 false 0 5000 5128))
              (prev (mk_gc_entry 8256 8 false 0 5000 5128))) /\
    (forall a, a <> 5064 -> entries m' !! a = entries three !! a) /\
    state m' = state three /\ log m' = log three /\
    live m' = <[realloc_result realloc_moves := 64]> (delete 8256 (live three)) /\
    (forall j, 0 <= j < Z.min (default 0 (live three !! 8256)) 64 ->
       mem m' (realloc_result realloc_moves + j) = mem three (8256 + j)) /\
    (forall x, ~ (realloc_result realloc_moves <= x <
                  realloc_result realloc_moves + Z.min (default 0 (live three !! 8256)) 64) ->
       mem m' x = mem three x).
Proof.
  apply (gc_realloc_moves_the_block 4 three 8256 64 realloc_moves
           [5128] [5000] 5064 (mk_gc_entry 8256 8 false 0 5000 5128)).
  - exact three_registry.
  - intros a x Ha Hx. apply list_elem_of_singleton in Ha. subst a.
    vm_compute in Hx. injection Hx as <-. simpl. lia.
  - reflexivity.
  - reflexivity.
  - lia.
  - lia.
  - vm_compute. discriminate.
  - simpl. lia.
Defined.

End Api.

(** ** gc_alloc followed by gc_free *)

Module RoundTrip.

(** X11. Freeing what was just allocated puts the registry back.  After a
    successful gc_alloc that starts no cycle, [gc_free] of the returned
    address leaves exactly the records there were before the allocation,
    links included, the same head and the same allocated blocks; what
    remains of the two calls is the incremented counter and the zeroing of
    the released payload when [init] was set. *)
Theorem gc_free_undoes_gc_alloc
    (fuel : nat) (m : machine) (l : list Z) (sz : Z) (init : bool) (o : oracle) :
  registry m l -> malloc_payload o <> 0 -> malloc_entry o <> 0 ->
  entries m !! malloc_entry o = None -> live m !! malloc_payload o = None ->
  (forall a x, a ∈ l -> entries m !! a = Some x -> ptr x <> malloc_payload o) ->
  collect_due (state_after_alloc (malloc_entry o) (state m)) = false ->
  (S (length l) < fuel)%nat ->
  exists m1 m2,
    gc_alloc fuel m sz init o = Some (m1, malloc_payload o) /\
    gc_free fuel m1 (malloc_payload o) = Some m2 /\
    entries m2 = entries m /\ registry m2 l /\ live m2 = live m /\
    state m2 = set_allocations ((allocations (state m) + 1) mod SIZE_MAX_plus_1) (state m) /\
    mem m2 = (if init then memset (mem m) (malloc_payload o) 0 sz else mem m) /\
    log m2 = log m.
Proof.
  intros Hreg Hp Hnew Hfresh Hdead Hnone Hdue Hfuel.
  destruct (gc_alloc_link m l sz init o Hreg Hp Hnew Hfresh)
    as (mi & Hrun & Hregi & Hent & Hout & Hfirst & Hlive & Hmem & Hlog & Hst).
  exists mi.
  pose proof (registry_head m l Hreg) as Hhd.
  pose proof (fresh_not_in m l o Hreg Hfresh) as Hnin.
  (* the machine the first step of the traversal leaves *)
  set (m2 := mk_machine
               (set_allocations ((allocations (state m) + 1) mod SIZE_MAX_plus_1) (state m))
               (entries m) (mem mi) (live m) (log m)).
  assert (Hreg2 : registry m2 l) by exact Hreg.
  assert (Hstep : unlink_and_release (malloc_entry o)
            (mk_gc_entry (malloc_payload o) sz false (raw_reach_addr o) (hd 0 l) 0) mi
          = Some m2).
  { unfold unlink_and_release. simpl.
    assert (Hlv : delete (malloc_payload o) (live mi) = live m).
    { rewrite Hlive. by apply delete_insert_id. }
    destruct l as [|h l0] eqn:El.
    - simpl in Hhd.
      assert (Hes : delete (malloc_entry o) (entries mi) = entries m).
      { apply map_eq. intros a. destruct (decide (a = malloc_entry o)) as [->|Ha].
        - by rewrite lookup_delete_eq.
        - rewrite lookup_delete_ne by done. apply Hout; [done|]. apply not_elem_of_nil. }
      simpl. unfold m2, with_entries, with_live, with_state. simpl.
      rewrite Hlv, Hes, Hst, Hlog. unfold state_after_alloc. simpl. rewrite <- Hhd.
      by destruct (state m).
    - simpl in Hhd. simpl.
      unfold registry in Hreg. simpl in Hreg. destruct Hreg as (_ & Hh & eh & Heh & Hpv & _).
      apply Z.eqb_neq in Hh as ->. unfold store_prev. simpl.
      assert (Hhe : entries mi !! h = Some (set_prev (malloc_entry o) eh)).
      { rewrite Hfirst; [by rewrite Heh|]. simpl. apply elem_of_cons. by left. }
      assert (Hes : delete (malloc_entry o)
                (<[h := set_prev 0 (set_prev (malloc_entry o) eh)]> (entries mi)) = entries m).
      { apply map_eq. intros a. destruct (decide (a = malloc_entry o)) as [->|Ha].
        - by rewrite lookup_delete_eq.
        - rewrite lookup_delete_ne by done. destruct (decide (a = h)) as [->|Hah].
          + rewrite lookup_insert_eq, Heh. f_equal. destruct eh. simpl in *. by subst.
          + rewrite lookup_insert_ne by done. apply Hout; [done|]. simpl.
            intros Hin. apply list_elem_of_singleton in Hin. done. }
      rewrite Hhe. simpl. unfold m2, with_entries, with_live, with_state. simpl.
      rewrite Hlv, Hes, Hst, Hlog. unfold state_after_alloc. simpl. rewrite <- Hhd.
      by destruct (state m). }
  exists m2. split; [by rewrite Hrun, Hst, Hdue|].
  split.
  { unfold gc_free. apply Z.eqb_neq in Hp as ->. rewrite gc_free_loop_remove.
    rewrite (registry_head mi _ Hregi). destruct fuel as [|fuel]; [lia|]. simpl.
    apply Z.eqb_neq in Hnew as ->. rewrite Hent. simpl. rewrite Z.eqb_refl, Hstep. simpl.
    apply (remove_loop_none _ (ptr_test_payload (malloc_payload o)) l [] m2 fuel Hreg2).
    - lia.
    - intros a Ha. destruct (seg_lookup _ _ _ _ _ a Hreg Ha) as [x Hx].
      unfold keeps. simpl. rewrite Hx. apply negb_true_iff. apply Z.eqb_neq.
      by apply (Hnone a x). }
  unfold m2. simpl. rewrite Hmem. done.
Qed.

Lemma gc_free_undoes_gc_alloc_witness :
  exists m1 m2,
    gc_alloc 5 three 16 true both_succeed = Some (m1, malloc_payload both_succeed) /\
    gc_free 5 m1 (malloc_payload both_succeed) = Some m2 /\
    entries m2 = entries three /\ registry m2 [5128; 5064; 5000] /\ live m2 = live three /\
    state m2 =
      set_allocations ((allocations (state three) + 1) mod SIZE_MAX_plus_1) (state three) /\
    mem m2 = (if true then memset (mem three) (malloc_payload both_succeed) 0 16
              else mem three) /\
    log m2 = log three.
Proof.
  apply (gc_free_undoes_gc_alloc 5 three [5128; 5064; 5000] 16 true both_succeed).
  - exact three_registry.
  - vm_compute. discriminate.
  - vm_compute. discriminate.
  - reflexivity.
  - reflexivity.
  - intros a x Ha Hx. destruct (Api.three_bases a x Ha Hx) as [-> | [-> | ->]];
      vm_compute; discriminate.
  - reflexivity.
  - simpl. lia.
Defined.

End RoundTrip.

(** ** Why a record is marked *)

Section MarkSound.

Lemma found_in_memory_refl m : found_in_memory m m.
Proof. intros a ent ent' He Hr He' Hr'. congruence. Qed.

Lemma found_in_memory_trans m1 m2 m3 :
  marks_only m1 m2 -> marks_only m2 m3 ->
  found_in_memory m1 m2 -> found_in_memory m2 m3 -> found_in_memory m1 m3.
Proof.
  intros H12 H23 F12 F23 a ent ent3 He Hr He3 Hr3.
  pose proof H12 as (_ & Hmem & _ & Hle12 & _).
  pose proof H23 as (_ & _ & _ & Hle23 & _).
  destruct (Hle12 a ent He) as (ent2 & He2 & _).
  destruct (Hle23 a ent2 He2) as (x & Hx & _ & _ & _ & _ & Heq).
  rewrite He3 in Hx. injection Hx as <-.
  destruct (reachable ent2) eqn:E2.
  - rewrite (Heq eq_refl). by apply (F12 a ent ent2).
  - rewrite <- Hmem. by apply (F23 a ent2 ent3).
Qed.

Lemma found_in_memory_log_read m rs re s : found_in_memory m (log_read rs re s m).
Proof. intros a ent ent' He Hr He' Hr'. simpl in He'. congruence. Qed.

Lemma found_in_memory_mark m rs re a ent s :
  entries m !! a = Some ent -> ptr ent = read_word (mem m) s ->
  found_in_memory m (mark_entry a ent s (log_read rs re s m)).
Proof.
  intros He Hp x y y' Hy Hr Hy' Hr'. simpl in Hy'.
  destruct (decide (x = a)) as [->|Hxa].
  - rewrite lookup_insert_eq in Hy'. injection Hy' as <-. simpl. congruence.
  - rewrite lookup_insert_ne in Hy' by done. congruence.
Qed.

(** Whenever a call of [gc_mark] returns, each record it has marked was
    marked at an address where memory holds the record's base, and that
    address is in the record's [reach_addr]. *)
Lemma gc_mark_sound fuel :
  (forall m rs re s e ct m',
     gc_mark_range fuel m rs re s e ct = Some m' -> found_in_memory m m') /\
  (forall m rs re a s ct r,
     gc_mark_entries fuel m rs re a s ct = Some r -> found_in_memory m r.1).
Proof.
  induction fuel as [|fuel [IHr IHe]]; [split; intros; done|]. split.
  - intros m rs re s e ct m' Hrun.
    rewrite gc_mark_range_S in Hrun. destruct (s <=? e).
    2:{ injection Hrun as <-. apply found_in_memory_refl. }
    destruct (gc_mark_entries fuel m rs re (head (state m)) s ct) as [r|] eqn:Er; [|done].
    simpl in Hrun.
    destruct (proj2 (gc_mark_frame fuel) _ _ _ _ _ _ _ Er) as (Hm1 & _).
    destruct (proj1 (gc_mark_frame fuel) _ _ _ _ _ _ _ Hrun) as (Hm2 & _).
    apply (found_in_memory_trans m r.1 m'); try done.
    + by apply (IHe _ _ _ _ _ _ _ Er).
    + by apply (IHr _ _ _ _ _ _ _ Hrun).
  - intros m rs re a s ct r Hrun.
    destruct (decide (a = 0)) as [->|Ha].
    { rewrite gc_mark_entries_null in Hrun. injection Hrun as <-.
      apply found_in_memory_refl. }
    destruct (entries m !! a) as [ent|] eqn:He.
    2:{ simpl in Hrun. apply Z.eqb_neq in Ha. rewrite Ha, He in Hrun. done. }
    remember (if ct then skip_tags (mem m) s else s) as s1 eqn:Es1.
    rewrite (gc_mark_entries_S fuel m rs re a s ct ent s1 Ha He Es1) in Hrun.
    pose proof (marks_only_log_read m rs re s1) as Hm0.
    destruct ((ptr ent =? read_word (mem m) s1) && negb (reachable ent)) eqn:Hc.
    + apply andb_true_iff in Hc as [Hw%Z.eqb_eq Hr%negb_true_iff].
      destruct (marks_only_mark (log_read rs re s1 m) a ent s1 He Hr) as [Hm1 _].
      pose proof (found_in_memory_mark m rs re a ent s1 He Hw) as F1.
      remember (mark_entry a ent s1 (log_read rs re s1 m)) as m1 eqn:Em1.
      assert (Hm01 : marks_only m m1) by (eapply marks_only_trans; [exact Hm0|exact Hm1]).
      destruct (gc_mark_range fuel m1 _ _ _ _ true) as [m2|] eqn:Er; [|done].
      simpl in Hrun. destruct (proj1 (gc_mark_frame fuel) _ _ _ _ _ _ _ Er) as (Hm12 & _).
      destruct (entries m2 !! a) as [ent2|] eqn:He2; [|done]. simpl in Hrun.
      destruct (proj2 (gc_mark_frame fuel) _ _ _ _ _ _ _ Hrun) as (Hm23 & _).
      apply (found_in_memory_trans m m2 r.1); try done.
      * eapply marks_only_trans; [exact Hm01|exact Hm12].
      * apply (found_in_memory_trans m m1 m2); try done.
        by apply (IHr _ _ _ _ _ _ _ Er).
      * by apply (IHe _ _ _ _ _ _ _ Hrun).
    + destruct (proj2 (gc_mark_frame fuel) _ _ _ _ _ _ _ Hrun) as (Hm1 & _).
      apply (found_in_memory_trans m (log_read rs re s1 m) r.1); try done.
      * apply found_in_memory_log_read.
      * by apply (IHe _ _ _ _ _ _ _ Hrun).
Qed.

Lemma scan_if_sound (b : bool) fuel m s e ct m' :
  scan_if b fuel m s e ct = Some m' -> found_in_memory m m'.
Proof.
  destruct b; simpl; [|intros [= <-]; apply found_in_memory_refl].
  unfold gc_mark. apply (proj1 (gc_mark_sound fuel)).
Qed.

Lemma gc_mark_heaps_sound fuel heaps : forall m m',
  gc_mark_heaps fuel heaps m = Some m' -> marks_only m m' /\ found_in_memory m m'.
Proof.
  induction heaps as [|h heaps IH]; intros m m' Hrun.
  - injection Hrun as <-. split; [apply marks_only_refl|apply found_in_memory_refl].
  - simpl in Hrun. destruct (gc_mark fuel m (start h) (end_ h) true) as [m1|] eqn:E; [|done].
    simpl in Hrun. destruct (IH _ _ Hrun) as (Hm2 & F2).
    unfold gc_mark in E.
    destruct (proj1 (gc_mark_frame fuel) _ _ _ _ _ _ _ E) as (Hm1 & _).
    pose proof (proj1 (gc_mark_sound fuel) _ _ _ _ _ _ _ E) as F1.
    split; [eapply marks_only_trans; [exact Hm1|exact Hm2]|].
    by apply (found_in_memory_trans m m1 m').
Qed.

End MarkSound.

Section CollectSound.

Context {m : machine} {l : list Z} {o : oracle} {n : nat} {m1 m2 m3 m4 m5 m' : machine}.
Hypothesis steps : collect_steps m l o n m1 m2 m3 m4 m5 m'.

Lemma steps_found : found_in_memory m1 m5.
Proof.
  pose proof (cs_m12 _ _ _ _ _ _ _ _ _ _ steps) as H12.
  pose proof (cs_m23 _ _ _ _ _ _ _ _ _ _ steps) as H23.
  pose proof (cs_m34 _ _ _ _ _ _ _ _ _ _ steps) as H34.
  pose proof (cs_m45 _ _ _ _ _ _ _ _ _ _ steps) as H45.
  apply (found_in_memory_trans m1 m4 m5); [exact (steps_m14 steps)|done| |].
  - apply (found_in_memory_trans m1 m3 m4); [exact (steps_m13 steps)|done| |].
    + apply (found_in_memory_trans m1 m2 m3); try done.
      * exact (scan_if_sound _ _ _ _ _ _ _ (cs_stack _ _ _ _ _ _ _ _ _ _ steps n ltac:(lia))).
      * exact (scan_if_sound _ _ _ _ _ _ _ (cs_data _ _ _ _ _ _ _ _ _ _ steps n ltac:(lia))).
    + exact (scan_if_sound _ _ _ _ _ _ _ (cs_bss _ _ _ _ _ _ _ _ _ _ steps n ltac:(lia))).
  - pose proof (cs_heaps _ _ _ _ _ _ _ _ _ _ steps n ltac:(lia)) as H.
    destruct (flag_set m GC_SCAN_HEAPS).
    + by destruct (gc_mark_heaps_sound _ _ _ _ H).
    + injection H as <-. apply found_in_memory_refl.
Qed.

End CollectSound.



(** ** The words a scan reads *)

Section MarkReads.

Lemma reads_added_refl P m : reads_added P m m.
Proof. exists []. split; [done|]. intros ev Hev. by apply elem_of_nil in Hev. Qed.

Lemma reads_added_trans P m1 m2 m3 :
  reads_added P m1 m2 -> reads_added P m2 m3 -> reads_added P m1 m3.
Proof.
  intros (n1 & H1 & P1) (n2 & H2 & P2). exists (n2 ++ n1).
  split; [by rewrite H2, H1, app_assoc|].
  intros ev [Hev|Hev]%elem_of_app; [by apply P2|by apply P1].
Qed.

Lemma reads_added_weaken (P Q : Z -> Z -> Z -> Prop) m m' :
  (forall ls le a, P ls le a -> Q ls le a) -> reads_added P m m' -> reads_added Q m m'.
Proof.
  intros HPQ (new & Hlog & HP). exists new. split; [done|].
  intros ev Hev. destruct (HP ev Hev) as (ls & le & a & -> & H).
  exists ls, le, a. split; [done|]. by apply HPQ.
Qed.

Lemma reads_added_log_read (P : Z -> Z -> Z -> Prop) m rs re a :
  P rs re a -> reads_added P m (log_read rs re a m).
Proof.
  intros HP. exists [EvRead rs re a]. split; [done|].
  intros ev Hev. apply list_elem_of_singleton in Hev. subst ev. by exists rs, re, a.
Qed.



End MarkReads.

Module Reads.



End Reads.

(** ** Scans of memory without self-tags *)

Section MarkGrid.

Variable m0 : machine.
Hypothesis Htf : payloads_tag_free m0.

Lemma marked_at_refl Q m : marked_at Q m m.
Proof. intros a ent ent' He Hr He' Hr'. congruence. Qed.

Lemma marked_at_trans Q m1 m2 m3 :
  marks_only m1 m2 -> marks_only m2 m3 ->
  marked_at Q m1 m2 -> marked_at Q m2 m3 -> marked_at Q m1 m3.
Proof.
  intros H12 H23 F12 F23 a ent ent3 He Hr He3 Hr3.
  pose proof H12 as (_ & _ & _ & Hle12 & _).
  pose proof H23 as (_ & _ & _ & Hle23 & _).
  destruct (Hle12 a ent He) as (ent2 & He2 & _).
  destruct (Hle23 a ent2 He2) as (x & Hx & _ & _ & _ & _ & Heq).
  rewrite He3 in Hx. injection Hx as <-.
  destruct (reachable ent2) eqn:E2.
  - rewrite (Heq eq_refl). by apply (F12 a ent ent2).
  - by apply (F23 a ent2 ent3).
Qed.

Lemma marked_at_weaken (Q Q' : Z -> Prop) m m' :
  (forall a, Q a -> Q' a) -> marked_at Q m m' -> marked_at Q' m m'.
Proof. intros HQ F a ent ent' He Hr He' Hr'. apply HQ. by apply (F a ent ent'). Qed.

Lemma marked_at_mark (Q : Z -> Prop) m rs re a ent s :
  entries m !! a = Some ent -> Q s ->
  marked_at Q m (mark_entry a ent s (log_read rs re s m)).
Proof.
  intros He HQ x y y' Hy Hr Hy' Hr'. simpl in Hy'.
  destruct (decide (x = a)) as [->|Hxa].
  - rewrite lookup_insert_eq in Hy'. by injection Hy' as <-.
  - rewrite lookup_insert_ne in Hy' by done. congruence.
Qed.

Lemma payloads_of_marks_only m m' :
  payloads_of m0 m -> marks_only m m' -> payloads_of m0 m'.
Proof.
  intros (Hmem & Hlab) Hm. split.
  - destruct Hm as (_ & -> & _). exact Hmem.
  - intros x ent' He'.
    destruct (marks_only_lookup_rev m m' x ent' Hm He') as (ent & He & -> & -> & _).
    by apply (Hlab x ent).
Qed.

Lemma payload_label_tag_free ls le : payload_label m0 ls le -> ~ tagged (mem m0) ls le.
Proof. intros (x & ent & He & -> & ->). by apply (Htf x ent). Qed.

Lemma on_grid_no_skip (f : Z -> Z) (rs re s : Z) :
  ~ tagged f rs re -> on_grid rs re s -> skip_tags f s = s.
Proof.
  intros Ht (i & Hi & -> & Hle).
  destruct (decide (skip_tags f (rs + 8 * i) = rs + 8 * i)) as [|Hne]; [done|].
  exfalso. apply Ht. by exists i.
Qed.

(** With no self-tag in the payloads, nor in the range when self-skip is
    on, every read and every mark of a call is made at a word position of
    the range the call was given or of a record's payload. *)
Lemma gc_mark_grid fuel :
  (forall m rs re s ct m',
     payloads_of m0 m ->
     gc_mark_range fuel m rs re s (re - sizeof_ptr) ct = Some m' ->
     (exists k, 0 <= k /\ s = rs + 8 * k) ->
     (ct = true -> ~ tagged (mem m0) rs re) ->
     reads_added (in_scan m0 rs re) m m' /\
     marked_at (fun a => exists ls le, in_scan m0 rs re ls le a) m m') /\
  (forall m rs re x s ct r,
     payloads_of m0 m ->
     gc_mark_entries fuel m rs re x s ct = Some r ->
     on_grid rs re s ->
     (ct = true -> ~ tagged (mem m0) rs re) ->
     reads_added (in_scan m0 rs re) m r.1 /\
     marked_at (fun a => exists ls le, in_scan m0 rs re ls le a) m r.1).
Proof.
  induction fuel as [|fuel [IHr IHe]]; [split; intros; done|]. split.
  - intros m rs re s ct m' H0 Hrun (k & Hk & Hs) Htag.
    rewrite gc_mark_range_S in Hrun. destruct (s <=? re - sizeof_ptr) eqn:Ele.
    2:{ injection Hrun as <-. split; [apply reads_added_refl|apply marked_at_refl]. }
    apply Z.leb_le in Ele. unfold sizeof_ptr in Ele.
    assert (Hgrid : on_grid rs re s) by (exists k; split; [done|]; split; [done|lia]).
    destruct (gc_mark_entries fuel m rs re (head (state m)) s ct) as [r|] eqn:Er; [|done].
    simpl in Hrun.
    destruct (proj2 (gc_mark_frame fuel) _ _ _ _ _ _ _ Er) as (Hm1 & _ & Hcur).
    destruct (proj1 (gc_mark_frame fuel) _ _ _ _ _ _ _ Hrun) as (Hm2 & _).
    assert (Hr2 : r.2 = s).
    { apply Hcur. destruct ct; [right|by left].
      destruct H0 as (-> & _). by apply (on_grid_no_skip _ rs re); [apply Htag|]. }
    destruct (IHe _ _ _ _ _ _ _ H0 Er Hgrid Htag) as (R1 & M1).
    destruct (IHr _ _ _ _ _ _ (payloads_of_marks_only _ _ H0 Hm1) Hrun) as (R2 & M2);
      [|done|].
    { exists (k + 1). rewrite Hr2. unfold sizeof_ptr. lia. }
    split.
    + by apply (reads_added_trans _ m r.1 m').
    + by apply (marked_at_trans _ m r.1 m').
  - intros m rs re x s ct r H0 Hrun Hgrid Htag.
    destruct (decide (x = 0)) as [->|Hx].
    { rewrite gc_mark_entries_null in Hrun. injection Hrun as <-.
      split; [apply reads_added_refl|apply marked_at_refl]. }
    destruct (entries m !! x) as [ent|] eqn:He.
    2:{ simpl in Hrun. apply Z.eqb_neq in Hx. rewrite Hx, He in Hrun. done. }
    remember (if ct then skip_tags (mem m) s else s) as s1 eqn:Es1.
    rewrite (gc_mark_entries_S fuel m rs re x s ct ent s1 Hx He Es1) in Hrun.
    assert (Hs1 : s1 = s).
    { rewrite Es1. destruct ct; [|done].
      destruct H0 as (-> & _). by apply (on_grid_no_skip _ rs re); [apply Htag|]. }
    clear Es1. subst s1.
    pose proof (marks_only_log_read m rs re s) as Hm0.
    assert (Hin : in_scan m0 rs re rs re s) by (split; [done|by right]).
    assert (Hfirst : reads_added (in_scan m0 rs re) m (log_read rs re s m))
      by (by apply reads_added_log_read).
    destruct ((ptr ent =? read_word (mem m) s) && negb (reachable ent)) eqn:Hc.
    + apply andb_true_iff in Hc as [_ Hr%negb_true_iff].
      destruct (marks_only_mark (log_read rs re s m) x ent s He Hr) as [Hm1 _].
      pose proof (marked_at_mark (fun a => exists ls le, in_scan m0 rs re ls le a)
                    m rs re x ent s He (ex_intro _ rs (ex_intro _ re Hin))) as F1.
      remember (mark_entry x ent s (log_read rs re s m)) as m1 eqn:Em1.
      assert (Hm01 : marks_only m m1) by (eapply marks_only_trans; [exact Hm0|exact Hm1]).
      assert (H1 : payloads_of m0 m1) by (by apply (payloads_of_marks_only m)).
      assert (Hl1 : reads_added (in_scan m0 rs re) m m1).
      { destruct Hfirst as (new & Hlog & HP). exists new. split; [|done]. by rewrite Em1. }
      destruct (gc_mark_range fuel m1 _ _ _ _ true) as [m2|] eqn:Er; [|done].
      simpl in Hrun. destruct (proj1 (gc_mark_frame fuel) _ _ _ _ _ _ _ Er) as (Hm12 & _).
      destruct (entries m2 !! x) as [ent2|] eqn:He2; [|done]. simpl in Hrun.
      destruct (proj2 (gc_mark_frame fuel) _ _ _ _ _ _ _ Hrun) as (Hm23 & _).
      assert (Hlab : payload_label m0 (ptr ent) (ptr ent + size ent)).
      { destruct H0 as (_ & Hl0). by apply (Hl0 x ent). }
      destruct (IHr _ _ _ _ _ _ H1 Er) as (R2 & M2).
      { exists 0. lia. }
      { intros _. by apply payload_label_tag_free. }
      assert (Hw : forall ls le a,
                in_scan m0 (ptr ent) (ptr ent + size ent) ls le a -> in_scan m0 rs re ls le a).
      { intros ls le a (Hg & [Hl | (-> & ->)]); (split; [done|]); by left. }
      destruct (IHe _ _ _ _ _ _ _ (payloads_of_marks_only _ _ H1 Hm12) Hrun Hgrid Htag)
        as (R3 & M3).
      split.
      * apply (reads_added_trans _ m m1 r.1); [done|].
        apply (reads_added_trans _ m1 m2 r.1); [|done].
        by apply (reads_added_weaken (in_scan m0 (ptr ent) (ptr ent + size ent))).
      * apply (marked_at_trans _ m m2 r.1); try done.
        -- eapply marks_only_trans; [exact Hm01|exact Hm12].
        -- apply (marked_at_trans _ m m1 m2); try done.
           eapply marked_at_weaken; [|exact M2].
           intros a (ls & le & Hi'). exists ls, le. by apply Hw.
    + destruct (proj2 (gc_mark_frame fuel) _ _ _ _ _ _ _ Hrun) as (Hm1 & _).
      destruct (IHe _ _ _ _ _ _ _ (payloads_of_marks_only _ _ H0 Hm0) Hrun Hgrid Htag)
        as (R3 & M3).
      split.
      * by apply (reads_added_trans _ m (log_read rs re s m) r.1).
      * apply (marked_at_trans _ m (log_read rs re s m) r.1); try done.
        intros a e1 e2 H1 H2 H3 H4. simpl in H3. congruence.
Qed.

End MarkGrid.

Section CollectGrid.

Context {m : machine} {l : list Z} {o : oracle} {n : nat} {m1 m2 m3 m4 m5 m' : machine}.
Hypothesis steps : collect_steps m l o n m1 m2 m3 m4 m5 m'.
Hypothesis Hreg : registry m l.
Hypothesis Htf : payloads_tag_free m.
Hypothesis Hhf : heaps_tag_free m o.

Lemma steps_payloads_of : payloads_of m m1.
Proof.
  split; [exact (cs_reset_mem _ _ _ _ _ _ _ _ _ _ steps)|].
  intros x ent1 He1. destruct (decide (x ∈ l)) as [Hx|Hx].
  - destruct (seg_lookup _ _ _ _ _ x Hreg Hx) as [ent He].
    rewrite (cs_reset_in _ _ _ _ _ _ _ _ _ _ steps x ent Hx He) in He1. injection He1 as <-.
    destruct (reset_entry_fields (state m) (gp_registers o) ent) as (-> & -> & _).
    by exists x, ent.
  - rewrite (cs_reset_out _ _ _ _ _ _ _ _ _ _ steps x Hx) in He1. by exists x, ent1.
Qed.

Lemma scan_if_grid (b : bool) fuel x s e x' :
  payloads_of m x -> scan_if b fuel x s e false = Some x' ->
  (b = true -> root_label m o s e) ->
  reads_added (in_cycle m o) x x' /\
  marked_at (fun a => exists ls le, in_cycle m o ls le a) x x'.
Proof.
  intros H0 Hrun Hlab. destruct b; simpl in Hrun.
  2:{ injection Hrun as <-. split; [apply reads_added_refl|apply marked_at_refl]. }
  unfold gc_mark in Hrun.
  destruct (proj1 (gc_mark_grid m Htf fuel) _ _ _ _ _ _ H0 Hrun) as (R & M);
    [exists 0; lia|done|].
  assert (Hw : forall ls le a, in_scan m s e ls le a -> in_cycle m o ls le a).
  { intros ls le a (Hg & [Hl | (-> & ->)]); (split; [done|]); [by left|right; by apply Hlab]. }
  split; [by apply (reads_added_weaken (in_scan m s e))|].
  eapply marked_at_weaken; [|exact M]. intros a (ls & le & Hi). exists ls, le. by apply Hw.
Qed.

Lemma gc_mark_heaps_grid fuel heaps : forall x x',
  payloads_of m x -> gc_mark_heaps fuel heaps x = Some x' ->
  (forall h, h ∈ heaps -> ~ tagged (mem m) (start h) (end_ h) /\
                          root_label m o (start h) (end_ h)) ->
  reads_added (in_cycle m o) x x' /\
  marked_at (fun a => exists ls le, in_cycle m o ls le a) x x'.
Proof.
  induction heaps as [|h heaps IH]; intros x x' H0 Hrun Hall.
  { injection Hrun as <-. split; [apply reads_added_refl|apply marked_at_refl]. }
  simpl in Hrun. destruct (gc_mark fuel x (start h) (end_ h) true) as [x1|] eqn:E; [|done].
  simpl in Hrun. unfold gc_mark in E.
  destruct (proj1 (gc_mark_frame fuel) _ _ _ _ _ _ _ E) as (Hm1 & _).
  destruct (Hall h) as (Hth & Hlh); [apply elem_of_cons; by left|].
  destruct (proj1 (gc_mark_grid m Htf fuel) _ _ _ _ _ _ H0 E) as (R & M);
    [exists 0; lia|done|].
  destruct (IH x1 x' (payloads_of_marks_only m _ _ H0 Hm1) Hrun) as (R2 & M2).
  { intros h' Hh'. apply Hall. apply elem_of_cons. by right. }
  assert (Hw : forall ls le a,
            in_scan m (start h) (end_ h) ls le a -> in_cycle m o ls le a).
  { intros ls le a (Hg & [Hl | (-> & ->)]); (split; [done|]); [by left|by right]. }
  assert (Hm2 : marks_only x1 x').
  { destruct (gc_mark_heaps_sound _ _ _ _ Hrun) as (H & _). exact H. }
  split.
  - apply (reads_added_trans _ x x1 x'); [|done].
    by apply (reads_added_weaken (in_scan m (start h) (end_ h))).
  - apply (marked_at_trans _ x x1 x'); try done.
    eapply marked_at_weaken; [|exact M]. intros a (ls & le & Hi). exists ls, le. by apply Hw.
Qed.

(** Every read and every mark of the scans of a cycle is made at a word
    position of an enabled root range, of a scanned heap region or of a
    record's payload. *)
Lemma steps_grid :
  reads_added (in_cycle m o) m1 m5 /\
  marked_at (fun a => exists ls le, in_cycle m o ls le a) m1 m5.
Proof.
  pose proof (cs_m12 _ _ _ _ _ _ _ _ _ _ steps) as H12.
  pose proof (cs_m23 _ _ _ _ _ _ _ _ _ _ steps) as H23.
  pose proof (cs_m34 _ _ _ _ _ _ _ _ _ _ steps) as H34.
  pose proof (cs_m45 _ _ _ _ _ _ _ _ _ _ steps) as H45.
  pose proof steps_payloads_of as P1.
  pose proof (payloads_of_marks_only m _ _ P1 H12) as P2.
  pose proof (payloads_of_marks_only m _ _ P2 H23) as P3.
  pose proof (payloads_of_marks_only m _ _ P3 H34) as P4.
  destruct (scan_if_grid _ _ _ _ _ _ P1 (cs_stack _ _ _ _ _ _ _ _ _ _ steps n ltac:(lia)))
    as (R1 & M1); [intros Hf; left; done|].
  destruct (scan_if_grid _ _ _ _ _ _ P2 (cs_data _ _ _ _ _ _ _ _ _ _ steps n ltac:(lia)))
    as (R2 & M2); [intros Hf; right; left; done|].
  destruct (scan_if_grid _ _ _ _ _ _ P3 (cs_bss _ _ _ _ _ _ _ _ _ _ steps n ltac:(lia)))
    as (R3 & M3); [intros Hf; right; right; left; done|].
  assert (H5 : reads_added (in_cycle m o) m4 m5 /\
               marked_at (fun a => exists ls le, in_cycle m o ls le a) m4 m5).
  { pose proof (cs_heaps _ _ _ _ _ _ _ _ _ _ steps n ltac:(lia)) as H.
    destruct (flag_set m GC_SCAN_HEAPS) eqn:Ef.
    - apply (gc_mark_heaps_grid _ _ _ _ P4 H). intros h Hh. split; [by apply Hhf|].
      right. right. right. split; [done|]. by exists h.
    - injection H as <-. split; [apply reads_added_refl|apply marked_at_refl]. }
  destruct H5 as (R4 & M4). split.
  - apply (reads_added_trans _ m1 m2 m5); [done|].
    apply (reads_added_trans _ m2 m3 m5); [done|].
    by apply (reads_added_trans _ m3 m4 m5).
  - apply (marked_at_trans _ m1 m4 m5); [exact (steps_m14 steps)|done| |done].
    apply (marked_at_trans _ m1 m3 m4); [exact (steps_m13 steps)|done| |done].
    by apply (marked_at_trans _ m1 m2 m3).
Qed.

End CollectGrid.

Section FixtureMemory.

Lemma reached_payloads_tag_free : payloads_tag_free reached.
Proof.
  intros x ent Hx (i & Hi & Hle & Hne).
  destruct (three_records x ent Hx) as [(-> & ->) | [(-> & ->) | (-> & ->)]];
    simpl in Hle, Hne; assert (i = 0) as -> by (clear Hne; lia);
    apply Hne; vm_compute; reflexivity.
Qed.

Lemma reached_heaps_tag_free : heaps_tag_free reached snapshot.
Proof. intros Hf. vm_compute in Hf. discriminate Hf. Qed.

Lemma reached_records_apart : records_apart reached snapshot.
Proof.
  split; [|split; [|split; [|split]]].
  - intros _. apply three_records_apart_from; [reflexivity|]. left. vm_compute. discriminate.
  - intros _. apply three_records_apart_from; [reflexivity|]. left. vm_compute. discriminate.
  - intros _. apply three_records_apart_from; [reflexivity|]. left. vm_compute. discriminate.
  - intros Hf. vm_compute in Hf. discriminate Hf.
  - by apply three_payloads_hold_no_record.
Qed.

Lemma rooted_payloads_tag_free : payloads_tag_free rooted.
Proof.
  intros x ent Hx (i & Hi & Hle & Hne).
  destruct (rooted_records x ent Hx) as (-> & ->).
  simpl in Hle, Hne. assert (i = 0) as -> by (clear Hne; lia).
  apply Hne. vm_compute. reflexivity.
Qed.

Lemma rooted_records_apart_from (s e : Z) :
  e <= 5000 \/ 5064 <= s -> records_apart_from rooted s e.
Proof.
  intros Hse a [ent Ha]. destruct (rooted_records a ent Ha) as (-> & ->).
  unfold sizeof_gc_entry. lia.
Qed.

Lemma rooted_payloads_hold_no_record : payloads_hold_no_record rooted.
Proof.
  intros x ent Hx. destruct (rooted_records x ent Hx) as (-> & ->). simpl.
  apply rooted_records_apart_from. lia.
Qed.

End FixtureMemory.

(** ** Why a record survives *)

Module Sound.

(** X12. No record survives a cycle without a reason the cycle has
    recorded.  Of every record left in the registry, either the base is in
    the register snapshot, registers being scanned, and [reach_addr] is
    null; or [reach_addr] is a word position of an enabled root range, of a
    scanned heap region or of a record's payload, no byte of that word
    belongs to a record of the collector, and the word holds the record's
    base.  The premises make the memory the cycle reads the memory the
    cycle does not write: every record tracks an allocated block
    ([payloads_allocated]), no scanned range ends below the first word
    ([roots_proper]), no record of the collector lies in a scanned range
    or in a payload ([records_apart]), and no payload and no scanned heap
    region shows a self-tag. *)
Theorem survivor_was_seen (m : machine) (l : list Z) (o : oracle) :
  registry m l -> payloads_allocated m -> roots_proper m o -> records_apart m o ->
  payloads_tag_free m -> heaps_tag_free m o ->
  exists n m' l',
    (forall fuel, (n <= fuel)%nat -> _gc_collect fuel m o = Some m') /\
    registry m' l' /\
    forall a ent', a ∈ l' -> entries m' !! a = Some ent' ->
      (register_holds m o (ptr ent') /\ reach_addr ent' = 0) \/
      (read_word (mem m') (reach_addr ent') = ptr ent' /\
       (exists ls le, in_cycle m o ls le (reach_addr ent')) /\
       forall x, is_Some (entries m !! x) ->
         x + sizeof_gc_entry <= reach_addr ent' \/ reach_addr ent' + 8 <= x).
Proof.
  intros Hreg _ _ Hapart Htf Hhf.
  destruct (gc_collect_steps m l o Hreg) as (n & m1 & m2 & m3 & m4 & m5 & m' & steps).
  exists n, m', (filter (fun a => is_marked m5 a = true) l).
  split; [exact (cs_run _ _ _ _ _ _ _ _ _ _ steps)|].
  split; [exact (cs_sweep_registry _ _ _ _ _ _ _ _ _ _ steps)|].
  intros a ent' [Hmk Ha]%list_elem_of_filter He'.
  destruct (seg_lookup _ _ _ _ _ a Hreg Ha) as [ent He].
  pose proof (cs_reset_in _ _ _ _ _ _ _ _ _ _ steps a ent Ha He) as He1.
  apply is_marked_true in Hmk as Hmk'. destruct Hmk' as (ent5 & He5 & Hr5).
  assert (Hpay : payload_of ent' = payload_of ent5).
  { pose proof (cs_sweep_kept _ _ _ _ _ _ _ _ _ _ steps a (fun _ => Hmk)) as Hk.
    unfold payloads in Hk. rewrite !lookup_fmap, He', He5 in Hk. simpl in Hk. congruence. }
  assert (Hp : ptr ent' = ptr ent5) by (unfold payload_of in Hpay; congruence).
  assert (Ha' : reach_addr ent' = reach_addr ent5) by (unfold payload_of in Hpay; congruence).
  rewrite Hp, Ha'.
  rewrite (cs_sweep_mem _ _ _ _ _ _ _ _ _ _ steps), (steps_mem5 steps),
    <- (cs_reset_mem _ _ _ _ _ _ _ _ _ _ steps).
  destruct (reachable (reset_entry (state m) (gp_registers o) ent)) eqn:Er.
  - left.
    destruct (steps_m15 steps) as (_ & _ & _ & Hle & _).
    destruct (Hle a _ He1) as (x & Hx & _ & _ & _ & _ & Heq).
    rewrite He5 in Hx. injection Hx as <-. rewrite (Heq Er).
    rewrite reset_entry_reachable in Er. apply andb_true_iff in Er as (Ef & Ex).
    destruct (reset_entry_fields (state m) (gp_registers o) ent) as (Hpe & _).
    rewrite Hpe. split.
    + split; [exact Ef|].
      apply existsb_exists in Ex as (w & Hw & Heq'). apply Z.eqb_eq in Heq'. subst w.
      by apply list_elem_of_In.
    + unfold reset_entry. rewrite scan_registers_spec.
      destruct (Z.land (flags (state m)) GC_SCAN_REGISTERS =? 0); [done|].
      simpl. by destruct (existsb _ (gp_registers o)).
  - right. split; [by apply (steps_found steps a _ ent5 He1 Er He5 Hr5)|].
    destruct (steps_grid steps Hreg Htf Hhf) as (_ & Hat).
    destruct (Hat a _ ent5 He1 Er He5 Hr5) as (ls & le & Hin).
    split; [by exists ls, le|].
    destruct Hin as ((i & Hi & Hra & Hle) & Hlab).
    assert (Hfar : records_apart_from m ls le).
    { destruct Hapart as (A1 & A2 & A3 & A4 & A5).
      destruct Hlab as [(y & enty & Hy & -> & ->) | Hroot]; [by apply (A5 y enty)|].
      destruct Hroot as [(Hf & -> & ->) | [(Hf & -> & ->) | [(Hf & -> & ->) | (Hf & h & Hh & -> & ->)]]];
        [by apply A1|by apply A2|by apply A3|by apply A4]. }
    intros x Hx. destruct (Hfar x Hx); [left|right]; lia.
Qed.

Lemma survivor_was_seen_witness :
  exists n m' l',
    (forall fuel, (n <= fuel)%nat -> _gc_collect fuel reached snapshot = Some m') /\
    registry m' l' /\
    forall a ent', a ∈ l' -> entries m' !! a = Some ent' ->
      (register_holds reached snapshot (ptr ent') /\ reach_addr ent' = 0) \/
      (read_word (mem m') (reach_addr ent') = ptr ent' /\
       (exists ls le, in_cycle reached snapshot ls le (reach_addr ent')) /\
       forall x, is_Some (entries reached !! x) ->
         x + sizeof_gc_entry <= reach_addr ent' \/ reach_addr ent' + 8 <= x).
Proof.
  apply (survivor_was_seen reached [5128; 5064; 5000] snapshot).
  - exact three_registry.
  - by apply three_payloads_allocated.
  - by apply linux_roots_proper.
  - exact reached_records_apart.
  - exact reached_payloads_tag_free.
  - exact reached_heaps_tag_free.
Defined.

End Sound.

(** ** gc_mark and gc_memcmp as functions *)

Module Mark.

(** X13. The contract of one call of [gc_mark] on a well-formed registry,
    for a range and payloads the call can read and does not write: the
    range does not end below the first word, every record tracks an
    allocated block ([payloads_allocated]), no record of the collector lies
    in the range or in a payload, and no payload (nor the range, when
    self-skip is on) shows a self-tag.  The call terminates (from some
    amount of fuel on it returns one and the same machine).  It changes
    marks, root-hits and the trace only: collector state and allocated
    blocks are as before, no record is added or removed, no base, size or
    link changes, and a record that was marked is not written to; no cycle
    is started.  Every record it has marked carries in [reach_addr] a word
    position of the range or of a payload, at which memory holds its base.
    Every record whose base sits at a word position of the range is marked
    afterwards, and the payload of every record the call has marked has
    been followed. *)
Theorem gc_mark_contract (m : machine) (l : list Z) (s e : Z) (ct : bool) :
  registry m l -> sizeof_ptr <= e -> payloads_allocated m ->
  records_apart_from m s e -> payloads_hold_no_record m ->
  payloads_tag_free m -> (ct = true -> ~ tagged (mem m) s e) ->
  exists f0 m',
    (forall fuel, (f0 <= fuel)%nat -> gc_mark fuel m s e ct = Some m') /\
    marks_only m m' /\ registry m' l /\ cycles m' = cycles m /\
    found_in_memory m m' /\
    marked_at (fun a => exists ls le, in_scan m s e ls le a) m m' /\
    (forall a ent, a ∈ l -> entries m !! a = Some ent ->
       holds (mem m) (ptr ent) s e -> is_marked m' a = true) /\
    (forall a1 ent1, entries m !! a1 = Some ent1 -> reachable ent1 = false ->
       is_marked m' a1 = true -> payload_followed l m' (ptr ent1) (size ent1)).
Proof.
  intros Hreg _ _ _ _ Htf Htag.
  destruct (gc_mark_terminates m l s e ct Hreg) as (f0 & m' & Hrun & Hmarks).
  exists f0, m'. split; [exact Hrun|]. split; [exact Hmarks|].
  split; [exact (marks_only_registry _ _ _ Hmarks Hreg)|].
  pose proof (Hrun f0 (Nat.le_refl f0)) as Hrun0. unfold gc_mark in Hrun0.
  destruct (proj1 (gc_mark_frame f0) _ _ _ _ _ _ _ Hrun0) as (_ & Hcyc).
  split; [exact Hcyc|].
  split; [exact (proj1 (gc_mark_sound f0) _ _ _ _ _ _ _ Hrun0)|].
  split.
  { assert (H0 : payloads_of m m).
    { split; [done|]. intros x ent Hx. by exists x, ent. }
    destruct (proj1 (gc_mark_grid m Htf f0) _ _ _ _ _ _ H0 Hrun0) as (_ & M);
      [exists 0; lia|done|done]. }
  split.
  - intros a ent Ha He (i & Hi & Hle & Hw).
    apply (gc_mark_range_finds l _ _ _ _ _ _ _ _ Hreg Hrun0) with (i := i) (ent := ent);
      try done.
    + intros Hct j Hj Hjle.
      destruct (decide (skip_tags (mem m) (s + 8 * j) = s + 8 * j)) as [|Hne]; [done|].
      exfalso. apply (Htag Hct). exists j. unfold sizeof_ptr in Hjle.
      split; [done|]. split; [lia|done].
    + unfold sizeof_ptr. lia.
  - intros a1 ent1 He1 Hr1 Hmk.
    apply (proj1 (gc_mark_transitive l f0) _ _ _ _ _ _ _ Hreg Hrun0 a1 ent1); try done.
    by apply (Htf a1 ent1).
Qed.

Lemma gc_mark_contract_witness :
  exists f0 m',
    (forall fuel, (f0 <= fuel)%nat -> gc_mark fuel rooted 1000 1032 false = Some m') /\
    marks_only rooted m' /\ registry m' [5000] /\ cycles m' = cycles rooted /\
    found_in_memory rooted m' /\
    marked_at (fun a => exists ls le, in_scan rooted 1000 1032 ls le a) rooted m' /\
    (forall a ent, a ∈ [5000] -> entries rooted !! a = Some ent ->
       holds (mem rooted) (ptr ent) 1000 1032 -> is_marked m' a = true) /\
    (forall a1 ent1, entries rooted !! a1 = Some ent1 -> reachable ent1 = false ->
       is_marked m' a1 = true -> payload_followed [5000] m' (ptr ent1) (size ent1)).
Proof.
  apply (gc_mark_contract rooted [5000] 1000 1032 false).
  - exact rooted_registry.
  - unfold sizeof_ptr. lia.
  - exact rooted_payloads_allocated.
  - apply rooted_records_apart_from. lia.
  - exact rooted_payloads_hold_no_record.
  - exact rooted_payloads_tag_free.
  - discriminate.
Defined.

(** X14. [gc_memcmp] answers true exactly when each of the [n] bytes at
    [a] equals the byte of the literal at the same offset; the first
    mismatch ends the comparison. *)
Theorem gc_memcmp_compares_every_byte (f : Z -> Z) (b : list Z) : forall a : Z,
  gc_memcmp f a b = true <->
  forall j, (j < length b)%nat -> byte_at f (a + Z.of_nat j) = nth j b 0.
Proof.
  induction b as [|c b IH]; intros a; simpl.
  - split; [intros _ j Hj; lia|done].
  - destruct (byte_at f a =? c) eqn:E.
    + apply Z.eqb_eq in E. rewrite IH. split.
      * intros H [|j] Hj; [by rewrite Z.add_0_r|].
        replace (a + Z.of_nat (S j)) with (a + 1 + Z.of_nat j) by lia.
        apply H. lia.
      * intros H j Hj. specialize (H (S j) ltac:(lia)).
        replace (a + Z.of_nat (S j)) with (a + 1 + Z.of_nat j) in H by lia. exact H.
    + apply Z.eqb_neq in E. split; [done|]. intros H. exfalso. apply E.
      specialize (H 0%nat ltac:(lia)). by rewrite Z.add_0_r in H.
Qed.

End Mark.

(** ** The words a cycle reads *)

Module Safety.



End Safety.
